(** * FabMo-Engine: the OpenSBP runtime and its transformation library

    A shallow embedding of [runtime/opensbp.js] (expression evaluator,
    stack-break classifier, program analyzer, move handlers, [VC]/[CG]
    settings, the [_execute] dispatcher) and of
    [runtime/opensbp/transformation.js] ([scale], [translate]).

    JavaScript numbers are IEEE-754 binary64 values; they are embedded as
    Rocq's primitive floats, which are the same format with the same
    round-to-nearest-even arithmetic. *)

From Stdlib Require Import PrimFloat FloatOps SpecFloat FloatAxioms ZArith NArith Ascii String List DecimalString.
From stdpp Require Import base option list gmap strings.
Import ListNotations.

Set Warnings "-inexact-float".
Local Open Scope Z_scope.

(** ** JavaScript values of the runtime *)

Module JS.

(** The values that flow through the evaluator and the handlers: the result
    of [_eval] is [undefined], a number or a boolean, never a string. *)
Inductive value :=
| VUndef
| VNum (x : float)
| VBool (b : bool).

Definition ToNumber (v : value) : float :=
  match v with
  | VUndef => PrimFloat.nan
  | VNum x => x
  | VBool true => 1%float
  | VBool false => 0%float
  end.

(** Truthiness of a number: [0], [-0] and [NaN] are falsy. *)
Definition truthy_num (x : float) : bool :=
  negb (PrimFloat.is_zero x || PrimFloat.is_nan x).

Definition ToBoolean (v : value) : bool :=
  match v with
  | VUndef => false
  | VNum x => truthy_num x
  | VBool b => b
  end.

(** [v !== undefined] *)
Definition is_defined (v : value) : bool :=
  match v with VUndef => false | _ => true end.

(** Binary operators on non-string primitives: both sides go through
    [ToNumber]. *)
Definition js_add (a b : value) : value := VNum (ToNumber a + ToNumber b)%float.
Definition js_sub (a b : value) : value := VNum (ToNumber a - ToNumber b)%float.
Definition js_mul (a b : value) : value := VNum (ToNumber a * ToNumber b)%float.
Definition js_div (a b : value) : value := VNum (ToNumber a / ToNumber b)%float.

(** Relational operators; a comparison with [NaN] is [false]. *)
Definition js_lt (a b : value) : value := VBool (PrimFloat.ltb (ToNumber a) (ToNumber b)).
Definition js_gt (a b : value) : value := VBool (PrimFloat.ltb (ToNumber b) (ToNumber a)).
Definition js_le (a b : value) : value := VBool (PrimFloat.leb (ToNumber a) (ToNumber b)).
Definition js_ge (a b : value) : value := VBool (PrimFloat.leb (ToNumber b) (ToNumber a)).

(** Loose equality [==] restricted to undefined, numbers and booleans. *)
Definition loose_eq (a b : value) : bool :=
  match a, b with
  | VUndef, VUndef => true
  | VUndef, _ | _, VUndef => false
  | VBool x, VBool y => Bool.eqb x y
  | _, _ => PrimFloat.eqb (ToNumber a) (ToNumber b)
  end.

(** Strict equality [===] on the same domain. *)
Definition strict_eq (a b : value) : bool :=
  match a, b with
  | VUndef, VUndef => true
  | VNum x, VNum y => PrimFloat.eqb x y
  | VBool x, VBool y => Bool.eqb x y
  | _, _ => false
  end.

Definition js_eq (a b : value) : value := VBool (loose_eq a b).
Definition js_neq (a b : value) : value := VBool (negb (loose_eq a b)).

(** *** [parseFloat] on text

    A text is a sequence of code units below 256, one [ascii] each.  The
    longest prefix that is a [StrDecimalLiteral] (after leading white
    space) is converted to the nearest binary64 value; no such prefix
    gives [NaN]. *)

(** White space as [\s], [trim], [Number] and [parseFloat] see it: among
    the code units below 256 these are tab to carriage return, the space
    and the no-break space U+00A0. *)
Definition is_ws (c : ascii) : bool :=
  let n := N_of_ascii c in
  ((9 <=? n) && (n <=? 13))%N || (n =? 32)%N || (n =? 160)%N.

Definition is_digit (c : ascii) : bool :=
  let n := N_of_ascii c in ((48 <=? n) && (n <=? 57))%N.

Definition digit_val (c : ascii) : N := (N_of_ascii c - 48)%N.

Fixpoint skip_ws (s : string) : string :=
  match s with
  | String c r => if is_ws c then skip_ws r else s
  | EmptyString => s
  end.

(** Reads a maximal run of decimal digits on top of the accumulator
    [acc]: the number read, how many digits, and the rest. *)
Fixpoint read_digits (s : string) (acc : N) (cnt : nat) : N * nat * string :=
  match s with
  | String c r =>
      if is_digit c then read_digits r (acc * 10 + digit_val c)%N (S cnt)
      else (acc, cnt, s)
  | EmptyString => (acc, cnt, s)
  end.

Definition read_sign (s : string) : bool * string :=
  match s with
  | String "-"%char r => (true, r)
  | String "+"%char r => (false, r)
  | _ => (false, s)
  end.

(** The optional exponent part; a malformed one is not consumed. *)
Definition read_exponent (s : string) : Z :=
  match s with
  | String c r =>
      if (Ascii.eqb c "e" || Ascii.eqb c "E")%char then
        let '(neg, r') := read_sign r in
        let '(e, cnt, _) := read_digits r' 0%N 0%nat in
        match cnt with
        | O => 0
        | _ => if neg then - Z.of_N e else Z.of_N e
        end
      else 0
  | EmptyString => 0
  end.

(** [m * 10^e], correctly rounded. *)
Definition decimal_to_float (neg : bool) (m : N) (e : Z) : float :=
  match m with
  | N0 => if neg then PrimFloat.neg_zero else PrimFloat.zero
  | Npos p =>
      if (0 <=? e)%Z then
        SF2Prim (binary_normalize prec emax
                   (cond_Zopp neg (Zpos p * 10 ^ e)) 0 false)
      else
        SF2Prim (SFdiv prec emax (S754_finite neg p 0)
                   (S754_finite false (Z.to_pos (10 ^ (- e))) 0))
  end.

Definition parseFloat (s : string) : float :=
  let '(neg, s1) := read_sign (skip_ws s) in
  if String.prefix "Infinity" s1 then
    (if neg then PrimFloat.neg_infinity else PrimFloat.infinity)
  else
    let '(ip, icnt, s2) := read_digits s1 0%N 0%nat in
    let '(m, fcnt, s3) :=
      match s2 with
      | String "."%char r => read_digits r ip 0%nat
      | _ => (ip, 0%nat, s2)
      end in
    match icnt, fcnt with
    | O, O => PrimFloat.nan
    | _, _ => decimal_to_float neg m (read_exponent s3 - Z.of_nat fcnt)
    end.

(** [parseFloat(String(x))] for a number [x]: number printing round-trips,
    except that [-0] prints as ["0"]. *)
Definition parseFloat_num (x : float) : float :=
  if PrimFloat.is_zero x then PrimFloat.zero else x.

(** [parseFloat(v)] for a runtime value: [String(undefined)], ["true"] and
    ["false"] have no numeric prefix. *)
Definition parseFloat_val (v : value) : float :=
  match v with
  | VNum x => parseFloat_num x
  | _ => PrimFloat.nan
  end.

End JS.

(** ** [runtime/opensbp/transformation.js] *)

Module Transformation.
Import JS.

(** A point object; a coordinate the object does not carry is [None]. *)
Record point := Point { X : option float; Y : option float; Z : option float }.

(** Truthiness of [PtNew.X]: an absent coordinate, [0], [-0] and [NaN] are
    all falsy. *)
Definition coord_truthy (c : option float) : bool :=
  match c with
  | Some x => truthy_num x
  | None => false
  end.

(** [s !== k] for numbers. *)
Definition num_strict_neq (s k : float) : bool := negb (PrimFloat.eqb s k).

Definition scale_coord (c : option float) (s origin : float) : option float :=
  if num_strict_neq s 1 && coord_truthy c
  then option_map (fun x => (s * x) + (origin * (1 - s)))%float c
  else c.

Definition scale (PtNew : point) (scaleX scaleY scalePtX scalePtY : float) : point :=
  {| X := scale_coord (X PtNew) scaleX scalePtX;
     Y := scale_coord (Y PtNew) scaleY scalePtY;
     Z := Z PtNew |}.

Definition translate_coord (c : option float) (d : float) : option float :=
  if num_strict_neq d 0 && coord_truthy c
  then option_map (fun x => x + d)%float c
  else c.

Definition translate (PtNew : point) (MDistX MDistY MDistZ : float) : point :=
  {| X := translate_coord (X PtNew) MDistX;
     Y := translate_coord (Y PtNew) MDistY;
     Z := translate_coord (Z PtNew) MDistZ |}.

End Transformation.

(** ** [runtime/opensbp.js]: data *)

Module Sbp.
Import JS.

(** Expression trees as the parser hands them over: a leaf is a number or a
    piece of text (["%(1)"], ["&a"], a raw token), a node carries [op],
    [left] and [right]. *)
Inductive expr :=
| ENum (x : float)
| EStr (s : string)
| EBin (op : string) (left right : expr).

(** Parsed statements, by their [type] field.  [SOther] is an object whose
    [type] is missing or is none of the known ones. *)
Inductive stmt :=
| SCmd (cmd : string) (args : list (option expr))
| SAssign (var : string) (e : expr)
| SCond (cmp : expr) (then_stmt : stmt)
| SGoto (label : string)
| SGosub (label : string)
| SReturn
| SEnd
| SLabel (value : string)
| SComment
| SPause (e : option expr)
| SOther (type : option string).

(** What [this.pc] can hold.  [_execute] stores into it a number, the
    array [[n]] popped from the stack, [undefined] popped from an empty
    stack, or what a look-up of the label table yields for a name the
    table inherits from [Object.prototype]; [pc += 1] turns those into a
    string or [NaN].  [PInherited] stands for such an inherited function
    or object, for the text [+= 1] makes of it and for an array that holds
    such a text: each compares as [NaN], is the index of nothing, and
    stays in this class under [+= 1]. *)
Inductive pcval :=
| PNum (n : Z)
| PArr1 (n : Z)
| PStr (s : string)
| PUndef
| PNaN
| PInherited.

(** [String(n)] for an integer. *)
Definition string_of_Z (n : Z) : string :=
  NilZero.string_of_int (Z.to_int n).

(** [this.pc += 1]: numeric addition on a number, string concatenation on
    an array or a string, [NaN] on [undefined]. *)
Definition pc_add1 (p : pcval) : pcval :=
  match p with
  | PNum n => PNum (n + 1)
  | PArr1 n => PStr (string_of_Z n ++ "1")
  | PStr s => PStr (s ++ "1")
  | PUndef => PNaN
  | PNaN => PNaN
  | PInherited => PInherited
  end.

(** One emitted line of G-code, kept as the pieces the source concatenates:
    literal text and values converted by [+]. *)
Inductive piece :=
| Lit (s : string)
| Val (v : value).

Definition gcode := list piece.

(** The [sbp_settings] singleton: the fields this runtime reads or
    writes. *)
Record sbp_settings := {
  movexy_speed : value;
  movez_speed : value;
  movea_speed : value;
  moveb_speed : value;
  movec_speed : value;
  cutterDia : value;
  pocketOverlap : value;
  safeZpullUp : value;
  safeApullUp : value;
  plungeDir : value;
  jogxy_speed : value;
  jogz_speed : value;
  joga_speed : value;
  jogb_speed : value;
  jogc_speed : value
}.

(** The part of [machine.status] that system variables read: numbers as
    the driver reports them, [undefined] before the first report. *)
Record machine_status := {
  posx : value; posy : value; posz : value;
  posa : value; posb : value; posc : value
}.

Record cmd_position := {
  cmd_posx : value; cmd_posy : value; cmd_posz : value;
  cmd_posa : value; cmd_posb : value; cmd_posc : value
}.

(** An [SBPRuntime] instance together with the singletons it reaches.
    [user_vars] and [label_index] are the own properties of the two objects
    used as maps; the names [Object.prototype] defines are not keys here. *)
Record runtime := {
  program : list (option stmt);
  pc : pcval;
  start_of_the_chunk : Z;
  user_vars : gmap string value;
  label_index : gmap string Z;
  stack : list pcval;            (* top of the stack first *)
  current_chunk : list gcode;    (* oldest line first *)
  cmd_pos : cmd_position;
  sysvar_evaluated : bool;
  status : machine_status;
  settings : sbp_settings
}.

Definition set_pc (p : pcval) (r : runtime) : runtime :=
  {| program := program r; pc := p;
     start_of_the_chunk := start_of_the_chunk r; user_vars := user_vars r;
     label_index := label_index r; stack := stack r;
     current_chunk := current_chunk r; cmd_pos := cmd_pos r;
     sysvar_evaluated := sysvar_evaluated r; status := status r;
     settings := settings r |}.

Definition set_user_vars (u : gmap string value) (r : runtime) : runtime :=
  {| program := program r; pc := pc r;
     start_of_the_chunk := start_of_the_chunk r; user_vars := u;
     label_index := label_index r; stack := stack r;
     current_chunk := current_chunk r; cmd_pos := cmd_pos r;
     sysvar_evaluated := sysvar_evaluated r; status := status r;
     settings := settings r |}.

Definition set_label_index (l : gmap string Z) (r : runtime) : runtime :=
  {| program := program r; pc := pc r;
     start_of_the_chunk := start_of_the_chunk r; user_vars := user_vars r;
     label_index := l; stack := stack r;
     current_chunk := current_chunk r; cmd_pos := cmd_pos r;
     sysvar_evaluated := sysvar_evaluated r; status := status r;
     settings := settings r |}.

Definition set_stack (s : list pcval) (r : runtime) : runtime :=
  {| program := program r; pc := pc r;
     start_of_the_chunk := start_of_the_chunk r; user_vars := user_vars r;
     label_index := label_index r; stack := s;
     current_chunk := current_chunk r; cmd_pos := cmd_pos r;
     sysvar_evaluated := sysvar_evaluated r; status := status r;
     settings := settings r |}.

Definition set_current_chunk (c : list gcode) (r : runtime) : runtime :=
  {| program := program r; pc := pc r;
     start_of_the_chunk := start_of_the_chunk r; user_vars := user_vars r;
     label_index := label_index r; stack := stack r;
     current_chunk := c; cmd_pos := cmd_pos r;
     sysvar_evaluated := sysvar_evaluated r; status := status r;
     settings := settings r |}.

Definition set_cmd_pos (c : cmd_position) (r : runtime) : runtime :=
  {| program := program r; pc := pc r;
     start_of_the_chunk := start_of_the_chunk r; user_vars := user_vars r;
     label_index := label_index r; stack := stack r;
     current_chunk := current_chunk r; cmd_pos := c;
     sysvar_evaluated := sysvar_evaluated r; status := status r;
     settings := settings r |}.

Definition set_sysvar_evaluated (b : bool) (r : runtime) : runtime :=
  {| program := program r; pc := pc r;
     start_of_the_chunk := start_of_the_chunk r; user_vars := user_vars r;
     label_index := label_index r; stack := stack r;
     current_chunk := current_chunk r; cmd_pos := cmd_pos r;
     sysvar_evaluated := b; status := status r;
     settings := settings r |}.

Definition set_settings (s : sbp_settings) (r : runtime) : runtime :=
  {| program := program r; pc := pc r;
     start_of_the_chunk := start_of_the_chunk r; user_vars := user_vars r;
     label_index := label_index r; stack := stack r;
     current_chunk := current_chunk r; cmd_pos := cmd_pos r;
     sysvar_evaluated := sysvar_evaluated r; status := status r;
     settings := s |}.

(** What the source throws, and the one [TypeError] its handlers run
    into; the fields are the values spliced into the message. *)
Inductive error :=
| UnhandledOperation (op : string)             (* "Unhandled operation: " + op *)
| ReturnWithNoGosub (at_pc : pcval)            (* "Runtime Error: Return with no GOSUB at " + pc *)
| UnknownLabel (label : string) (at_pc : pcval) (* "Runtime Error: Unknown Label '" + label + "' at line " + pc *)
| DuplicateLabel                               (* "Duplicate label." *)
| UndefinedLabel (label : string) (line : Z)   (* "Undefined label " + label + " on line " + (i+1) *)
| NotAFunction (what : string).                (* the TypeError of a call to something undefined *)

(** A call either returns with the runtime it leaves behind, throws with
    the runtime as mutated so far, or enters code outside this embedding
    (driver round trips, toolpath geometry). *)
Inductive outcome (A : Type) :=
| Ok (a : A) (r : runtime)
| Throw (e : error) (r : runtime)
| Beyond (what : string).
Arguments Ok {A} a r.
Arguments Throw {A} e r.
Arguments Beyond {A} what.

Definition M (A : Type) : Type := runtime -> outcome A.

Definition ret {A} (a : A) : M A := fun r => Ok a r.

Definition bind {A B} (m : M A) (k : A -> M B) : M B :=
  fun r =>
    match m r with
    | Ok a r' => k a r'
    | Throw e r' => Throw e r'
    | Beyond w => Beyond w
    end.

Definition throw {A} (e : error) : M A := fun r => Throw e r.
Definition get : M runtime := fun r => Ok r r.
Definition modify (f : runtime -> runtime) : M unit := fun r => Ok tt (f r).

Notation "x <- m ;; k" := (bind m (fun x => k))
  (at level 100, m at next level, right associativity).
Notation "m ;;; k" := (bind m (fun _ => k))
  (at level 100, right associativity).

(** ** [runtime/opensbp.js]: the expression evaluator *)

(** [SYSVAR_RE = /\%\(([0-9]+)\)/i], tried at the head of [s]: the digits
    between ["%("] and [")"], read by [parseInt]. *)
Definition sysvar_at (s : string) : option N :=
  match s with
  | String "%"%char (String "("%char r) =>
      let '(n, cnt, r') := read_digits r 0%N 0%nat in
      match cnt, r' with
      | S _, String ")"%char _ => Some n
      | _, _ => None
      end
  | _ => None
  end.

(** [v.match(SYSVAR_RE)]: the leftmost match anywhere in [v]. *)
Fixpoint match_SYSVAR_RE (v : string) : option N :=
  match sysvar_at v with
  | Some n => Some n
  | None =>
      match v with
      | String _ r => match_SYSVAR_RE r
      | EmptyString => None
      end
  end.

Definition is_name_start (c : ascii) : bool :=
  let n := N_of_ascii c in
  (((65 <=? n) && (n <=? 90)) || ((97 <=? n) && (n <=? 122)) || (n =? 95))%N.

(** [v.match(USERVAR_RE)]: is there a match.  The pattern is an ampersand,
    one or more of [a-zA-Z_], then any number of [A-Za-z0-9_]; it matches
    as soon as an ampersand is followed by a letter or an underscore. *)
Fixpoint match_USERVAR_RE (v : string) : bool :=
  match v with
  | String c r =>
      (Ascii.eqb c "&" &&
         match r with String d _ => is_name_start d | EmptyString => false end)
      || match_USERVAR_RE r
  | EmptyString => false
  end.

(** The three kinds of answer of the two variable look-ups. *)
Inductive lookup :=
| Undefined
| Null
| Found (v : value).

Definition evaluateSystemVariable (r : runtime) (v : string) : lookup :=
  match match_SYSVAR_RE v with
  | None => Undefined
  | Some n =>
      match n with
      | 1%N => Found (posx (status r))
      | 2%N => Found (posy (status r))
      | 3%N => Found (posz (status r))
      | 4%N => Found (posa (status r))
      | 5%N => Found (posb (status r))
      | 71%N => Found (movexy_speed (settings r))
      | 72%N => Found (movexy_speed (settings r))
      | 73%N => Found (movez_speed (settings r))
      | 74%N => Found (movea_speed (settings r))
      | 75%N => Found (moveb_speed (settings r))
      | 76%N => Found (movec_speed (settings r))
      | 144%N => Found (posc (status r))
      | _ => Null
      end
  end.

Definition evaluateUserVariable (r : runtime) (v : string) : lookup :=
  if match_USERVAR_RE v then
    match user_vars r !! v with
    | Some u => Found u
    | None => Null
    end
  else Undefined.

(** [_eval_value]: the two branches commented [ERROR ...] in the source are
    empty, so the function falls off its end there and yields
    [undefined]. *)
Definition _eval_value (e : string) : M value :=
  fun r =>
    match evaluateSystemVariable r e with
    | Undefined | Found VUndef =>
        match evaluateUserVariable r e with
        | Undefined | Found VUndef => Ok (VNum (parseFloat e)) r
        | Null => Ok VUndef r
        | Found user_var => Ok (VNum (parseFloat_val user_var)) r
        end
    | Null => Ok VUndef r
    | Found sys_var =>
        Ok (VNum (parseFloat_val sys_var)) (set_sysvar_evaluated true r)
    end.

(** The operators of the [switch] in [_eval]. *)
Definition binop (op : string) : option (value -> value -> value) :=
  if String.eqb op "+" then Some js_add
  else if String.eqb op "-" then Some js_sub
  else if String.eqb op "*" then Some js_mul
  else if String.eqb op "/" then Some js_div
  else if String.eqb op ">" then Some js_gt
  else if String.eqb op "<" then Some js_lt
  else if String.eqb op ">=" then Some js_ge
  else if String.eqb op "<=" then Some js_le
  else if String.eqb op "==" then Some js_eq
  else if String.eqb op "=" then Some js_eq
  else if String.eqb op "!=" then Some js_neq
  else None.

(** [_eval] on a defined expression.  A numeric leaf [x] goes through
    [_eval_value(String(x))]: its text matches neither pattern, so the
    result is [parseFloat(String(x))]. *)
Fixpoint _eval (e : expr) : M value :=
  match e with
  | ENum x => ret (VNum (parseFloat_num x))
  | EStr s => _eval_value s
  | EBin op lhs rhs =>
      match binop op with
      | Some f =>
          a <- _eval lhs ;;
          b <- _eval rhs ;;
          ret (f a b)
      | None => throw (UnhandledOperation op)
      end
  end.

(** [_eval] on a possibly [undefined] expression. *)
Definition _eval_opt (e : option expr) : M value :=
  match e with
  | None => ret VUndef
  | Some e => _eval e
  end.

(** Truthiness of an expression object, a number or a piece of text. *)
Definition truthy_expr (e : expr) : bool :=
  match e with
  | ENum x => truthy_num x
  | EStr s => negb (String.eqb s "")
  | EBin _ _ _ => true
  end.

(** ** The stack-break classifier *)

(** [f.length] for every function reachable as [this[name]]: the methods of
    the prototype, the bound [status_handler], and the functions inherited
    from [Object.prototype]. *)
Definition method_table : list (string * nat) :=
  [ ("connect", 1); ("disconnect", 0); ("_onG2Status", 1); ("runString", 1);
    ("_update", 0); ("_evaluateArguments", 2); ("_breaksStack", 1);
    ("_exprBreaksStack", 1); ("_run", 0); ("_continue", 0); ("_end", 0);
    ("_dispatch", 1); ("_executeCommand", 2); ("_execute", 2);
    ("_eval_value", 1); ("_eval", 1); ("init", 0); ("_analyzeLabels", 0);
    ("_analyzeGOTOs", 0); ("evaluateSystemVariable", 1);
    ("evaluateUserVariable", 1); ("_unhandledCommand", 1); ("emit_gcode", 1);
    ("status_handler", 1);
    ("FP", 1); ("FE", 1); ("FN", 1); ("FG", 1); ("FC", 1); ("FS", 1);
    ("MX", 1); ("MY", 1); ("MZ", 1); ("MA", 1); ("MB", 1); ("MC", 1);
    ("M2", 1); ("M3", 1); ("M4", 1); ("M5", 1); ("M6", 1); ("MH", 1);
    ("MS", 1); ("MI", 1); ("MO", 1);
    ("JX", 1); ("JY", 1); ("JZ", 1); ("JA", 1); ("JB", 1); ("JC", 1);
    ("J2", 1); ("J3", 1); ("J4", 1); ("J5", 1); ("J6", 1); ("JH", 1);
    ("JS", 1); ("CG", 1); ("CR", 1);
    ("ZX", 2); ("ZY", 2); ("ZZ", 2); ("ZA", 2); ("ZB", 2); ("ZC", 2);
    ("Z2", 2); ("Z3", 1); ("Z4", 1); ("Z5", 1); ("Z6", 1); ("ZT", 1);
    ("SA", 1); ("SR", 1); ("SM", 1); ("SP", 1); ("ST", 1);
    ("C6", 1); ("C7", 1);
    ("VA", 2); ("VC", 1); ("VD", 1); ("VL", 1); ("VN", 1); ("VP", 1);
    ("VR", 1); ("VS", 1); ("VU", 2); ("EP", 1);
    ("constructor", 0); ("hasOwnProperty", 1); ("isPrototypeOf", 1);
    ("propertyIsEnumerable", 1); ("toString", 0); ("toLocaleString", 0);
    ("valueOf", 0); ("__defineGetter__", 2); ("__defineSetter__", 2);
    ("__lookupGetter__", 1); ("__lookupSetter__", 1) ]%nat.

Fixpoint assoc {A} (k : string) (l : list (string * A)) : option A :=
  match l with
  | [] => None
  | (k', a) :: l' => if String.eqb k k' then Some a else assoc k l'
  end.

Definition method_length (name : string) : option nat := assoc name method_table.

Definition _breaksStack (cmd : stmt) : bool :=
  match cmd with
  | SCmd name _ =>
      match method_length name with
      | Some n => if (1 <? n)%nat then true else false
      | None => false
      end
  | SPause _ => false
  | SCond _ _ => false
  | SAssign _ _ => false
  | _ => false
  end.

(** [expr[0] == '%'] on a leaf: the first character of a text, nothing on a
    number. *)
Fixpoint _exprBreaksStack (e : expr) : bool :=
  match e with
  | ENum _ => false
  | EStr (String c _) => Ascii.eqb c "%"
  | EStr EmptyString => false
  | EBin _ lhs rhs => _exprBreaksStack lhs || _exprBreaksStack rhs
  end.

(** ** The program analyzer *)

(** The label table is a plain object, and [name in this.label_index]
    holds for its own keys and for the names every object inherits from
    [Object.prototype]. *)
Definition inherited_names : list string :=
  [ "constructor"; "hasOwnProperty"; "isPrototypeOf"; "propertyIsEnumerable";
    "toString"; "toLocaleString"; "valueOf"; "__defineGetter__";
    "__defineSetter__"; "__lookupGetter__"; "__lookupSetter__"; "__proto__" ].

Definition inherited (name : string) : bool :=
  existsb (String.eqb name) inherited_names.

(** The loop of [_analyzeLabels] from line [i] on.  A label already in the
    table, as an own key or as an inherited name, throws; the table keeps
    what was entered before. *)
Fixpoint analyzeLabels_loop (i : Z) (lines : list (option stmt)) : M unit :=
  match lines with
  | [] => ret tt
  | Some (SLabel value) :: rest =>
      r <- get ;;
      match label_index r !! value with
      | Some _ => throw DuplicateLabel
      | None =>
          if inherited value then throw DuplicateLabel
          else
            modify (set_label_index (<[value := i]> (label_index r))) ;;;
            analyzeLabels_loop (i + 1) rest
      end
  | _ :: rest => analyzeLabels_loop (i + 1) rest
  end.

Definition _analyzeLabels : M unit :=
  modify (set_label_index ∅) ;;;
  r <- get ;;
  analyzeLabels_loop 0 (program r).

(** [line.label] as a property key of the label table: a statement that
    has no [label] field gives [undefined], which [in] turns into the key
    ["undefined"]. *)
Definition label_key (line : stmt) : string :=
  match line with
  | SGoto label => label
  | SGosub label => label
  | _ => "undefined"
  end.

Definition check_label (i : Z) (line : stmt) : M unit :=
  r <- get ;;
  match label_index r !! label_key line with
  | Some _ => ret tt
  | None =>
      if inherited (label_key line) then ret tt
      else throw (UndefinedLabel (label_key line) (i + 1))
  end.

(** One round of the [switch] in [_analyzeGOTOs]: the [cond] case replaces
    [line] by [line.stmt] and falls through into the [goto]/[gosub] case. *)
Definition analyzeGOTOs_line (i : Z) (line : stmt) : M unit :=
  match line with
  | SCond _ then_stmt => check_label i then_stmt
  | SGoto _ => check_label i line
  | SGosub _ => check_label i line
  | _ => ret tt
  end.

Fixpoint analyzeGOTOs_loop (i : Z) (lines : list (option stmt)) : M unit :=
  match lines with
  | [] => ret tt
  | Some line :: rest =>
      analyzeGOTOs_line i line ;;; analyzeGOTOs_loop (i + 1) rest
  | None :: rest => analyzeGOTOs_loop (i + 1) rest
  end.

Definition _analyzeGOTOs : M unit :=
  r <- get ;;
  analyzeGOTOs_loop 0 (program r).

(** The two analysis calls of [runString], in order. *)
Definition analyze : M unit := _analyzeLabels ;;; _analyzeGOTOs.

(** ** Command handlers *)

(** [args[i]] *)
Definition arg (args : list value) (i : nat) : value := nth i args VUndef.

Definition emit_gcode (s : gcode) : M unit :=
  modify (fun r => set_current_chunk (current_chunk r ++ [s]) r).

Definition set_cmd_posx (v : value) : M unit :=
  modify (fun r => let c := cmd_pos r in
    set_cmd_pos {| cmd_posx := v; cmd_posy := cmd_posy c; cmd_posz := cmd_posz c;
                   cmd_posa := cmd_posa c; cmd_posb := cmd_posb c; cmd_posc := cmd_posc c |} r).
Definition set_cmd_posy (v : value) : M unit :=
  modify (fun r => let c := cmd_pos r in
    set_cmd_pos {| cmd_posx := cmd_posx c; cmd_posy := v; cmd_posz := cmd_posz c;
                   cmd_posa := cmd_posa c; cmd_posb := cmd_posb c; cmd_posc := cmd_posc c |} r).
Definition set_cmd_posz (v : value) : M unit :=
  modify (fun r => let c := cmd_pos r in
    set_cmd_pos {| cmd_posx := cmd_posx c; cmd_posy := cmd_posy c; cmd_posz := v;
                   cmd_posa := cmd_posa c; cmd_posb := cmd_posb c; cmd_posc := cmd_posc c |} r).
Definition set_cmd_posa (v : value) : M unit :=
  modify (fun r => let c := cmd_pos r in
    set_cmd_pos {| cmd_posx := cmd_posx c; cmd_posy := cmd_posy c; cmd_posz := cmd_posz c;
                   cmd_posa := v; cmd_posb := cmd_posb c; cmd_posc := cmd_posc c |} r).
Definition set_cmd_posb (v : value) : M unit :=
  modify (fun r => let c := cmd_pos r in
    set_cmd_pos {| cmd_posx := cmd_posx c; cmd_posy := cmd_posy c; cmd_posz := cmd_posz c;
                   cmd_posa := cmd_posa c; cmd_posb := v; cmd_posc := cmd_posc c |} r).
Definition set_cmd_posc (v : value) : M unit :=
  modify (fun r => let c := cmd_pos r in
    set_cmd_pos {| cmd_posx := cmd_posx c; cmd_posy := cmd_posy c; cmd_posz := cmd_posz c;
                   cmd_posa := cmd_posa c; cmd_posb := cmd_posb c; cmd_posc := v |} r).

(** [60.0*speed] *)
Definition times60 (speed : value) : value := js_mul (VNum 60) speed.

Definition MX (args : list value) : M unit :=
  r <- get ;;
  emit_gcode [Lit "G1 X"; Val (arg args 0); Lit " F"; Val (times60 (movexy_speed (settings r)))] ;;;
  set_cmd_posx (arg args 0).

Definition MY (args : list value) : M unit :=
  r <- get ;;
  emit_gcode [Lit "G1Y"; Val (arg args 0); Lit " F"; Val (times60 (movexy_speed (settings r)))] ;;;
  set_cmd_posy (arg args 0).

Definition MZ (args : list value) : M unit :=
  r <- get ;;
  emit_gcode [Lit "G1Z"; Val (arg args 0); Lit " F"; Val (times60 (movez_speed (settings r)))] ;;;
  set_cmd_posz (arg args 0).

Definition MA (args : list value) : M unit :=
  r <- get ;;
  emit_gcode [Lit "G1A"; Val (arg args 0); Lit " F"; Val (times60 (movea_speed (settings r)))] ;;;
  set_cmd_posa (arg args 0).

Definition MB (args : list value) : M unit :=
  r <- get ;;
  emit_gcode [Lit "G1B"; Val (arg args 0); Lit " F"; Val (times60 (moveb_speed (settings r)))] ;;;
  set_cmd_posb (arg args 0).

Definition MC (args : list value) : M unit :=
  r <- get ;;
  emit_gcode [Lit "G1C"; Val (arg args 0); Lit " F"; Val (times60 (movec_speed (settings r)))] ;;;
  set_cmd_posc (arg args 0).

(** The repeated block of the modal handlers:
    [if (args[i] !== undefined) { outStr = outStr + L + args[i]; this.cmd_posL = args[i]; }] *)
Definition axis_word (L : string) (i : nat) (set_pos : value -> M unit)
    (args : list value) (outStr : gcode) : M gcode :=
  if is_defined (arg args i)
  then set_pos (arg args i) ;;; ret (outStr ++ [Lit L; Val (arg args i)])
  else ret outStr.

Definition M2 (args : list value) : M unit :=
  outStr <- axis_word "X" 0 set_cmd_posx args [Lit "G1"] ;;
  outStr <- axis_word "Y" 1 set_cmd_posy args outStr ;;
  r <- get ;;
  emit_gcode (outStr ++ [Lit "F"; Val (times60 (movexy_speed (settings r)))]).

Definition M3 (args : list value) : M unit :=
  outStr <- axis_word "X" 0 set_cmd_posx args [Lit "G1"] ;;
  outStr <- axis_word "Y" 1 set_cmd_posy args outStr ;;
  outStr <- axis_word "Z" 2 set_cmd_posz args outStr ;;
  r <- get ;;
  emit_gcode (outStr ++ [Lit "F"; Val (times60 (movexy_speed (settings r)))]).

Definition M4 (args : list value) : M unit :=
  outStr <- axis_word "X" 0 set_cmd_posx args [Lit "G1"] ;;
  outStr <- axis_word "Y" 1 set_cmd_posy args outStr ;;
  outStr <- axis_word "Z" 2 set_cmd_posz args outStr ;;
  outStr <- axis_word "A" 3 set_cmd_posa args outStr ;;
  r <- get ;;
  emit_gcode (outStr ++ [Lit "F"; Val (times60 (movexy_speed (settings r)))]).

Definition M5 (args : list value) : M unit :=
  outStr <- axis_word "X" 0 set_cmd_posx args [Lit "G1"] ;;
  outStr <- axis_word "Y" 1 set_cmd_posy args outStr ;;
  outStr <- axis_word "Z" 2 set_cmd_posz args outStr ;;
  outStr <- axis_word "A" 3 set_cmd_posa args outStr ;;
  outStr <- axis_word "B" 4 set_cmd_posb args outStr ;;
  r <- get ;;
  emit_gcode (outStr ++ [Lit "F"; Val (times60 (movexy_speed (settings r)))]).

(** [M6] appends ["F" + sbp_settings.movexy_speed]: the speed as it is. *)
Definition M6 (args : list value) : M unit :=
  outStr <- axis_word "X" 0 set_cmd_posx args [Lit "G1"] ;;
  outStr <- axis_word "Y" 1 set_cmd_posy args outStr ;;
  outStr <- axis_word "Z" 2 set_cmd_posz args outStr ;;
  outStr <- axis_word "A" 3 set_cmd_posa args outStr ;;
  outStr <- axis_word "B" 4 set_cmd_posb args outStr ;;
  outStr <- axis_word "C" 5 set_cmd_posc args outStr ;;
  r <- get ;;
  emit_gcode (outStr ++ [Lit "F"; Val (movexy_speed (settings r))]).

(** [MH] emits ["G1X0Y0" + " F" + sbp_settings.movexy_speed]. *)
Definition MH (args : list value) : M unit :=
  r <- get ;;
  emit_gcode [Lit "G1X0Y0"; Lit " F"; Val (movexy_speed (settings r))] ;;;
  set_cmd_posx (VNum 0) ;;;
  set_cmd_posy (VNum 0).

(** [if (args[i] !== undefined) field = args[i]] *)
Definition assign_if_defined (a : value) (old : value) : value :=
  if is_defined a then a else old.

Definition MS (args : list value) : M unit :=
  modify (fun r => let s := settings r in
    set_settings
      {| movexy_speed := assign_if_defined (arg args 0) (movexy_speed s);
         movez_speed := assign_if_defined (arg args 1) (movez_speed s);
         movea_speed := assign_if_defined (arg args 2) (movea_speed s);
         moveb_speed := assign_if_defined (arg args 3) (moveb_speed s);
         movec_speed := assign_if_defined (arg args 4) (movec_speed s);
         cutterDia := cutterDia s; pocketOverlap := pocketOverlap s;
         safeZpullUp := safeZpullUp s; safeApullUp := safeApullUp s;
         plungeDir := plungeDir s;
         jogxy_speed := jogxy_speed s; jogz_speed := jogz_speed s;
         joga_speed := joga_speed s; jogb_speed := jogb_speed s;
         jogc_speed := jogc_speed s |} r).

Definition VC (args : list value) : M unit :=
  modify (fun r => let s := settings r in
    set_settings
      {| movexy_speed := movexy_speed s; movez_speed := movez_speed s;
         movea_speed := movea_speed s; moveb_speed := moveb_speed s;
         movec_speed := movec_speed s;
         cutterDia := assign_if_defined (arg args 0) (cutterDia s);
         pocketOverlap := assign_if_defined (arg args 5) (pocketOverlap s);
         safeZpullUp := assign_if_defined (arg args 3) (safeZpullUp s);
         safeApullUp := assign_if_defined (arg args 6) (safeApullUp s);
         plungeDir := assign_if_defined (arg args 4) (plungeDir s);
         jogxy_speed := jogxy_speed s; jogz_speed := jogz_speed s;
         joga_speed := joga_speed s; jogb_speed := jogb_speed s;
         jogc_speed := jogc_speed s |} r).

(** *** [CG], up to the pocket set-up

    The handler opens with three assignments to [sbp_settings], reads its
    arguments, and for option 2 computes [stepOver]. *)
Definition CG_entry_settings : M unit :=
  modify (fun r => let s := settings r in
    set_settings
      {| movexy_speed := movexy_speed s; movez_speed := movez_speed s;
         movea_speed := movea_speed s; moveb_speed := moveb_speed s;
         movec_speed := movec_speed s;
         cutterDia := VNum 0.25;
         pocketOverlap := VNum 10;
         safeZpullUp := VNum 0.25;
         safeApullUp := safeApullUp s;
         plungeDir := plungeDir s;
         jogxy_speed := jogxy_speed s; jogz_speed := jogz_speed s;
         joga_speed := joga_speed s; jogb_speed := jogb_speed s;
         jogc_speed := jogc_speed s |} r).

(** [var optCG = args[11] !== undefined ? args[11] : 0] *)
Definition CG_optCG (args : list value) : value :=
  if is_defined (arg args 11) then arg args 11 else VNum 0.

(** The value [CG] assigns to [stepOver], when it does ([optCG == 2]). *)
Definition CG_stepOver (args : list value) : M (option value) :=
  CG_entry_settings ;;;
  r <- get ;;
  if loose_eq (CG_optCG args) (VNum 2)
  then ret (Some (js_mul (cutterDia (settings r))
                    (js_div (js_sub (VNum 100) (pocketOverlap (settings r))) (VNum 100))))
  else ret None.

(** [CG] as a handler: the set-up above, then the toolpath synthesis, which
    is outside this embedding. *)
Definition CG (args : list value) : M unit :=
  CG_stepOver args ;;; (fun _ => Beyond "CG").

(** *** The jog family *)

Definition JX (args : list value) : M unit :=
  emit_gcode [Lit "G0X"; Val (arg args 0)] ;;;
  set_cmd_posx (arg args 0).

Definition JY (args : list value) : M unit :=
  emit_gcode [Lit "G0Y"; Val (arg args 0)] ;;;
  set_cmd_posy (arg args 0).

Definition JZ (args : list value) : M unit :=
  emit_gcode [Lit "G0Z"; Val (arg args 0)] ;;;
  set_cmd_posz (arg args 0).

Definition JA (args : list value) : M unit :=
  emit_gcode [Lit "G0A"; Val (arg args 0)] ;;;
  set_cmd_posa (arg args 0).

Definition JB (args : list value) : M unit :=
  emit_gcode [Lit "G0B"; Val (arg args 0)] ;;;
  set_cmd_posb (arg args 0).

Definition JC (args : list value) : M unit :=
  emit_gcode [Lit "G0C"; Val (arg args 0)] ;;;
  set_cmd_posc (arg args 0).

Definition J2 (args : list value) : M unit :=
  outStr <- axis_word "X" 0 set_cmd_posx args [Lit "G0"] ;;
  outStr <- axis_word "Y" 1 set_cmd_posy args outStr ;;
  emit_gcode outStr.

Definition J3 (args : list value) : M unit :=
  outStr <- axis_word "X" 0 set_cmd_posx args [Lit "G0"] ;;
  outStr <- axis_word "Y" 1 set_cmd_posy args outStr ;;
  outStr <- axis_word "Z" 2 set_cmd_posz args outStr ;;
  emit_gcode outStr.

Definition J4 (args : list value) : M unit :=
  outStr <- axis_word "X" 0 set_cmd_posx args [Lit "G0"] ;;
  outStr <- axis_word "Y" 1 set_cmd_posy args outStr ;;
  outStr <- axis_word "Z" 2 set_cmd_posz args outStr ;;
  outStr <- axis_word "A" 3 set_cmd_posa args outStr ;;
  emit_gcode outStr.

Definition J5 (args : list value) : M unit :=
  outStr <- axis_word "X" 0 set_cmd_posx args [Lit "G0"] ;;
  outStr <- axis_word "Y" 1 set_cmd_posy args outStr ;;
  outStr <- axis_word "Z" 2 set_cmd_posz args outStr ;;
  outStr <- axis_word "A" 3 set_cmd_posa args outStr ;;
  outStr <- axis_word "B" 4 set_cmd_posb args outStr ;;
  emit_gcode outStr.

Definition J6 (args : list value) : M unit :=
  outStr <- axis_word "X" 0 set_cmd_posx args [Lit "G0"] ;;
  outStr <- axis_word "Y" 1 set_cmd_posy args outStr ;;
  outStr <- axis_word "Z" 2 set_cmd_posz args outStr ;;
  outStr <- axis_word "A" 3 set_cmd_posa args outStr ;;
  outStr <- axis_word "B" 4 set_cmd_posb args outStr ;;
  outStr <- axis_word "C" 5 set_cmd_posc args outStr ;;
  emit_gcode outStr.

(** [JH] moves the commanded position first and emits afterwards. *)
Definition JH (args : list value) : M unit :=
  set_cmd_posx (VNum 0) ;;;
  set_cmd_posy (VNum 0) ;;;
  emit_gcode [Lit "G0X0Y0"].

(** [this.command]: nothing in the runtime defines it, so the call is a
    [TypeError]. *)
Definition command : M unit := throw (NotAFunction "this.command").

Definition set_jogxy_speed (v : value) : M unit :=
  modify (fun r => let s := settings r in
    set_settings
      {| movexy_speed := movexy_speed s; movez_speed := movez_speed s;
         movea_speed := movea_speed s; moveb_speed := moveb_speed s;
         movec_speed := movec_speed s; cutterDia := cutterDia s;
         pocketOverlap := pocketOverlap s; safeZpullUp := safeZpullUp s;
         safeApullUp := safeApullUp s; plungeDir := plungeDir s;
         jogxy_speed := v; jogz_speed := jogz_speed s;
         joga_speed := joga_speed s; jogb_speed := jogb_speed s;
         jogc_speed := jogc_speed s |} r).

Definition set_jogz_speed (v : value) : M unit :=
  modify (fun r => let s := settings r in
    set_settings
      {| movexy_speed := movexy_speed s; movez_speed := movez_speed s;
         movea_speed := movea_speed s; moveb_speed := moveb_speed s;
         movec_speed := movec_speed s; cutterDia := cutterDia s;
         pocketOverlap := pocketOverlap s; safeZpullUp := safeZpullUp s;
         safeApullUp := safeApullUp s; plungeDir := plungeDir s;
         jogxy_speed := jogxy_speed s; jogz_speed := v;
         joga_speed := joga_speed s; jogb_speed := jogb_speed s;
         jogc_speed := jogc_speed s |} r).

Definition set_joga_speed (v : value) : M unit :=
  modify (fun r => let s := settings r in
    set_settings
      {| movexy_speed := movexy_speed s; movez_speed := movez_speed s;
         movea_speed := movea_speed s; moveb_speed := moveb_speed s;
         movec_speed := movec_speed s; cutterDia := cutterDia s;
         pocketOverlap := pocketOverlap s; safeZpullUp := safeZpullUp s;
         safeApullUp := safeApullUp s; plungeDir := plungeDir s;
         jogxy_speed := jogxy_speed s; jogz_speed := jogz_speed s;
         joga_speed := v; jogb_speed := jogb_speed s;
         jogc_speed := jogc_speed s |} r).

Definition set_jogb_speed (v : value) : M unit :=
  modify (fun r => let s := settings r in
    set_settings
      {| movexy_speed := movexy_speed s; movez_speed := movez_speed s;
         movea_speed := movea_speed s; moveb_speed := moveb_speed s;
         movec_speed := movec_speed s; cutterDia := cutterDia s;
         pocketOverlap := pocketOverlap s; safeZpullUp := safeZpullUp s;
         safeApullUp := safeApullUp s; plungeDir := plungeDir s;
         jogxy_speed := jogxy_speed s; jogz_speed := jogz_speed s;
         joga_speed := joga_speed s; jogb_speed := v;
         jogc_speed := jogc_speed s |} r).

Definition set_jogc_speed (v : value) : M unit :=
  modify (fun r => let s := settings r in
    set_settings
      {| movexy_speed := movexy_speed s; movez_speed := movez_speed s;
         movea_speed := movea_speed s; moveb_speed := moveb_speed s;
         movec_speed := movec_speed s; cutterDia := cutterDia s;
         pocketOverlap := pocketOverlap s; safeZpullUp := safeZpullUp s;
         safeApullUp := safeApullUp s; plungeDir := plungeDir s;
         jogxy_speed := jogxy_speed s; jogz_speed := jogz_speed s;
         joga_speed := joga_speed s; jogb_speed := jogb_speed s;
         jogc_speed := v |} r).

(** [JS] stores each jog speed that is given and calls [this.command]
    right after. *)
Definition JS (args : list value) : M unit :=
  (if is_defined (arg args 0)
   then set_jogxy_speed (arg args 0) ;;; command ;;; command
   else ret tt) ;;;
  (if is_defined (arg args 1)
   then set_jogz_speed (arg args 1) ;;; command
   else ret tt) ;;;
  (if is_defined (arg args 2)
   then set_joga_speed (arg args 2) ;;; command
   else ret tt) ;;;
  (if is_defined (arg args 3)
   then set_jogb_speed (arg args 3) ;;; command
   else ret tt) ;;;
  (if is_defined (arg args 4)
   then set_jogc_speed (arg args 4) ;;; command
   else ret tt).

(** [VS]: the five move speeds as in [MS], then the jog speeds as in
    [JS], taken from the arguments 5 to 9. *)
Definition VS (args : list value) : M unit :=
  modify (fun r => let s := settings r in
    set_settings
      {| movexy_speed := assign_if_defined (arg args 0) (movexy_speed s);
         movez_speed := assign_if_defined (arg args 1) (movez_speed s);
         movea_speed := assign_if_defined (arg args 2) (movea_speed s);
         moveb_speed := assign_if_defined (arg args 3) (moveb_speed s);
         movec_speed := assign_if_defined (arg args 4) (movec_speed s);
         cutterDia := cutterDia s; pocketOverlap := pocketOverlap s;
         safeZpullUp := safeZpullUp s; safeApullUp := safeApullUp s;
         plungeDir := plungeDir s;
         jogxy_speed := jogxy_speed s; jogz_speed := jogz_speed s;
         joga_speed := joga_speed s; jogb_speed := jogb_speed s;
         jogc_speed := jogc_speed s |} r) ;;;
  (if is_defined (arg args 5)
   then set_jogxy_speed (arg args 5) ;;; command ;;; command
   else ret tt) ;;;
  (if is_defined (arg args 6)
   then set_jogz_speed (arg args 6) ;;; command
   else ret tt) ;;;
  (if is_defined (arg args 7)
   then set_joga_speed (arg args 7) ;;; command
   else ret tt) ;;;
  (if is_defined (arg args 8)
   then set_jogb_speed (arg args 8) ;;; command
   else ret tt) ;;;
  (if is_defined (arg args 9)
   then set_jogc_speed (arg args 9) ;;; command
   else ret tt).

(** *** The one-line and the empty handlers *)

Definition EP (args : list value) : M unit :=
  emit_gcode [Lit "G38.2 Z"; Val (arg args 0)].

Definition ZT (args : list value) : M unit := emit_gcode [Lit "G54"].
Definition SA (args : list value) : M unit := emit_gcode [Lit "G90"].
Definition SR (args : list value) : M unit := emit_gcode [Lit "G91"].
Definition ST (args : list value) : M unit := emit_gcode [Lit "G54"].

Definition C6 (args : list value) : M unit :=
  emit_gcode [Lit "M4"] ;;; emit_gcode [Lit "M8"].

Definition C7 (args : list value) : M unit :=
  emit_gcode [Lit "M5"] ;;; emit_gcode [Lit "M9"].

(** A handler whose body is empty or holds comments only: [FP], [FE],
    [FN], [FG], [FC], [FS], [MI], [MO], [SM], [SP], [VD], [VL], [VN],
    [VP] and [VR]. *)
Definition no_body (args : list value) : M unit := ret tt.

(** The handlers embedded in full, by mnemonic: every handler of one
    parameter but [CG], [CR] (toolpath synthesis) and [Z3] to [Z6] (which
    read [this.posx] to [this.posc]). *)
Definition embedded_handlers : list (string * (list value -> M unit)) :=
  [ ("FP", no_body); ("FE", no_body); ("FN", no_body); ("FG", no_body);
    ("FC", no_body); ("FS", no_body);
    ("MX", MX); ("MY", MY); ("MZ", MZ); ("MA", MA); ("MB", MB); ("MC", MC);
    ("M2", M2); ("M3", M3); ("M4", M4); ("M5", M5); ("M6", M6); ("MH", MH);
    ("MS", MS); ("MI", no_body); ("MO", no_body);
    ("JX", JX); ("JY", JY); ("JZ", JZ); ("JA", JA); ("JB", JB); ("JC", JC);
    ("J2", J2); ("J3", J3); ("J4", J4); ("J5", J5); ("J6", J6); ("JH", JH);
    ("JS", JS);
    ("ZT", ZT); ("SA", SA); ("SR", SR); ("SM", no_body); ("SP", no_body);
    ("ST", ST); ("C6", C6); ("C7", C7);
    ("VC", VC); ("VD", no_body); ("VL", no_body); ("VN", no_body);
    ("VP", no_body); ("VR", no_body); ("VS", VS); ("EP", EP) ].

(** The handlers of one parameter this embedding reaches: the ones above,
    and [CG] up to its toolpath synthesis. *)
Definition handler (name : string) : option (list value -> M unit) :=
  assoc name (embedded_handlers ++ [("CG", CG)]).

(** ** The execution engine: one statement *)

Definition incr_pc : M unit := modify (fun r => set_pc (pc_add1 (pc r)) r).

Section Commands.

(** The parameter table of [sb3_commands], a module that is not part of
    this source tree: for each mnemonic the [default] of each declared
    parameter, [None] where the parameter declares none. *)
Variable sb3_commands : gmap string (list (option expr)).

(** [prm_param.default || undefined] *)
Definition default_or_undefined (d : option expr) : option expr :=
  match d with
  | Some e => if truthy_expr e then Some e else None
  | None => None
  end.

(** [(args[i] !== undefined) && (args[i] !== "")] *)
Definition is_given (a : option expr) : bool :=
  match a with
  | None => false
  | Some (EStr EmptyString) => false
  | Some _ => true
  end.

Fixpoint scrub (params : list (option expr)) (args : list (option expr))
    : list (option expr) :=
  match params with
  | [] => []
  | prm_param :: params' =>
      let user_param := match args with a :: _ => a | [] => None end in
      (if is_given user_param then user_param
       else default_or_undefined prm_param)
      :: scrub params' (tl args)
  end.

Fixpoint eval_all (scrubbed_args : list (option expr)) : M (list value) :=
  match scrubbed_args with
  | [] => ret []
  | e :: rest =>
      v <- _eval_opt e ;;
      vs <- eval_all rest ;;
      ret (v :: vs)
  end.

Definition _evaluateArguments (command : string) (args : list (option expr))
    : M (list value) :=
  eval_all
    match sb3_commands !! command with
    | Some params => scrub params args
    | None => []
    end.

(** [_executeCommand].  A handler of two parameters runs with a driver
    callback and ends in [Beyond], as does a method that [handler] does
    not list. *)
Definition _executeCommand (cmd : string) (args : list (option expr)) : M bool :=
  match method_length cmd with
  | Some n =>
      args <- _evaluateArguments cmd args ;;
      if (1 <? n)%nat then (fun _ => Beyond cmd)
      else
        match handler cmd with
        | Some f => f args ;;; incr_pc ;;; ret false
        | None => fun _ => Beyond cmd
        end
  | None => incr_pc ;;; ret false
  end.

(** [_execute] on a truthy command. *)
Fixpoint execute_stmt (command : stmt) : M bool :=
  match command with
  | SCmd cmd args => _executeCommand cmd args
  | SReturn =>
      (* [if(this.stack)]: an array is truthy whether empty or not, so the
         [throw] in the else branch is never reached; [pop] on an empty
         array gives [undefined] *)
      r <- get ;;
      match stack r with
      | top :: rest => modify (fun r => set_pc top (set_stack rest r))
      | [] => modify (set_pc PUndef)
      end ;;;
      ret false
  | SEnd =>
      modify (fun r => set_pc (PNum (Z.of_nat (length (program r)))) r) ;;;
      ret false
  | SGoto label =>
      r <- get ;;
      match label_index r !! label with
      | Some i => modify (set_pc (PNum i)) ;;; ret false
      | None =>
          (* an inherited name passes the [in] test, and the look-up
             yields the inherited function or object *)
          if inherited label then modify (set_pc PInherited) ;;; ret false
          else throw (UnknownLabel label (pc r))
      end
  | SGosub label =>
      r <- get ;;
      match label_index r !! label with
      | Some i =>
          (* [this.pc = this.label_index[command.label];]
             [this.stack.push([this.pc + 1]);] *)
          modify (set_pc (PNum i)) ;;;
          modify (fun r => set_stack (PArr1 (i + 1) :: stack r) r) ;;;
          ret false
      | None =>
          if inherited label then
            modify (set_pc PInherited) ;;;
            modify (fun r => set_stack (PInherited :: stack r) r) ;;;
            ret false
          else throw (UnknownLabel label (pc r))
      end
  | SAssign var e =>
      value <- _eval e ;;
      modify (fun r => set_user_vars (<[var := value]> (user_vars r)) r) ;;;
      incr_pc ;;;
      ret false
  | SCond cmp then_stmt =>
      c <- _eval cmp ;;
      if ToBoolean c then execute_stmt then_stmt
      else incr_pc ;;; ret false
  | SLabel _ => incr_pc ;;; ret false
  | SComment => incr_pc ;;; ret false
  | SPause e =>
      incr_pc ;;;
      match e with
      | Some e' =>
          if truthy_expr e'
          then v <- _eval e' ;; emit_gcode [Lit "G4 P"; Val v]
          else ret tt
      | None => ret tt
      end ;;;
      ret false
  | SOther _ => incr_pc ;;; ret false
  end.

(** [_execute]: a falsy command (a blank line, [undefined]) only advances
    [pc] and returns nothing. *)
Definition _execute (command : option stmt) : M (option bool) :=
  match command with
  | None => incr_pc ;;; ret None
  | Some c => b <- execute_stmt c ;; ret (Some b)
  end.

End Commands.

(** The constructor [SBPRuntime()], connected to a machine whose status
    is [st], with the settings singleton holding [s]. *)
Definition new_runtime (st : machine_status) (s : sbp_settings) : runtime :=
  {| program := []; pc := PNum 0; start_of_the_chunk := 0;
     user_vars := ∅; label_index := ∅; stack := []; current_chunk := [];
     cmd_pos := {| cmd_posx := VNum 0; cmd_posy := VNum 0; cmd_posz := VNum 0;
                   cmd_posa := VNum 0; cmd_posb := VNum 0; cmd_posc := VNum 0 |};
     sysvar_evaluated := false; status := st; settings := s |}.

Definition set_program (p : list (option stmt)) (r : runtime) : runtime :=
  {| program := p; pc := pc r;
     start_of_the_chunk := start_of_the_chunk r; user_vars := user_vars r;
     label_index := label_index r; stack := stack r;
     current_chunk := current_chunk r; cmd_pos := cmd_pos r;
     sysvar_evaluated := sysvar_evaluated r; status := status r;
     settings := settings r |}.

End Sbp.

(** ** Vocabulary of the properties *)

Module Props.
Import JS Sbp.

(** The first operator, in evaluation order, that the [switch] of [_eval]
    does not handle. *)
Fixpoint first_bad_op (e : expr) : option string :=
  match e with
  | ENum _ => None
  | EStr _ => None
  | EBin op lhs rhs =>
      match binop op with
      | None => Some op
      | Some _ =>
          match first_bad_op lhs with
          | Some o => Some o
          | None => first_bad_op rhs
          end
      end
  end.

(** Does the leaf [s], evaluated in [r], run into one of the two branches
    of [_eval_value] that the source marks [ERROR] and leaves empty: the
    reference to a system variable of unknown number, or to a user
    variable that is not defined. *)
Definition hits_error_branch (r : runtime) (s : string) : bool :=
  match evaluateSystemVariable r s with
  | Null => true
  | Found (VNum _) | Found (VBool _) => false
  | Undefined | Found VUndef =>
      match evaluateUserVariable r s with
      | Null => true
      | _ => false
      end
  end.

(** Every variable reference of the expression resolves in [r]. *)
Fixpoint references_resolve (r : runtime) (e : expr) : bool :=
  match e with
  | ENum _ => true
  | EStr s => negb (hits_error_branch r s)
  | EBin _ lhs rhs => references_resolve r lhs && references_resolve r rhs
  end.

(** The names of the [Label] statements of a program, in program order. *)
Fixpoint label_names (lines : list (option stmt)) : list string :=
  match lines with
  | [] => []
  | Some (SLabel value) :: rest => value :: label_names rest
  | _ :: rest => label_names rest
  end.

(** The look-ups [_analyzeGOTOs] makes on the lines from index [i] on, in
    order: the 1-based number of the line and the key it looks up. *)
Fixpoint label_checks (i : Z) (lines : list (option stmt)) : list (Z * string) :=
  match lines with
  | [] => []
  | Some (SCond _ then_stmt) :: rest =>
      (i + 1, label_key then_stmt) :: label_checks (i + 1) rest
  | Some (SGoto label) :: rest => (i + 1, label) :: label_checks (i + 1) rest
  | Some (SGosub label) :: rest => (i + 1, label) :: label_checks (i + 1) rest
  | _ :: rest => label_checks (i + 1) rest
  end.

(** [key in this.label_index] *)
Definition passes (r : runtime) (key : string) : bool :=
  match label_index r !! key with
  | Some _ => true
  | None => inherited key
  end.

(** The four arithmetic operators; the other handled operators compare. *)
Definition is_arith (op : string) : bool :=
  String.eqb op "+" || String.eqb op "-" || String.eqb op "*" || String.eqb op "/".

(** Does the text end in the letter [F]. *)
Fixpoint ends_in_F (s : string) : bool :=
  match s with
  | EmptyString => false
  | String c EmptyString => Ascii.eqb c "F"
  | String _ r => ends_in_F r
  end.

(** The feed word of an emitted line: the value spliced right after a
    literal that ends in [F]. *)
Fixpoint feed_word (line : gcode) : option value :=
  match line with
  | [] => None
  | Lit s :: rest =>
      match rest with
      | Val v :: _ => if ends_in_F s then Some v else feed_word rest
      | _ => feed_word rest
      end
  | Val _ :: rest => feed_word rest
  end.

(** The line a handler appends to the chunk, if it returns. *)
Definition emitted (h : M unit) (r : runtime) : option gcode :=
  match h r with
  | Ok _ r' => last (current_chunk r')
  | _ => None
  end.

(** The feed word of the line a handler emits. *)
Definition feed_of (h : M unit) (r : runtime) : option value :=
  match emitted h r with
  | Some line => feed_word line
  | None => None
  end.

(** On one axis, a translation by [d] followed by one by [-d] gives the
    coordinate back: the coordinate is absent, or [d] is zero, or the
    coordinate and its translate are both truthy and the two additions
    are exact. *)
Definition translates_back (c : option float) (d : float) : Prop :=
  c = None
  \/ PrimFloat.eqb d 0 = true
  \/ exists x, c = Some x
       /\ truthy_num x = true
       /\ truthy_num (x + d) = true
       /\ ((x + d) + (- d))%float = x.

End Props.

(** ** Sample machines and programs *)

Module Fixture.
Import JS Sbp.

Definition settings0 : sbp_settings :=
  {| movexy_speed := VNum 5; movez_speed := VNum 3; movea_speed := VNum 2;
     moveb_speed := VNum 2; movec_speed := VNum 2;
     cutterDia := VNum 0.125; pocketOverlap := VNum 50;
     safeZpullUp := VNum 1; safeApullUp := VNum 1; plungeDir := VNum 1;
     jogxy_speed := VNum 10; jogz_speed := VNum 6; joga_speed := VNum 4;
     jogb_speed := VNum 4; jogc_speed := VNum 4 |}.

Definition status0 : machine_status :=
  {| posx := VNum 7.5; posy := VNum 0; posz := VNum 0;
     posa := VNum 0; posb := VNum 0; posc := VNum 0 |}.

Definition runtime0 : runtime := new_runtime status0 settings0.

(** A parameter table in which every move takes its arguments without
    defaults. *)
Definition commands0 : gmap string (list (option expr)) :=
  list_to_map
    [ ("MX", [None]); ("MH", []);
      ("M6", [None; None; None; None; None; None]) ].

(** [GOSUB sub / END / sub: / MX,1 / RETURN] *)
Definition gosub_program : list (option stmt) :=
  [ Some (SGosub "sub"); Some SEnd; Some (SLabel "sub");
    Some (SCmd "MX" [Some (ENum 1)]); Some SReturn ].

(** The runtime loaded with that program, its label table as
    [_analyzeLabels] fills it. *)
Definition gosub_runtime : runtime :=
  set_label_index {[ "sub" := 2 ]} (set_program gosub_program runtime0).

(** [IF 2 > 1 THEN MX,1] *)
Definition cond_cmd_program : list (option stmt) :=
  [ Some (SCond (EBin ">" (ENum 2) (ENum 1)) (SCmd "MX" [Some (ENum 1)])) ].

End Fixture.

(** ** The handlers that emit one line *)

Module Jog.
Import JS Sbp.

(** The move and jog handlers, each of which emits exactly one line. *)
Definition motion_handlers : list (string * (list value -> M unit)) :=
  [ ("MX", MX); ("MY", MY); ("MZ", MZ); ("MA", MA); ("MB", MB); ("MC", MC);
    ("M2", M2); ("M3", M3); ("M4", M4); ("M5", M5); ("M6", M6); ("MH", MH);
    ("JX", JX); ("JY", JY); ("JZ", JZ); ("JA", JA); ("JB", JB); ("JC", JC);
    ("J2", J2); ("J3", J3); ("J4", J4); ("J5", J5); ("J6", J6); ("JH", JH) ].

End Jog.

(** ** Vocabulary for what a computation leaves alone *)

Module Frame.
Import JS Sbp.

(** [P] relates the runtime before to the runtime after, whichever way the
    computation finishes inside the embedding: by returning or by
    throwing. *)
Definition preserves {A : Type} (P : runtime -> runtime -> Prop) (m : M A) : Prop :=
  forall r,
    match m r with
    | Ok _ r' => P r r'
    | Throw _ r' => P r r'
    | Beyond _ => True
    end.

(** The computation started in [r] finishes in [r'], returning or
    throwing. *)
Definition finishes_in {A : Type} (m : M A) (r r' : runtime) : Prop :=
  (exists a, m r = Ok a r') \/ (exists e, m r = Throw e r').

(** Does some leaf of the expression hold a system-variable reference. *)
Fixpoint mentions_sysvar (e : expr) : bool :=
  match e with
  | ENum _ => false
  | EStr s => match match_SYSVAR_RE s with Some _ => true | None => false end
  | EBin _ lhs rhs => mentions_sysvar lhs || mentions_sysvar rhs
  end.

(** Nothing changed, or only [sysvar_evaluated] was set. *)
Definition only_flag (r r' : runtime) : Prop :=
  r' = r \/ r' = set_sysvar_evaluated true r.

(** The program, the label table, the machine status and the chunk offset
    are the same. *)
Definition keeps_tables (r r' : runtime) : Prop :=
  program r' = program r
  /\ label_index r' = label_index r
  /\ status r' = status r
  /\ start_of_the_chunk r' = start_of_the_chunk r.

(** The pending chunk was only appended to. *)
Definition chunk_grows (r r' : runtime) : Prop :=
  exists tail, current_chunk r' = current_chunk r ++ tail.

Definition same_stack (r r' : runtime) : Prop := stack r' = stack r.

(** What everything but a jump respects: the tables, the order of the
    pending lines, and the stack. *)
Definition base_step (r r' : runtime) : Prop :=
  keeps_tables r r' /\ chunk_grows r r' /\ same_stack r r'.

(** What a handler respects besides: it never touches the program counter,
    the user variables or the flag. *)
Definition handler_step (r r' : runtime) : Prop :=
  base_step r r'
  /\ pc r' = pc r
  /\ user_vars r' = user_vars r
  /\ sysvar_evaluated r' = sysvar_evaluated r.

(** Does the statement, itself or under conditionals, push or pop. *)
Fixpoint touches_stack (s : stmt) : bool :=
  match s with
  | SReturn => true
  | SGosub _ => true
  | SCond _ then_stmt => touches_stack then_stmt
  | _ => false
  end.

(** The stack is the same, or one entry taller, or one entry shorter. *)
Definition stack_step (r r' : runtime) : Prop :=
  stack r' = stack r
  \/ (exists x, stack r' = x :: stack r)
  \/ (exists x, stack r = x :: stack r').

(** What every statement respects: the tables, the order of the pending
    lines, and a stack that moves by one entry at most. *)
Definition exec_step (r r' : runtime) : Prop :=
  keeps_tables r r' /\ chunk_grows r r' /\ stack_step r r'.

(** A numeric program counter stays numeric. *)
Definition pc_stays_number (r r' : runtime) : Prop :=
  (exists n, pc r = PNum n) -> exists n', pc r' = PNum n'.

(** The commanded position of axis [i], in the order X Y Z A B C. *)
Definition axis_pos (i : nat) (c : cmd_position) : value :=
  match i with
  | 0 => cmd_posx c
  | 1 => cmd_posy c
  | 2 => cmd_posz c
  | 3 => cmd_posa c
  | 4 => cmd_posb c
  | _ => cmd_posc c
  end%nat.

Definition axis_letter (i : nat) : string :=
  match i with
  | 0 => "X" | 1 => "Y" | 2 => "Z" | 3 => "A" | 4 => "B" | _ => "C"
  end%nat.

(** The axis words of a modal line: for each of the first [k] axes whose
    argument is given, its letter and the argument. *)
Fixpoint axis_words (k : nat) (i : nat) (args : list value) : gcode :=
  match k with
  | O => []
  | S k' =>
      (if is_defined (arg args i) then [Lit (axis_letter i); Val (arg args i)] else [])
      ++ axis_words k' (S i) args
  end.

(** The modal handlers: the number of axes each reads, the word its line
    opens with, and the feed it closes with. *)
Definition modal_handlers
    : list ((list value -> M unit) * (nat * string * (sbp_settings -> gcode))) :=
  [ (M2, (2, "G1", fun s => [Lit "F"; Val (times60 (movexy_speed s))]));
    (M3, (3, "G1", fun s => [Lit "F"; Val (times60 (movexy_speed s))]));
    (M4, (4, "G1", fun s => [Lit "F"; Val (times60 (movexy_speed s))]));
    (M5, (5, "G1", fun s => [Lit "F"; Val (times60 (movexy_speed s))]));
    (M6, (6, "G1", fun s => [Lit "F"; Val (movexy_speed s)]));
    (J2, (2, "G0", fun _ => []));
    (J3, (3, "G0", fun _ => []));
    (J4, (4, "G0", fun _ => []));
    (J5, (5, "G0", fun _ => []));
    (J6, (6, "G0", fun _ => [])) ]%nat.

Definition jog_handlers : list (list value -> M unit) :=
  [ JX; JY; JZ; JA; JB; JC;
    J2; J3; J4; J5; J6; JH ].

(** The single-axis moves with the position of their speed among the
    arguments of [MS]. *)
Definition axis_moves : list ((list value -> M unit) * nat) :=
  [ (MX, 0); (MY, 0); (MZ, 1); (MA, 2); (MB, 3); (MC, 4) ]%nat.

(** The speed selectors with the position of their speed among the
    arguments of [MS]. *)
Definition speed_selectors : list (string * nat) :=
  [ ("%(71)", 0); ("%(72)", 0); ("%(73)", 1); ("%(74)", 2); ("%(75)", 3);
    ("%(76)", 4) ]%nat.

(** Does a [Return] occur in the statement, itself or under conditionals. *)
Fixpoint has_return (s : stmt) : bool :=
  match s with
  | SReturn => true
  | SCond _ then_stmt => has_return then_stmt
  | _ => false
  end.

(** Does a [Pause] occur in the statement, itself or under conditionals. *)
Fixpoint has_pause (s : stmt) : bool :=
  match s with
  | SPause _ => true
  | SCond _ then_stmt => has_pause then_stmt
  | _ => false
  end.

(** A command this embedding runs to its end: one that names no method of
    the runtime, which [_executeCommand] skips, or one whose handler is
    embedded in full.  Left out are [CG] and [CR] (toolpath synthesis),
    [Z3] to [Z6] (which read [this.posx] to [this.posc]), the handlers
    that take a driver callback ([ZX] to [Z2], [VA], [VU]), and the names
    of the runtime's other methods. *)
Definition supported_name (name : string) : bool :=
  match method_length name with
  | None => true
  | Some _ =>
      match assoc name embedded_handlers with
      | Some _ => true
      | None => false
      end
  end.

(** A statement all of whose commands, its own or under conditionals, are
    supported. *)
Fixpoint supported_stmt (s : stmt) : bool :=
  match s with
  | SCmd name _ => supported_name name
  | SCond _ then_stmt => supported_stmt then_stmt
  | _ => true
  end.

Definition supported (command : option stmt) : bool :=
  match command with
  | Some s => supported_stmt s
  | None => true
  end.

(** The embedded handlers that are neither a move nor a jog and call
    nothing but [emit_gcode]. *)
Definition plain_handlers : list (list value -> M unit) :=
  [ no_body; MS; VC; ZT; SA; SR; ST; EP; C6; C7 ].

(** The computation finishes inside the embedding from every runtime, by
    returning or by throwing. *)
Definition finishes {A : Type} (m : M A) : Prop :=
  forall r, exists r', finishes_in m r r'.

(** Does the statement, itself or under conditionals, jump to a name that
    the label table inherits. *)
Fixpoint jumps_inherited (s : stmt) : bool :=
  match s with
  | SGoto label | SGosub label => inherited label
  | SCond _ then_stmt => jumps_inherited then_stmt
  | _ => false
  end.

(** Does the statement, itself or under conditionals, hold a [JS] or a
    [VS] command, the two handlers that call [this.command]. *)
Fixpoint sets_jog_speed (s : stmt) : bool :=
  match s with
  | SCmd name _ => String.eqb name "JS" || String.eqb name "VS"
  | SCond _ then_stmt => sets_jog_speed then_stmt
  | _ => false
  end.

End Frame.

(** ** [runtime/opensbp.js]: the run loop *)

Module Engine.
Import JS Sbp Frame.

(** The argument of the last [machine.setState(this, ...)]. *)
Inductive machine_state := Idle | Running.

(** The runtime together with what the run loop reaches besides:
    [this.started], the state last set on the machine, [this.posx] to
    [this.posc] as [_update] copies them, and the segments handed to
    [driver.runSegment], oldest first. *)
Record engine := {
  rt : runtime;
  started : bool;
  state : machine_state;
  tool_pos : machine_status;
  segments : list (list gcode)
}.

Definition with_rt (r : runtime) (e : engine) : engine :=
  {| rt := r; started := started e; state := state e;
     tool_pos := tool_pos e; segments := segments e |}.

(** [status.posx || 0.0] *)
Definition or_zero (v : value) : value :=
  if ToBoolean v then v else VNum 0.

Definition _update (e : engine) : engine :=
  {| rt := rt e; started := started e; state := state e;
     tool_pos :=
       {| posx := or_zero (posx (status (rt e)));
          posy := or_zero (posy (status (rt e)));
          posz := or_zero (posz (status (rt e)));
          posa := or_zero (posa (status (rt e)));
          posb := or_zero (posb (status (rt e)));
          posc := or_zero (posc (status (rt e))) |};
     segments := segments e |}.

(** [init] resets the counters and tables of a run (and two flags,
    [break_chunk] and [chunk_broken_for_eval], that nothing reads); the
    program, the user variables, the commanded position and the settings
    are not among what it assigns. *)
Definition init (e : engine) : engine :=
  {| rt :=
       {| program := program (rt e); pc := PNum 0; start_of_the_chunk := 0;
          user_vars := user_vars (rt e); label_index := ∅; stack := [];
          current_chunk := []; cmd_pos := cmd_pos (rt e);
          sysvar_evaluated := false; status := status (rt e);
          settings := settings (rt e) |};
     started := false; state := Idle;
     tool_pos := tool_pos e; segments := segments e |}.

(** [_end] clears four fields of [machine.status] that lie outside
    [machine_status] (the file names and the line counters) and calls
    [init]. *)
Definition _end (e : engine) : engine := init e.

(** [_dispatch]: a non-empty chunk goes to the driver as one segment and
    the chunk is emptied; the callback is kept by the driver until the
    segment has run. *)
Definition _dispatch (e : engine) : bool * engine :=
  match current_chunk (rt e) with
  | [] => (false, e)
  | _ :: _ =>
      (true,
       {| rt := set_current_chunk [] (rt e); started := started e;
          state := state e; tool_pos := tool_pos e;
          segments := segments e ++ [current_chunk (rt e)] |})
  end.

(** How [this.pc] acts as a number in [this.pc >= this.program.length] and
    as a key in [this.program[this.pc]]. *)
Inductive pc_view :=
| Index (n : Z)   (* compares as [n], fetches the element of index [n] *)
| NoIndex         (* compares as [NaN], fetches [undefined] *)
| Unmodelled.

Fixpoint digits_value (s : string) (acc : Z) : option Z :=
  match s with
  | EmptyString => Some acc
  | String c r =>
      if is_digit c then digits_value r (10 * acc + Z.of_N (digit_val c))
      else None
  end.

(** A text of digits without a leading zero is both the number it spells
    and the array index it spells; other texts are left out. *)
Definition view_string (s : string) : pc_view :=
  match s with
  | EmptyString => Unmodelled
  | String c EmptyString =>
      if is_digit c then Index (Z.of_N (digit_val c)) else Unmodelled
  | String c _ =>
      if Ascii.eqb c "0" then Unmodelled
      else match digits_value s 0 with
           | Some n => Index n
           | None => Unmodelled
           end
  end.

(** A one-element array [[n]] converts to the text of [n] both ways. *)
Definition view_pc (p : pcval) : pc_view :=
  match p with
  | PNum n => Index n
  | PArr1 n => Index n
  | PStr s => view_string s
  | PUndef => NoIndex
  | PNaN => NoIndex
  | PInherited => NoIndex
  end.

(** [this.pc >= this.program.length] *)
Definition program_over (v : pc_view) (len : nat) : bool :=
  match v with
  | Index n => Z.of_nat len <=? n
  | _ => false
  end.

(** What [this.program[this.pc]] gives: a statement; [undefined], where
    the key is no index of the array; or an entry that is falsy.  On
    [undefined] and [null] the read of [type] in [_breaksStack] fails, on a
    falsy primitive it does not, so a falsy entry is left outside. *)
Inductive fetched :=
| Line (s : stmt)
| Missing
| FalsyEntry.

Definition fetch (v : pc_view) (lines : list (option stmt)) : fetched :=
  match v with
  | Index n =>
      if n <? 0 then Missing
      else match lines !! Z.to_nat n with
           | Some (Some s) => Line s
           | Some None => FalsyEntry
           | None => Missing
           end
  | _ => Missing
  end.

(** The ways a call of [_continue] comes to an end, and the two ways this
    embedding loses track of it: [Outside] says that a round ran into code
    that is not embedded, and nothing about how, or whether, the call goes
    on from there. *)
Inductive result :=
| NotStarted (e : engine)           (* returned at once: the runtime is not started *)
| Ended (e : engine)                (* ran off the program with nothing pending: [_end] *)
| Dispatched (e : engine)           (* a segment went to the driver, whose stop calls [_continue] again *)
| InHandler (e : engine)            (* a handler holds the callback; none of those is embedded *)
| Raised (err : error) (e : engine) (* [_execute] threw *)
| TypeError (e : engine)            (* [_breaksStack] read [type] of a missing line *)
| Outside (what : string)           (* not an end: code outside this embedding *)
| OutOfFuel (e : engine).

Section Loop.

Variable sb3_commands : gmap string (list (option expr)).

(** One round of the [while(true)] of [_continue]: the way the call ends,
    or the engine the next round starts from. *)
Definition round (e : engine) : result + engine :=
  match view_pc (pc (rt e)) with
  | Unmodelled => inl (Outside "pc")
  | v =>
      if program_over v (length (program (rt e))) then
        match _dispatch e with
        | (true, e') => inl (Dispatched e')
        | (false, _) => inl (Ended (_end e))
        end
      else
        match fetch v (program (rt e)) with
        | Missing => inl (TypeError e)
        | FalsyEntry => inl (Outside "falsy line")
        | Line line =>
            if _breaksStack line then
              match _dispatch e with
              | (true, e') => inl (Dispatched e')
              | (false, _) =>
                  match _execute sb3_commands (Some line) (rt e) with
                  | Ok _ r' => inl (InHandler (with_rt r' e))
                  | Throw err r' => inl (Raised err (with_rt r' e))
                  | Beyond w => inl (Outside w)
                  end
              end
            else
              match _execute sb3_commands (Some line) (rt e) with
              | Ok _ r' => inr (with_rt r' e)
              | Throw err r' => inl (Raised err (with_rt r' e))
              | Beyond w => inl (Outside w)
              end
        end
  end.

(** The engine [_dispatch] leaves behind when it sends. *)
Definition dispatched (e : engine) : engine :=
  {| rt := set_current_chunk [] (rt e); started := started e;
     state := state e; tool_pos := tool_pos e;
     segments := segments e ++ [current_chunk (rt e)] |}.

Definition over (e : engine) : bool :=
  program_over (view_pc (pc (rt e))) (length (program (rt e))).

Definition line_at (e : engine) : fetched :=
  fetch (view_pc (pc (rt e))) (program (rt e)).

(** The outcomes of one round, each with the conditions under which the
    source reaches it. *)
Inductive round_shape (e : engine) : result + engine -> Prop :=
| RoundNext (line : stmt) (b : option bool) (r' : runtime) :
    over e = false -> line_at e = Line line -> _breaksStack line = false ->
    _execute sb3_commands (Some line) (rt e) = Ok b r' ->
    round_shape e (inr (with_rt r' e))
| RoundRaised (line : stmt) (err : error) (r' : runtime) :
    over e = false -> line_at e = Line line ->
    (_breaksStack line = true -> current_chunk (rt e) = []) ->
    _execute sb3_commands (Some line) (rt e) = Throw err r' ->
    round_shape e (inl (Raised err (with_rt r' e)))
| RoundInHandler (line : stmt) (b : option bool) (r' : runtime) :
    over e = false -> line_at e = Line line -> _breaksStack line = true ->
    current_chunk (rt e) = [] ->
    _execute sb3_commands (Some line) (rt e) = Ok b r' ->
    round_shape e (inl (InHandler (with_rt r' e)))
| RoundTypeError :
    over e = false -> line_at e = Missing ->
    round_shape e (inl (TypeError e))
| RoundDispatched :
    current_chunk (rt e) <> [] ->
    (over e = true
     \/ (over e = false
         /\ exists line, line_at e = Line line /\ _breaksStack line = true)) ->
    round_shape e (inl (Dispatched (dispatched e)))
| RoundEnded :
    over e = true -> current_chunk (rt e) = [] ->
    round_shape e (inl (Ended (_end e)))
| RoundOutside (w : string) :
    (view_pc (pc (rt e)) = Unmodelled /\ w = "pc")
    \/ (over e = false /\ line_at e = FalsyEntry /\ w = "falsy line")
    \/ (over e = false
        /\ exists line,
             line_at e = Line line
             /\ (_breaksStack line = true -> current_chunk (rt e) = [])
             /\ _execute sb3_commands (Some line) (rt e) = Beyond w) ->
    round_shape e (inl (Outside w)).

Fixpoint continue_loop (fuel : nat) (e : engine) : result :=
  match fuel with
  | O => OutOfFuel e
  | S fuel' =>
      match round e with
      | inl res => res
      | inr e' => continue_loop fuel' e'
      end
  end.

Definition _continue (fuel : nat) (e : engine) : result :=
  let e := _update e in
  if started e then continue_loop fuel e else NotStarted e.

Definition _run (fuel : nat) (e : engine) : result :=
  _continue fuel
    {| rt := rt e; started := true; state := Running;
       tool_pos := tool_pos e; segments := segments e |}.

(** [runString] from the parsed program on.  Its [catch] logs what
    [Raised] and [TypeError] carry. *)
Definition runString (fuel : nat) (parsed : list (option stmt)) (e : engine)
    : result :=
  match analyze (set_program parsed (rt e)) with
  | Ok _ r' => _run fuel (with_rt r' e)
  | Throw err r' => Raised err (with_rt r' e)
  | Beyond w => Outside w
  end.

End Loop.


(** A statement that cannot send [pc] backwards or off the numbers: no
    [Goto], [Gosub] or [Return], bare or under conditionals. *)
Fixpoint straight (s : stmt) : bool :=
  match s with
  | SGoto _ | SGosub _ | SReturn => false
  | SCond _ then_stmt => straight then_stmt
  | _ => true
  end.

(** Did the call come to an end. *)
Definition ended (res : result) : bool :=
  match res with
  | Outside _ | OutOfFuel _ => false
  | _ => true
  end.


(** A supported statement without a jump in it. *)
Definition steady_line (line : option stmt) : bool :=
  match line with
  | Some s => supported_stmt s && straight s
  | None => false
  end.


(** Does the character occur in the text. *)
Fixpoint has_char (x : ascii) (s : string) : bool :=
  match s with
  | EmptyString => false
  | String c r => Ascii.eqb c x || has_char x r
  end.

(** An argument as the fast path of the parser produces it: nothing, a
    number, or a text that can hold no variable reference. *)
Definition plain (a : option expr) : bool :=
  match a with
  | None => true
  | Some (ENum _) => true
  | Some (EStr s) => negb (has_char "%" s) && negb (has_char "&" s)
  | Some (EBin _ _ _) => false
  end.

(** The mnemonics of the move handlers. *)
Definition move_names : list string :=
  [ "MX"; "MY"; "MZ"; "MA"; "MB"; "MC"; "M2"; "M3"; "M4"; "M5"; "M6"; "MH" ].

(** A move command with plain arguments. *)
Definition is_move (line : option stmt) : bool :=
  match line with
  | Some (SCmd name args) =>
      existsb (String.eqb name) move_names && forallb plain args
  | _ => false
  end.

(** Only the label table may differ. *)
Definition only_labels (r r' : runtime) : Prop :=
  r' = set_label_index (label_index r') r.

(** A started engine loaded with the given lines. *)
Definition engine0 (lines : list (option stmt)) : engine :=
  {| rt := set_program lines Fixture.runtime0; started := true;
     state := Running; tool_pos := Fixture.status0; segments := [] |}.

End Engine.

(** ** [runtime/opensbp/parser.js]: the fast path *)

Module Parser.
Import JS Sbp.

(** [\w] *)
Definition is_word (c : ascii) : bool := is_name_start c || is_digit c.

(** The characters the argument part of [CMD_RE] tells apart. *)
Inductive kind := KSpace | KComma | KSign | KDigit | KDot | KOther.

Definition classify (c : ascii) : kind :=
  if is_ws c then KSpace
  else if Ascii.eqb c "," then KComma
  else if Ascii.eqb c "+" || Ascii.eqb c "-" then KSign
  else if is_digit c then KDigit
  else if Ascii.eqb c "." then KDot
  else KOther.

(** Where a left-to-right match of the argument part of [CMD_RE] stands.
    That part is one or more groups, each made of white space, a comma,
    white space and, if there is one, a number (a sign if any, digits, and
    if any a point followed by digits); white space may follow up to the
    end of the text.  The pattern never has two ways to go on: what may
    follow a number is white space, a comma or the end, none of which
    continues a number. *)
Inductive scan :=
| NoComma   (* in the white space before the first comma *)
| Comma     (* behind a comma and the white space after it *)
| Sign      (* behind the sign of a number *)
| Int       (* in the integer digits *)
| Dot       (* behind the decimal point *)
| Frac      (* in the fraction digits *)
| Space.    (* in the white space behind a number *)

Definition scan_step (st : scan) (c : ascii) : option scan :=
  match st, classify c with
  | NoComma, KSpace => Some NoComma
  | NoComma, KComma => Some Comma
  | Comma, KSpace => Some Comma
  | Comma, KComma => Some Comma
  | Comma, KSign => Some Sign
  | Comma, KDigit => Some Int
  | Sign, KDigit => Some Int
  | Int, KDigit => Some Int
  | Int, KDot => Some Dot
  | Int, KSpace => Some Space
  | Int, KComma => Some Comma
  | Dot, KDigit => Some Frac
  | Frac, KDigit => Some Frac
  | Frac, KSpace => Some Space
  | Frac, KComma => Some Comma
  | Space, KSpace => Some Space
  | Space, KComma => Some Comma
  | _, _ => None
  end.

(** May the text end here. *)
Definition scan_end (st : scan) : bool :=
  match st with
  | Comma | Int | Frac | Space => true
  | NoComma | Sign | Dot => false
  end.

Fixpoint scan_from (st : scan) (s : string) : bool :=
  match s with
  | EmptyString => scan_end st
  | String c r =>
      match scan_step st c with
      | Some st' => scan_from st' r
      | None => false
      end
  end.

(** [statement.match(CMD_RE)]: the mnemonic and the argument part.  The
    second group of the pattern stops in front of white space that follows
    a final number; [trim] and [Number] do not see that white space, and it
    is left in here. *)
Definition match_CMD_RE (statement : string) : option (string * string) :=
  match skip_ws statement with
  | String c1 (String c2 rest) =>
      if is_word c1 && is_word c2 && scan_from NoComma rest
      then Some (String c1 (String c2 EmptyString), rest)
      else None
  | _ => None
  end.

(** [s.split(sep)] for a separator of one character. *)
Fixpoint split_on (sep : ascii) (s : string) : list string :=
  match s with
  | EmptyString => [EmptyString]
  | String c r =>
      if Ascii.eqb c sep then EmptyString :: split_on sep r
      else match split_on sep r with
           | p :: ps => String c p :: ps
           | [] => [String c EmptyString]
           end
  end.

(** One argument: [undefined] for a blank text, else [Number(arg)], kept
    as text should it be [NaN].  On a signed decimal between white space
    [Number] and [parseFloat] agree. *)
Definition parse_arg (arg : string) : option expr :=
  if String.eqb (skip_ws arg) "" then None
  else
    let n := parseFloat arg in
    if PrimFloat.is_nan n then Some (EStr arg) else Some (ENum n).

(** [fastParse]: [None] is [null].  The look at [CMD_SPACE_RE] that
    follows a failed match only rewrites the local [statement]. *)
Definition fastParse (statement : string) : option stmt :=
  match match_CMD_RE statement with
  | Some (cmd, rest) =>
      if String.eqb cmd "IF" then None
      else Some (SCmd cmd (map parse_arg (tl (split_on "," rest))))
  | None => None
  end.

(** [line.replace(/\r/g,'')] *)
Fixpoint remove_cr (s : string) : string :=
  match s with
  | EmptyString => EmptyString
  | String c r => if Ascii.eqb c "013" then remove_cr r else String c (remove_cr r)
  end.

(** The text in front of the first apostrophe. *)
Definition statement_of (line : string) : string :=
  hd EmptyString (split_on "'" (remove_cr line)).

Definition upper (c : ascii) : ascii :=
  let n := N_of_ascii c in
  if ((97 <=? n) && (n <=? 122))%N then ascii_of_N (n - 32) else c.

(** [toUpperCase] on a text of word characters, where only the letters
    [a] to [z] change. *)
Fixpoint toUpperCase (s : string) : string :=
  match s with
  | EmptyString => EmptyString
  | String c r => String (upper c) (toUpperCase r)
  end.

(** [parseLine] as far as the fast path decides it: [None] where the
    statement goes to [sbp_parser], a generated module that is not in this
    source tree.  The comment is attached to the object in a field that
    [stmt] does not carry. *)
Definition parseLine (line : string) : option stmt :=
  match fastParse (statement_of line) with
  | Some (SCmd cmd args) => Some (SCmd (toUpperCase cmd) args)
  | Some obj => Some obj
  | None => None
  end.

Fixpoint parse_lines (lines : list string) : option (list (option stmt)) :=
  match lines with
  | [] => Some []
  | line :: rest =>
      match parseLine line with
      | Some obj =>
          match parse_lines rest with
          | Some output => Some (Some obj :: output)
          | None => None
          end
      | None => None
      end
  end.

(** [parse] on a text: its lines, parsed one by one. *)
Definition parse (data : string) : option (list (option stmt)) :=
  parse_lines (split_on "010" data).

(** [runString] from the text on. *)
Definition runString (sb3_commands : gmap string (list (option expr)))
    (fuel : nat) (s : string) (e : Engine.engine) : Engine.result :=
  match parse s with
  | Some parsed => Engine.runString sb3_commands fuel parsed e
  | None => Engine.Outside "sbp_parser"
  end.

(** How often the character occurs in the text. *)
Fixpoint count_char (x : ascii) (s : string) : nat :=
  match s with
  | EmptyString => O
  | String c r => (if Ascii.eqb c x then 1 else 0) + count_char x r
  end.

(** The characters an argument part is made of. *)
Definition allowed (c : ascii) : bool :=
  match classify c with
  | KOther => false
  | _ => true
  end.

Fixpoint all_chars (p : ascii -> bool) (s : string) : bool :=
  match s with
  | EmptyString => true
  | String c r => p c && all_chars p r
  end.

(** The two-line text [MX,1] / [MH,]. *)
Definition two_moves : string := "MX,1" ++ String "010" "MH,".

(** A command whose mnemonic is a move. *)
Definition names_a_move (line : option stmt) : bool :=
  match line with
  | Some (SCmd cmd _) => existsb (String.eqb cmd) Engine.move_names
  | _ => false
  end.

End Parser.

(** * Properties *)

(** ** The model at work *)

Section ModelChecks.
Import JS Sbp Props Fixture.

Example parseFloat_decimal : parseFloat "7.5" = 7.5%float.
Proof. reflexivity. Qed.

Example parseFloat_rounds_to_nearest :
  parseFloat "0.1" = 0.1%float
  /\ parseFloat "0.30000000000000004" = (0.1 + 0.2)%float
  /\ parseFloat "1e23" = 1e23%float.
Proof. repeat split; reflexivity. Qed.

Example parseFloat_prefix :
  parseFloat " 12abc" = 12%float
  /\ parseFloat "-.5e-3" = (-0.0005)%float
  /\ parseFloat "-12e2" = (-1200)%float
  /\ parseFloat "1e" = 1%float
  /\ parseFloat "5." = 5%float.
Proof. repeat split; reflexivity. Qed.

Example parseFloat_no_number :
  parseFloat "abc" = PrimFloat.nan
  /\ parseFloat "." = PrimFloat.nan
  /\ parseFloat "%(1)" = PrimFloat.nan
  /\ parseFloat "" = PrimFloat.nan.
Proof. repeat split; reflexivity. Qed.

Example parseFloat_extremes :
  parseFloat "1e400" = PrimFloat.infinity
  /\ parseFloat "-Infinity" = PrimFloat.neg_infinity
  /\ parseFloat "4.9e-324" = 4.9e-324%float
  /\ parseFloat "1e-400" = PrimFloat.zero
  /\ parseFloat "-0" = PrimFloat.neg_zero.
Proof. repeat split; reflexivity. Qed.

Example match_SYSVAR_RE_leftmost :
  match_SYSVAR_RE "a %(x) %(12)b %(3)" = Some 12%N
  /\ match_SYSVAR_RE "%(12" = None
  /\ match_SYSVAR_RE "%()" = None.
Proof. repeat split; reflexivity. Qed.

Example match_USERVAR_RE_examples :
  match_USERVAR_RE "&a" = true
  /\ match_USERVAR_RE "x&_1" = true
  /\ match_USERVAR_RE "&1" = false
  /\ match_USERVAR_RE "a" = false.
Proof. repeat split; reflexivity. Qed.

(** [[3] + 1] is the string ["31"]. *)
Example pc_add1_on_array : pc_add1 (PArr1 3) = PStr "31".
Proof. reflexivity. Qed.

(** [&a = 2], [&b = 3], [MX,&a+&b] with the XY speed at 5: the chunk holds
    [G1 X5 F300] and the commanded X is 5. *)
Example assign_then_move :
  exists r',
    (_execute commands0 (Some (SAssign "&a" (ENum 2))) ;;;
     _execute commands0 (Some (SAssign "&b" (ENum 3))) ;;;
     _execute commands0 (Some (SCmd "MX" [Some (EBin "+" (EStr "&a") (EStr "&b"))])))
      runtime0
    = Ok (Some false) r'
    /\ pc r' = PNum 3
    /\ current_chunk r' = [[Lit "G1 X"; Val (VNum 5); Lit " F"; Val (VNum 300)]]
    /\ cmd_posx (cmd_pos r') = VNum 5.
Proof. eexists. repeat split; vm_compute; reflexivity. Qed.

(** A command the parameter table does not list is called with no
    arguments at all. *)
Example unlisted_command_gets_no_arguments :
  _evaluateArguments commands0 "M2" [Some (ENum 1); Some (ENum 2)] runtime0
  = Ok [] runtime0.
Proof. reflexivity. Qed.

(** [PAUSE 2] emits a dwell; [PAUSE] and [PAUSE 0] emit nothing. *)
Example pause_dwell :
  exists r1 r2 r3,
    _execute commands0 (Some (SPause (Some (ENum 2)))) runtime0 = Ok (Some false) r1
    /\ current_chunk r1 = [[Lit "G4 P"; Val (VNum 2)]]
    /\ _execute commands0 (Some (SPause None)) runtime0 = Ok (Some false) r2
    /\ current_chunk r2 = []
    /\ _execute commands0 (Some (SPause (Some (ENum 0)))) runtime0 = Ok (Some false) r3
    /\ current_chunk r3 = [].
Proof. do 3 eexists. repeat split; vm_compute; reflexivity. Qed.

End ModelChecks.

(** ** Transformation library *)

Section TransformationFacts.
Import JS Props.
Local Open Scope float_scope.

Lemma Prim2SF_zero : Prim2SF 0 = S754_zero false.
Proof. reflexivity. Qed.

(** [-d === 0] exactly when [d === 0]. *)
Lemma eqb_opp_zero (d : float) : PrimFloat.eqb (- d) 0 = PrimFloat.eqb d 0.
Proof.
  rewrite !FloatAxioms.eqb_spec, FloatAxioms.opp_spec, Prim2SF_zero.
  destruct (Prim2SF d) as [s | s | | s m e]; try destruct s; reflexivity.
Qed.

Lemma strict_neq_opp_zero (d : float) :
  Transformation.num_strict_neq (- d) 0 = Transformation.num_strict_neq d 0.
Proof. unfold Transformation.num_strict_neq. now rewrite eqb_opp_zero. Qed.

Lemma translate_coord_absent (d : float) :
  Transformation.translate_coord None d = None.
Proof.
  unfold Transformation.translate_coord; simpl.
  now rewrite andb_false_r.
Qed.

Lemma translate_coord_zero_offset (c : option float) (d : float) :
  PrimFloat.eqb d 0 = true -> Transformation.translate_coord c d = c.
Proof.
  intros Hd. unfold Transformation.translate_coord, Transformation.num_strict_neq.
  now rewrite Hd.
Qed.

Lemma translate_coord_moves (x d : float) :
  PrimFloat.eqb d 0 = false -> truthy_num x = true ->
  Transformation.translate_coord (Some x) d = Some (x + d).
Proof.
  intros Hd Hx. unfold Transformation.translate_coord, Transformation.num_strict_neq.
  simpl. now rewrite Hd, Hx.
Qed.

(** A falsy coordinate ([0], [-0], [NaN]) is never translated. *)
Lemma translate_coord_falsy (x d : float) :
  truthy_num x = false -> Transformation.translate_coord (Some x) d = Some x.
Proof.
  intros Hx. unfold Transformation.translate_coord. simpl.
  now rewrite Hx, andb_false_r.
Qed.

Lemma translate_coord_back (c : option float) (d : float) :
  translates_back c d ->
  Transformation.translate_coord (Transformation.translate_coord c d) (- d) = c.
Proof.
  intros [-> | [Hd | (x & -> & Hx & Hxd & Hexact)]].
  - now rewrite !translate_coord_absent.
  - rewrite (translate_coord_zero_offset c d Hd).
    apply translate_coord_zero_offset. now rewrite eqb_opp_zero.
  - destruct (PrimFloat.eqb d 0) eqn:Hd.
    + rewrite (translate_coord_zero_offset _ d Hd).
      apply translate_coord_zero_offset. now rewrite eqb_opp_zero.
    + rewrite (translate_coord_moves x d Hd Hx).
      rewrite translate_coord_moves; [now rewrite Hexact | | exact Hxd].
      now rewrite eqb_opp_zero.
Qed.

Lemma scale_coord_zero (x s origin : float) :
  PrimFloat.is_zero x = true ->
  Transformation.scale_coord (Some x) s origin = Some x.
Proof.
  intros Hx. unfold Transformation.scale_coord, Transformation.coord_truthy, truthy_num.
  rewrite Hx. simpl. now rewrite andb_false_r.
Qed.

(** C8 (as stated, refuted): translating the point (1, 2, 3) by (-1, 0, 0)
    lands on X = 0, and the translation by (1, -0, -0) that should undo
    it leaves that 0 where it is.  And away from zero the additions round:
    (0.1, 2, 3) translated by (0.2, 0, 0) and back is not (0.1, 2, 3). *)
Lemma C8_translate_roundtrip_counterexample :
  Transformation.translate
    (Transformation.translate
       (Transformation.Point (Some 1) (Some 2) (Some 3)) (-1) 0 0)
    (- (-1)) (- 0) (- 0)
  <> Transformation.Point (Some 1) (Some 2) (Some 3)
  /\ Transformation.translate
       (Transformation.translate
          (Transformation.Point (Some 0.1) (Some 2) (Some 3)) 0.2 0 0)
       (- 0.2) (- 0) (- 0)
     <> Transformation.Point (Some 0.1) (Some 2) (Some 3).
Proof. split; vm_compute; discriminate. Qed.

(** C8 (amended): [translate(., a, b, c)] followed by
    [translate(., -a, -b, -c)] returns the original point whenever, on each
    axis, the coordinate is absent, or the offset is zero, or the
    coordinate and the translated coordinate are both non-zero numbers
    and the two floating-point additions are exact. *)
Theorem C8_translate_roundtrip (P : Transformation.point) (a b c : float) :
  translates_back (Transformation.X P) a ->
  translates_back (Transformation.Y P) b ->
  translates_back (Transformation.Z P) c ->
  Transformation.translate (Transformation.translate P a b c) (- a) (- b) (- c) = P.
Proof.
  intros Ha Hb Hc. destruct P as [x y z]. unfold Transformation.translate. simpl in *.
  now rewrite !translate_coord_back.
Qed.

Lemma C8_translate_roundtrip_witness :
  Transformation.translate
    (Transformation.translate
       (Transformation.Point (Some 1) (Some 2) None) 2 0 5)
    (- 2) (- 0) (- 5)
  = Transformation.Point (Some 1) (Some 2) None.
Proof.
  apply (C8_translate_roundtrip (Transformation.Point (Some 1) (Some 2) None) 2 0 5).
  - right. right. exists 1. repeat split; reflexivity.
  - right. left. reflexivity.
  - left. reflexivity.
Defined.

(** C9: [scale] leaves an X coordinate equal to zero where it is, for every
    scale factor and every scale origin, and likewise a Y coordinate equal
    to zero. *)
Theorem C9_scale_keeps_zero_coordinate
    (P : Transformation.point) (sx sy cx cy x y : float) :
  (Transformation.X P = Some x -> PrimFloat.is_zero x = true ->
   Transformation.X (Transformation.scale P sx sy cx cy) = Some x)
  /\ (Transformation.Y P = Some y -> PrimFloat.is_zero y = true ->
      Transformation.Y (Transformation.scale P sx sy cx cy) = Some y).
Proof.
  destruct P as [px py pz]. simpl. split; intros -> Hz; now apply scale_coord_zero.
Qed.

(** At the origin (0, 0) with factor 2 about (1, 1), the scaling formula
    [sx*x + cx*(1-sx)] would give -1 on both axes. *)
Lemma C9_scale_keeps_zero_coordinate_witness :
  Transformation.X (Transformation.scale (Transformation.Point (Some 0) (Some 0) None) 2 2 1 1) = Some 0
  /\ Transformation.Y (Transformation.scale (Transformation.Point (Some 0) (Some 0) None) 2 2 1 1) = Some 0
  /\ (2 * 0 + 1 * (1 - 2) = -1).
Proof.
  destruct (C9_scale_keeps_zero_coordinate
              (Transformation.Point (Some 0) (Some 0) None) 2 2 1 1 0 0) as [HX HY].
  split; [apply HX; reflexivity | split; [apply HY; reflexivity | reflexivity]].
Defined.

End TransformationFacts.

(** ** The stack-break classifier *)

Section ClassifierFacts.
Import JS Sbp Props Fixture.

(** The classifier never looks at the arguments of a command. *)
Lemma breaksStack_cmd_args (name : string) (args args' : list (option expr)) :
  _breaksStack (SCmd name args) = _breaksStack (SCmd name args').
Proof. reflexivity. Qed.

Lemma breaksStack_assign (var : string) (e : expr) :
  _breaksStack (SAssign var e) = false.
Proof. reflexivity. Qed.

Lemma breaksStack_cond (cmp : expr) (s : stmt) :
  _breaksStack (SCond cmp s) = false.
Proof. reflexivity. Qed.

(** A command breaks the stack exactly when its handler takes a callback. *)
Lemma breaksStack_cmd_iff (name : string) (args : list (option expr)) :
  _breaksStack (SCmd name args) = true <->
  exists n, method_length name = Some n /\ (1 < n)%nat.
Proof.
  simpl. destruct (method_length name) as [n |].
  - destruct (Nat.ltb_spec 1 n); split.
    + intros _. now exists n.
    + reflexivity.
    + discriminate.
    + intros (m & [= <-] & Hm). lia.
  - split; [discriminate | intros (n & Hn & _); discriminate].
Qed.

(** The classifier in full: a statement breaks the stack exactly when it is
    a command whose handler takes a callback.  No expression is looked
    at. *)
Lemma breaksStack_iff (s : stmt) :
  _breaksStack s = true <->
  exists name args n,
    s = SCmd name args /\ method_length name = Some n /\ (1 < n)%nat.
Proof.
  split.
  - destruct s as [name args | | | | | | | | | |]; try discriminate.
    intros (n & Hn & Hlt)%breaksStack_cmd_iff. now exists name, args, n.
  - intros (name & args & n & -> & Hn & Hlt). apply breaksStack_cmd_iff. eauto.
Qed.

(** [_exprBreaksStack] finds a system variable anywhere in the tree. *)
Lemma exprBreaksStack_node (op : string) (l r : expr) :
  _exprBreaksStack (EBin op l r) = _exprBreaksStack l || _exprBreaksStack r.
Proof. reflexivity. Qed.

(** C1 (the code departs from it): the expressions of [MX,%(1)],
    [&a = %(1)] and [IF %(1) > 0 THEN GOTO done] read a system variable,
    which [_exprBreaksStack] recognises; [_breaksStack] never consults it
    and classifies all three as not stack-breaking.  [MX,%(1)] is then
    executed inline: it reads posx = 7.5, sets the flag and appends its
    line to the pending chunk. *)
Theorem C1_breaksStack_ignores_system_variables :
  _exprBreaksStack (EStr "%(1)") = true
  /\ _exprBreaksStack (EBin ">" (EStr "%(1)") (ENum 0)) = true
  /\ _breaksStack (SCmd "MX" [Some (EStr "%(1)")]) = false
  /\ _breaksStack (SAssign "&a" (EStr "%(1)")) = false
  /\ _breaksStack (SCond (EBin ">" (EStr "%(1)") (ENum 0)) (SGoto "done")) = false
  /\ exists r',
       _execute commands0 (Some (SCmd "MX" [Some (EStr "%(1)")])) runtime0
         = Ok (Some false) r'
       /\ sysvar_evaluated r' = true
       /\ current_chunk r'
          = [[Lit "G1 X"; Val (VNum 7.5); Lit " F"; Val (VNum 300)]].
Proof.
  repeat split; try reflexivity.
  eexists. repeat split; vm_compute; reflexivity.
Qed.

End ClassifierFacts.

(** ** The execution engine *)

Section EngineFacts.
Import JS Sbp Props Fixture.
Variable sb3_commands : gmap string (list (option expr)).

(** What the [gosub] case does: [pc] takes the label's index [i], and the
    array [[i + 1]] goes on the stack: the slot after the label, not the
    slot after the [Gosub]. *)
Lemma execute_gosub (r : runtime) (label : string) (i : Z) :
  label_index r !! label = Some i ->
  _execute sb3_commands (Some (SGosub label)) r
  = Ok (Some false) (set_stack (PArr1 (i + 1) :: stack r) (set_pc (PNum i) r)).
Proof. intros H. unfold _execute, bind, get. simpl. unfold bind, get. now rewrite H. Qed.

Lemma execute_gosub_unknown (r : runtime) (label : string) :
  label_index r !! label = None ->
  inherited label = false ->
  _execute sb3_commands (Some (SGosub label)) r = Throw (UnknownLabel label (pc r)) r.
Proof.
  intros H Hi. unfold _execute, bind, get. simpl. unfold bind, get.
  now rewrite H, Hi.
Qed.

(** A [Goto] to a name the label table inherits passes the [in] test and
    takes [pc] off the numbers. *)
Lemma execute_goto_inherited (r : runtime) (label : string) :
  label_index r !! label = None ->
  inherited label = true ->
  _execute sb3_commands (Some (SGoto label)) r
  = Ok (Some false) (set_pc PInherited r).
Proof.
  intros H Hi. unfold _execute, bind, get. simpl. unfold bind, get.
  now rewrite H, Hi.
Qed.

(** What the [return] case does, whatever the stack holds. *)
Lemma execute_return (r : runtime) :
  _execute sb3_commands (Some SReturn) r
  = Ok (Some false)
      match stack r with
      | top :: rest => set_pc top (set_stack rest r)
      | [] => set_pc PUndef r
      end.
Proof. unfold _execute, bind, get. simpl. unfold bind, get. now destruct (stack r). Qed.

(** A [Gosub] followed by a [Return] leaves the stack as it was, and [pc]
    holds the array [[i + 1]] for the label's index [i]. *)
Lemma gosub_then_return (r : runtime) (label : string) (i : Z) :
  label_index r !! label = Some i ->
  (_execute sb3_commands (Some (SGosub label)) ;;;
   _execute sb3_commands (Some SReturn)) r
  = Ok (Some false) (set_pc (PArr1 (i + 1)) (set_pc (PNum i) r)).
Proof.
  intros H. unfold bind at 1. rewrite (execute_gosub r label i H).
  rewrite execute_return. simpl. now destruct r.
Qed.

(** C2 (the code departs from it): in [GOSUB sub / END / sub: / MX,1 /
    RETURN] the [Gosub] sits at index 0 and the label at index 2.
    Executing the [Gosub] sets [pc] to 2 and pushes the array [[3]], where
    the claim has 1 pushed; the [Return] then pops [[3]] into [pc], so
    execution resumes at index 3, inside the subroutine, and not at index
    1 after the [Gosub].  The stack is back to empty. *)
Theorem C2_gosub_pushes_label_index_plus_one :
  label_index gosub_runtime !! "sub" = Some 2
  /\ pc gosub_runtime = PNum 0
  /\ exists r1 r2,
       _execute sb3_commands (Some (SGosub "sub")) gosub_runtime = Ok (Some false) r1
       /\ pc r1 = PNum 2
       /\ stack r1 = [PArr1 3]
       /\ _execute sb3_commands (Some SReturn) r1 = Ok (Some false) r2
       /\ pc r2 = PArr1 3
       /\ stack r2 = [].
Proof.
  split; [reflexivity | split; [reflexivity |]].
  eexists. eexists. split.
  - apply execute_gosub. reflexivity.
  - split; [reflexivity | split; [reflexivity |]].
    rewrite execute_return. simpl. repeat split.
Qed.

(** C6 (the code departs from it on the empty stack): the [return] case
    never throws.  On a non-empty stack it pops exactly the top entry into
    [pc]; on an empty stack [pop] yields [undefined], which becomes the
    new [pc], and the call returns normally. *)
Theorem C6_return_never_raises (r : runtime) :
  (forall top rest, stack r = top :: rest ->
     _execute sb3_commands (Some SReturn) r
     = Ok (Some false) (set_pc top (set_stack rest r)))
  /\ (stack r = [] ->
      _execute sb3_commands (Some SReturn) r = Ok (Some false) (set_pc PUndef r)).
Proof.
  split.
  - intros top rest H. rewrite execute_return. now rewrite H.
  - intros H. rewrite execute_return. now rewrite H.
Qed.

(** A falsy command only advances [pc]. *)
Lemma execute_falsy (r : runtime) :
  _execute sb3_commands None r = Ok None (set_pc (pc_add1 (pc r)) r).
Proof. reflexivity. Qed.

(** C10: executing a falsy statement increments [pc] by exactly 1 and
    leaves every other component of the runtime as it was: the return
    stack, the user variables, the pending chunk, the settings, every
    commanded position, and the rest. *)
Theorem C10_falsy_statement_only_advances_pc (r : runtime) (n : Z) :
  pc r = PNum n ->
  exists r',
    _execute sb3_commands None r = Ok None r'
    /\ pc r' = PNum (n + 1)
    /\ stack r' = stack r
    /\ user_vars r' = user_vars r
    /\ current_chunk r' = current_chunk r
    /\ settings r' = settings r
    /\ cmd_pos r' = cmd_pos r
    /\ program r' = program r
    /\ label_index r' = label_index r
    /\ start_of_the_chunk r' = start_of_the_chunk r
    /\ sysvar_evaluated r' = sysvar_evaluated r
    /\ status r' = status r.
Proof.
  intros H. exists (set_pc (pc_add1 (pc r)) r). rewrite execute_falsy.
  rewrite H. simpl. repeat split.
Qed.

End EngineFacts.

Lemma C6_return_never_raises_witness :
  Sbp._execute Fixture.commands0 (Some Sbp.SReturn) Fixture.runtime0
  = Sbp.Ok (Some false) (Sbp.set_pc Sbp.PUndef Fixture.runtime0)
  /\ Sbp._execute Fixture.commands0 (Some Sbp.SReturn)
       (Sbp.set_stack [Sbp.PArr1 3] Fixture.runtime0)
     = Sbp.Ok (Some false)
         (Sbp.set_pc (Sbp.PArr1 3)
            (Sbp.set_stack [] (Sbp.set_stack [Sbp.PArr1 3] Fixture.runtime0))).
Proof.
  split.
  - apply (C6_return_never_raises Fixture.commands0 Fixture.runtime0). reflexivity.
  - apply (C6_return_never_raises Fixture.commands0
             (Sbp.set_stack [Sbp.PArr1 3] Fixture.runtime0)). reflexivity.
Defined.

Lemma C10_falsy_statement_only_advances_pc_witness :
  Sbp.pc Fixture.gosub_runtime = Sbp.PNum 0
  /\ exists r',
      Sbp._execute Fixture.commands0 None Fixture.gosub_runtime = Sbp.Ok None r'
      /\ Sbp.pc r' = Sbp.PNum (0 + 1)
      /\ Sbp.stack r' = Sbp.stack Fixture.gosub_runtime
      /\ Sbp.user_vars r' = Sbp.user_vars Fixture.gosub_runtime
      /\ Sbp.current_chunk r' = Sbp.current_chunk Fixture.gosub_runtime
      /\ Sbp.settings r' = Sbp.settings Fixture.gosub_runtime
      /\ Sbp.cmd_pos r' = Sbp.cmd_pos Fixture.gosub_runtime
      /\ Sbp.program r' = Sbp.program Fixture.gosub_runtime
      /\ Sbp.label_index r' = Sbp.label_index Fixture.gosub_runtime
      /\ Sbp.start_of_the_chunk r' = Sbp.start_of_the_chunk Fixture.gosub_runtime
      /\ Sbp.sysvar_evaluated r' = Sbp.sysvar_evaluated Fixture.gosub_runtime
      /\ Sbp.status r' = Sbp.status Fixture.gosub_runtime.
Proof.
  split; [reflexivity |].
  apply (C10_falsy_statement_only_advances_pc Fixture.commands0 Fixture.gosub_runtime 0).
  reflexivity.
Defined.

(** ** The expression evaluator *)

Section EvaluatorFacts.
Import JS Sbp Props Fixture.

(** A leaf never throws: the two [ERROR] branches of [_eval_value] are
    empty. *)
Lemma eval_value_returns (s : string) (r : runtime) :
  exists v r', _eval_value s r = Ok v r'.
Proof.
  unfold _eval_value.
  destruct (evaluateSystemVariable r s) as [| | []];
    try destruct (evaluateUserVariable r s) as [| | []]; eauto.
Qed.

(** [_eval] throws exactly on the first unhandled operator it meets, and
    returns otherwise. *)
Lemma eval_outcome (e : expr) :
  forall r,
    match first_bad_op e with
    | Some op => exists r', _eval e r = Throw (UnhandledOperation op) r'
    | None => exists v r', _eval e r = Ok v r'
    end.
Proof.
  induction e as [x | s | op lhs IHl rhs IHr]; intros r; simpl.
  - unfold ret. eauto.
  - apply eval_value_returns.
  - destruct (binop op) as [f |]; [| unfold throw; eauto].
    unfold bind. specialize (IHl r). destruct (first_bad_op lhs).
    + destruct IHl as [r' ->]. eauto.
    + destruct IHl as (v & r' & ->). specialize (IHr r').
      destruct (first_bad_op rhs).
      * destruct IHr as [r'' ->]. eauto.
      * destruct IHr as (v' & r'' & ->). unfold ret. eauto.
Qed.

(** A node applies its operator to the values of its two sides, left
    first. *)
Lemma eval_node (op : string) (f : value -> value -> value) (a b : expr)
    (r r1 r2 : runtime) (va vb : value) :
  binop op = Some f ->
  _eval a r = Ok va r1 -> _eval b r1 = Ok vb r2 ->
  _eval (EBin op a b) r = Ok (f va vb) r2.
Proof. intros Hop Ha Hb. simpl. rewrite Hop. unfold bind. now rewrite Ha, Hb. Qed.

Lemma eval_node_inv (op : string) (a b : expr) (r r' : runtime) (v : value) :
  _eval (EBin op a b) r = Ok v r' ->
  exists f va vb r1,
    binop op = Some f /\ _eval a r = Ok va r1 /\ _eval b r1 = Ok vb r'
    /\ v = f va vb.
Proof.
  simpl. destruct (binop op) as [f |]; [| discriminate].
  unfold bind. destruct (_eval a r) as [va r1 | |] eqn:Ha; try discriminate.
  destruct (_eval b r1) as [vb r2 | |] eqn:Hb; try discriminate.
  unfold ret. intros [= <- <-]. now exists f, va, vb, r1.
Qed.

(** The kind of value each handled operator produces. *)
Lemma binop_kind (op : string) (f : value -> value -> value) (va vb : value) :
  binop op = Some f ->
  if is_arith op then exists x, f va vb = VNum x else exists b, f va vb = VBool b.
Proof.
  unfold binop, is_arith.
  repeat (destruct (String.eqb op _); [intros [= <-]; simpl; eauto |]).
  discriminate.
Qed.

(** C5 (as stated, refuted): a division by zero raises no error, it
    evaluates to [Infinity]; and a comparison returns a boolean, not a
    number. *)
Lemma C5_eval_errors_counterexample :
  _eval (EBin "/" (ENum 1) (ENum 0)) runtime0 = Ok (VNum PrimFloat.infinity) runtime0
  /\ _eval (EBin ">" (ENum 2) (ENum 1)) runtime0 = Ok (VBool true) runtime0.
Proof. split; reflexivity. Qed.

(** Evaluation does not change what the references resolve to. *)
Lemma references_resolve_after (e e' : expr) (r r' : runtime) (v : value) :
  _eval e' r = Ok v r' -> references_resolve r' e = references_resolve r e.
Proof.
  intros H.
  assert (Hr : status r' = status r /\ settings r' = settings r
               /\ user_vars r' = user_vars r).
  { revert r r' v H.
    induction e' as [x | s | op lhs IHl rhs IHr]; intros r r' v H; simpl in H.
    - now injection H as _ <-.
    - unfold _eval_value in H.
      destruct (evaluateSystemVariable r s) as [| | []];
        try destruct (evaluateUserVariable r s) as [| | []];
        now injection H as _ <-.
    - destruct (binop op); [| discriminate]. unfold bind in H.
      destruct (_eval lhs r) as [va r1 | |] eqn:Ha; try discriminate.
      destruct (_eval rhs r1) as [vb r2 | |] eqn:Hb; try discriminate.
      injection H as _ <-.
      destruct (IHl _ _ _ Ha) as (A1 & A2 & A3), (IHr _ _ _ Hb) as (B1 & B2 & B3).
      repeat split; congruence. }
  destruct Hr as (H1 & H2 & H3).
  induction e as [x | s | op lhs IHl rhs IHr]; simpl; [reflexivity | |].
  - unfold hits_error_branch, evaluateSystemVariable, evaluateUserVariable.
    now rewrite H1, H2, H3.
  - now rewrite IHl, IHr.
Qed.

(** A leaf whose reference resolves returns a number. *)
Lemma eval_value_resolved (s : string) (r : runtime) :
  hits_error_branch r s = false ->
  exists x r', _eval_value s r = Ok (VNum x) r'.
Proof.
  unfold hits_error_branch, _eval_value.
  destruct (evaluateSystemVariable r s) as [| | []];
    try destruct (evaluateUserVariable r s) as [| | []];
    intros H; try discriminate; eauto.
Qed.

(** With every reference resolved, [_eval] throws exactly on the first
    unhandled operator it meets, and returns a defined value otherwise. *)
Lemma eval_resolved_outcome (e : expr) :
  forall r,
    references_resolve r e = true ->
    match first_bad_op e with
    | Some op => exists r', _eval e r = Throw (UnhandledOperation op) r'
    | None => exists v r', _eval e r = Ok v r' /\ is_defined v = true
    end.
Proof.
  induction e as [x | s | op lhs IHl rhs IHr]; intros r Hres; simpl in *.
  - unfold ret. eauto.
  - apply negb_true_iff in Hres.
    destruct (eval_value_resolved s r Hres) as (x & r' & ->). eauto.
  - apply andb_true_iff in Hres as [Hl Hr].
    destruct (binop op) as [f |] eqn:Hop; [| unfold throw; eauto].
    unfold bind. specialize (IHl r Hl). destruct (first_bad_op lhs).
    + destruct IHl as [r' ->]. eauto.
    + destruct IHl as (v & r' & Ha & _). rewrite Ha.
      rewrite <- (references_resolve_after rhs lhs r r' v Ha) in Hr.
      specialize (IHr r' Hr). destruct (first_bad_op rhs).
      * destruct IHr as [r'' ->]. eauto.
      * destruct IHr as (v' & r'' & -> & _). unfold ret.
        exists (f v v'), r''. split; [reflexivity |].
        pose proof (binop_kind op f v v' Hop) as Hk.
        destruct (is_arith op); destruct Hk as [y ->]; reflexivity.
Qed.

(** C5 (amended): for an expression whose variable references all resolve
    (system variables of a known number, user variables that are defined),
    evaluation raises an error exactly when the expression holds a node
    with an operator outside [+ - * / > < >= <= == = !=] (the error names
    the first one in evaluation order), and returns a defined value in
    every other case; a division raises no error of its own, whatever the
    divisor, and yields the IEEE-754 quotient; a node that returns gives a
    number under an arithmetic operator and a boolean under a
    comparison.  Nothing is stated here about a reference that does not
    resolve. *)
Theorem C5_eval_raises_only_on_unhandled_operator (e : expr) (r : runtime) :
  (references_resolve r e = true ->
   match first_bad_op e with
   | Some op => exists r', _eval e r = Throw (UnhandledOperation op) r'
   | None => exists v r', _eval e r = Ok v r' /\ is_defined v = true
   end)
  /\ (forall a b va vb r1 r2,
        _eval a r = Ok va r1 -> _eval b r1 = Ok vb r2 ->
        _eval (EBin "/" a b) r = Ok (VNum (ToNumber va / ToNumber vb)%float) r2)
  /\ (forall op a b v r',
        _eval (EBin op a b) r = Ok v r' ->
        if is_arith op then exists x, v = VNum x else exists b', v = VBool b').
Proof.
  split; [apply eval_resolved_outcome | split].
  - intros a b va vb r1 r2 Ha Hb.
    now apply (eval_node "/" js_div a b r r1 r2 va vb).
  - intros op a b v r' H.
    destruct (eval_node_inv op a b r r' v H) as (f & va & vb & r1 & Hop & _ & _ & ->).
    now apply binop_kind.
Qed.

(** What the source does at the two places it marks [ERROR], a slip
    against its own comments: the leaf evaluates to [undefined] and
    nothing is raised. *)
Example eval_unknown_system_variable :
  _eval (EStr "%(9)") runtime0 = Ok VUndef runtime0.
Proof. reflexivity. Qed.

Example eval_undefined_user_variable :
  _eval (EStr "&a") runtime0 = Ok VUndef runtime0.
Proof. reflexivity. Qed.

Example eval_unhandled_operator :
  _eval (EBin "^" (ENum 2) (ENum 3)) runtime0 = Throw (UnhandledOperation "^") runtime0.
Proof. reflexivity. Qed.

(** A successful system-variable read sets the flag. *)
Example eval_system_variable :
  _eval (EStr "%(1)") runtime0
  = Ok (VNum 7.5) (set_sysvar_evaluated true runtime0).
Proof. reflexivity. Qed.

End EvaluatorFacts.

Lemma C5_eval_raises_only_on_unhandled_operator_witness :
  (exists v r',
      Sbp._eval (Sbp.EBin "/" (Sbp.EStr "%(1)") (Sbp.ENum 0)) Fixture.runtime0
      = Sbp.Ok v r'
      /\ JS.is_defined v = true)
  /\ Sbp._eval (Sbp.EBin "/" (Sbp.ENum 1) (Sbp.ENum 0)) Fixture.runtime0
     = Sbp.Ok (JS.VNum PrimFloat.infinity) Fixture.runtime0.
Proof.
  destruct (C5_eval_raises_only_on_unhandled_operator
              (Sbp.EBin "/" (Sbp.EStr "%(1)") (Sbp.ENum 0)) Fixture.runtime0)
    as (Hres & Hdiv & _).
  split.
  - exact (Hres eq_refl).
  - apply (Hdiv (Sbp.ENum 1) (Sbp.ENum 0) (JS.VNum 1) (JS.VNum 0)
             Fixture.runtime0 Fixture.runtime0); reflexivity.
Defined.

(** ** The program analyzer *)

Section AnalyzerFacts.
Import JS Sbp Props Fixture.

Lemma set_label_index_twice (m m' : gmap string Z) (r : runtime) :
  set_label_index m' (set_label_index m r) = set_label_index m' r.
Proof. reflexivity. Qed.

(** The label pass succeeds exactly when no label of the remaining lines is
    in the table already, is an inherited name, or occurs twice; the table
    then holds what it held plus those labels. *)
Lemma analyzeLabels_loop_total (lines : list (option stmt)) :
  forall (i : Z) (r : runtime),
    (NoDup (label_names lines)
     /\ (forall k, k ∈ label_names lines -> passes r k = false)
     /\ exists m,
          analyzeLabels_loop i lines r = Ok tt (set_label_index m r)
          /\ forall k, is_Some (m !! k)
                       <-> is_Some (label_index r !! k) \/ k ∈ label_names lines)
    \/ (~ (NoDup (label_names lines)
           /\ forall k, k ∈ label_names lines -> passes r k = false)
        /\ exists r', analyzeLabels_loop i lines r = Throw DuplicateLabel r').
Proof.
  induction lines as [| line rest IH]; intros i r.
  - left. split; [constructor | split; [intros k Hk; inversion Hk |]].
    exists (label_index r). split; [now destruct r |].
    intros k. split; [now left | intros [H | H]; [exact H | inversion H]].
  - destruct line as [[cmd args | var e | cmp s | l | l | | | value | | e | t] |];
      try exact (IH (i + 1) r).
    simpl. unfold bind, get, modify.
    destruct (label_index r !! value) as [j |] eqn:Hv.
    + right. split; [| eauto].
      intros [_ Hfree]. specialize (Hfree value (list_elem_of_here _ _)).
      unfold passes in Hfree. rewrite Hv in Hfree. discriminate.
    + destruct (inherited value) eqn:Hin.
      { right. split; [| unfold throw; eauto].
        intros [_ Hfree]. specialize (Hfree value (list_elem_of_here _ _)).
        unfold passes in Hfree. rewrite Hv, Hin in Hfree. discriminate. }
      destruct (IH (i + 1) (set_label_index (<[value := i]> (label_index r)) r))
        as [(Hnd & Hfree & m & Hrun & Hdom) | (Hbad & r' & Hrun)].
      * assert (Hfresh : value ∉ label_names rest).
        { intros Hin'. specialize (Hfree value Hin'). unfold passes in Hfree.
          simpl in Hfree. rewrite lookup_insert_eq in Hfree. discriminate. }
        left. split; [now constructor | split].
        { intros k [-> | Hk]%elem_of_cons;
            [unfold passes; now rewrite Hv, Hin |].
          specialize (Hfree k Hk). unfold passes in *. simpl in Hfree.
          rewrite lookup_insert_ne in Hfree; [exact Hfree |].
          intros ->. contradiction. }
        exists m. split; [now rewrite Hrun |].
        intros k. rewrite (Hdom k). simpl. rewrite elem_of_cons.
        destruct (decide (value = k)) as [-> | Hne].
        { rewrite lookup_insert_eq. split; [intros _; right; now left | intros _; left; eauto]. }
        rewrite lookup_insert_ne by exact Hne.
        split; [intros [H | H]; [now left | right; now right] |].
        intros [H | [H | H]]; [now left | congruence | now right].
      * right. split; [| eauto].
        intros [Hnd Hfree]. apply Hbad. apply NoDup_cons in Hnd as [Hfresh Hnd].
        split; [exact Hnd |]. intros k Hk. unfold passes. simpl.
        rewrite lookup_insert_ne by (intros ->; contradiction).
        apply Hfree. now right.
Qed.

Lemma check_label_passes (i : Z) (line : stmt) (r : runtime) :
  check_label i line r
  = if passes r (label_key line) then Ok tt r
    else Throw (UndefinedLabel (label_key line) (i + 1)) r.
Proof.
  unfold check_label, passes, bind, get.
  destruct (label_index r !! label_key line); [reflexivity |].
  now destruct (inherited (label_key line)).
Qed.

(** The reference pass succeeds exactly when every key it looks up passes
    the [in] test; otherwise it throws at a look-up that fails, with that
    key and that line number.  It never changes the runtime. *)
Lemma analyzeGOTOs_loop_total (lines : list (option stmt)) :
  forall (i : Z) (r : runtime),
    ((forall ln k, (ln, k) ∈ label_checks i lines -> passes r k = true)
     /\ analyzeGOTOs_loop i lines r = Ok tt r)
    \/ (exists ln k,
          (ln, k) ∈ label_checks i lines
          /\ passes r k = false
          /\ analyzeGOTOs_loop i lines r = Throw (UndefinedLabel k ln) r).
Proof.
  induction lines as [| line rest IH]; intros i r.
  - left. split; [intros ln k H; inversion H | reflexivity].
  - assert (Hcheck : forall key,
               (((forall ln k, (ln, k) ∈ (i + 1, key) :: label_checks (i + 1) rest ->
                               passes r k = true)
                 /\ (if passes r key then analyzeGOTOs_loop (i + 1) rest r
                     else Throw (UndefinedLabel key (i + 1)) r) = Ok tt r)
                \/ (exists ln k,
                      (ln, k) ∈ (i + 1, key) :: label_checks (i + 1) rest
                      /\ passes r k = false
                      /\ (if passes r key then analyzeGOTOs_loop (i + 1) rest r
                          else Throw (UndefinedLabel key (i + 1)) r)
                         = Throw (UndefinedLabel k ln) r))).
    { intros key. destruct (passes r key) eqn:Hk.
      - destruct (IH (i + 1) r) as [[Hall Hrun] | (ln & k & Hin & Hnone & Hrun)].
        + left. split; [| exact Hrun].
          intros ln k [[= -> ->] | Hin]%elem_of_cons; [exact Hk | eauto].
        + right. exists ln, k. split; [now right | now split].
      - right. exists (i + 1), key. split; [now left | now split]. }
    destruct line as [[cmd args | var e | cmp s | l | l | | | value | | e | t] |];
      try exact (IH (i + 1) r).
    + specialize (Hcheck (label_key s)). simpl.
      unfold bind. rewrite check_label_passes.
      now destruct (passes r (label_key s)).
    + specialize (Hcheck l). simpl.
      unfold bind. rewrite check_label_passes. simpl.
      now destruct (passes r l).
    + specialize (Hcheck l). simpl.
      unfold bind. rewrite check_label_passes. simpl.
      now destruct (passes r l).
Qed.

(** Every look-up of the reference pass comes from a [Goto], a [Gosub] or a
    conditional, and its line number is the 1-based position of that
    statement. *)
Lemma label_checks_line (lines : list (option stmt)) :
  forall (i ln : Z) (k : string),
    (ln, k) ∈ label_checks i lines ->
    exists s,
      lines !! Z.to_nat (ln - 1 - i) = Some (Some s)
      /\ i < ln
      /\ (s = SGoto k \/ s = SGosub k
          \/ exists cmp then_stmt, s = SCond cmp then_stmt /\ label_key then_stmt = k).
Proof.
  induction lines as [| line rest IH]; intros i ln k Hin; [inversion Hin |].
  assert (Hrest : (ln, k) ∈ label_checks (i + 1) rest ->
                  exists s,
                    (line :: rest) !! Z.to_nat (ln - 1 - i) = Some (Some s)
                    /\ i < ln
                    /\ (s = SGoto k \/ s = SGosub k
                        \/ exists cmp then_stmt,
                             s = SCond cmp then_stmt /\ label_key then_stmt = k)).
  { intros H. destruct (IH (i + 1) ln k H) as (s & Hs & Hlt & Hkind).
    exists s. split; [| split; [lia | exact Hkind]].
    replace (Z.to_nat (ln - 1 - i)) with (S (Z.to_nat (ln - 1 - (i + 1)))) by lia.
    exact Hs. }
  destruct line as [[cmd args | var e | cmp s | l | l | | | value | | e | t] |];
    simpl in Hin; try (now apply Hrest).
  - apply elem_of_cons in Hin as [[= -> ->] | Hin]; [| now apply Hrest].
    exists (SCond cmp s). replace (i + 1 - 1 - i) with 0 by lia.
    split; [reflexivity | split; [lia | right; right; eauto]].
  - apply elem_of_cons in Hin as [[= -> ->] | Hin]; [| now apply Hrest].
    exists (SGoto l). replace (i + 1 - 1 - i) with 0 by lia.
    split; [reflexivity | split; [lia | now left]].
  - apply elem_of_cons in Hin as [[= -> ->] | Hin]; [| now apply Hrest].
    exists (SGosub l). replace (i + 1 - 1 - i) with 0 by lia.
    split; [reflexivity | split; [lia | right; now left]].
Qed.

(** What the analysis does, in full: it fails exactly when a label occurs
    twice or bears an inherited name, or some [Goto], [Gosub] or
    conditional line looks up a key that is neither a label of the program
    nor an inherited name; for a conditional the key is the label of its
    [stmt] when that is a [Goto] or [Gosub] and ["undefined"] for any other
    statement. *)
Lemma analyze_fails_iff (r : runtime) :
  (exists e r', analyze r = Throw e r')
  <-> ~ NoDup (label_names (program r))
      \/ (exists k, k ∈ label_names (program r) /\ inherited k = true)
      \/ exists ln k, (ln, k) ∈ label_checks 0 (program r)
                     /\ (k ∉ label_names (program r))
                     /\ inherited k = false.
Proof.
  unfold analyze, _analyzeLabels, _analyzeGOTOs, bind, get, modify. simpl.
  destruct (analyzeLabels_loop_total (program r) 0 (set_label_index ∅ r))
    as [(Hnd & Hfree & m & -> & Hdom) | (Hbad & r' & ->)].
  - simpl.
    assert (Hm : forall k, is_Some (m !! k) <-> k ∈ label_names (program r)).
    { intros k. rewrite (Hdom k). simpl. rewrite lookup_empty.
      split; [intros [[? [=]] | H]; exact H | now right]. }
    assert (Hpass : forall k, passes (set_label_index m r) k = true
                              <-> k ∈ label_names (program r) \/ inherited k = true).
    { intros k. unfold passes. simpl. destruct (m !! k) as [j |] eqn:E.
      - split; [intros _; left; apply Hm; rewrite E; eauto | reflexivity].
      - split; [intros H; now right |].
        intros [H | H]; [| exact H].
        apply Hm in H. rewrite E in H. now destruct H. }
    rewrite set_label_index_twice.
    destruct (analyzeGOTOs_loop_total (program r) 0 (set_label_index m r))
      as [[Hall ->] | (ln & k & Hin & Hnone & ->)].
    + split; [intros (e & r' & [=]) |].
      intros [Hdup | [(k & Hk & Hi) | (ln & k & Hin & Hk & Hi)]]; [contradiction | |].
      * specialize (Hfree k Hk). unfold passes in Hfree. simpl in Hfree.
        rewrite lookup_empty, Hi in Hfree. discriminate.
      * exfalso. destruct (proj1 (Hpass k) (Hall ln k Hin)); [contradiction | congruence].
    + split; [| eauto]. intros _. right. right. exists ln, k. split; [exact Hin |].
      split.
      * intros Hk. rewrite (proj2 (Hpass k) (or_introl Hk)) in Hnone. discriminate.
      * destruct (inherited k) eqn:Hi; [| reflexivity].
        rewrite (proj2 (Hpass k) (or_intror Hi)) in Hnone. discriminate.
  - split; [| eauto]. intros _.
    destruct (decide (NoDup (label_names (program r)))) as [Hnd | Hnd]; [| now left].
    right. left.
    assert (Hex : ~ forall k, k ∈ label_names (program r) ->
                              passes (set_label_index ∅ r) k = false)
      by (intros H; apply Hbad; now split).
    clear Hbad. induction (label_names (program r)) as [| k ks IHk].
    + exfalso. apply Hex. intros k Hk. inversion Hk.
    + destruct (inherited k) eqn:Hi.
      * exists k. split; [apply list_elem_of_here | exact Hi].
      * destruct IHk as (k' & Hk' & Hi').
        -- now apply NoDup_cons in Hnd as [_ Hnd].
        -- intros H. apply Hex. intros k0 [-> | Hk0]%elem_of_cons; [| now apply H].
           unfold passes. simpl. now rewrite lookup_empty.
        -- exists k'. split; [now apply list_elem_of_further | exact Hi'].
Qed.

(** A conditional whose [stmt] has no known label is rejected, whatever
    that statement is. *)
Lemma analyzeGOTOs_cond_unknown_key
    (i : Z) (cmp : expr) (s : stmt) (rest : list (option stmt)) (r : runtime) :
  passes r (label_key s) = false ->
  analyzeGOTOs_loop i (Some (SCond cmp s) :: rest) r
  = Throw (UndefinedLabel (label_key s) (i + 1)) r.
Proof. intros H. simpl. unfold bind. now rewrite check_label_passes, H. Qed.

(** C7 (the code departs from it): the one-line program
    [IF 2 > 1 THEN MX,1] has no label and no [Goto] or [Gosub], yet the
    analysis fails: the [cond] case falls through into the label check
    with the [MX] command, whose [label] is [undefined], and the error
    reads "Undefined label undefined on line 1". *)
Theorem C7_analysis_rejects_conditional_command :
  label_names cond_cmd_program = []
  /\ label_checks 0 cond_cmd_program = [(1, "undefined")]
  /\ exists r',
       analyze (set_program cond_cmd_program runtime0)
       = Throw (UndefinedLabel "undefined" 1) r'
       /\ label_index r' = ∅.
Proof.
  split; [reflexivity | split; [reflexivity |]].
  eexists. split; reflexivity.
Qed.

(** The documented failures do happen: a duplicate label, and a [Goto] to
    a label that does not exist, reported with its 1-based line. *)
Example analyze_duplicate_label :
  exists r',
    analyze (set_program [Some (SLabel "a"); Some SComment; Some (SLabel "a")] runtime0)
    = Throw DuplicateLabel r'.
Proof. eexists. vm_compute. reflexivity. Qed.

Example analyze_undefined_goto :
  exists r',
    analyze (set_program [Some (SLabel "a"); None; Some (SGoto "b")] runtime0)
    = Throw (UndefinedLabel "b" 3) r'.
Proof. eexists. vm_compute. reflexivity. Qed.

Example analyze_gosub_program :
  exists r',
    analyze (set_program gosub_program runtime0) = Ok tt r'
    /\ label_index r' !! "sub" = Some 2.
Proof. eexists. split; vm_compute; reflexivity. Qed.

End AnalyzerFacts.

(** ** Command handlers *)

Section HandlerFacts.
Import JS Sbp Props Fixture.

Ltac feed_tac :=
  intros; unfold feed_of, emitted, MX, MY, MZ, MA, MB, MC, M2, M3, M4, M5, M6, MH,
    axis_word, emit_gcode, set_cmd_posx, set_cmd_posy, set_cmd_posz,
    set_cmd_posa, set_cmd_posb, set_cmd_posc, bind, get, modify, ret;
  repeat match goal with
         | |- context [is_defined ?a] => destruct (is_defined a)
         end;
  simpl; rewrite last_snoc; reflexivity.

(** The single-axis moves carry 60 times the speed of their axis. *)
Lemma MX_feed (args : list value) (r : runtime) :
  feed_of (MX args) r = Some (times60 (movexy_speed (settings r))).
Proof. feed_tac. Qed.

Lemma MY_feed (args : list value) (r : runtime) :
  feed_of (MY args) r = Some (times60 (movexy_speed (settings r))).
Proof. feed_tac. Qed.

Lemma MZ_feed (args : list value) (r : runtime) :
  feed_of (MZ args) r = Some (times60 (movez_speed (settings r))).
Proof. feed_tac. Qed.

Lemma MA_feed (args : list value) (r : runtime) :
  feed_of (MA args) r = Some (times60 (movea_speed (settings r))).
Proof. feed_tac. Qed.

Lemma MB_feed (args : list value) (r : runtime) :
  feed_of (MB args) r = Some (times60 (moveb_speed (settings r))).
Proof. feed_tac. Qed.

Lemma MC_feed (args : list value) (r : runtime) :
  feed_of (MC args) r = Some (times60 (movec_speed (settings r))).
Proof. feed_tac. Qed.

(** So do the modal moves [M2] to [M5], with the XY speed. *)
Lemma M2_feed (args : list value) (r : runtime) :
  feed_of (M2 args) r = Some (times60 (movexy_speed (settings r))).
Proof. feed_tac. Qed.

Lemma M3_feed (args : list value) (r : runtime) :
  feed_of (M3 args) r = Some (times60 (movexy_speed (settings r))).
Proof. feed_tac. Qed.

Lemma M4_feed (args : list value) (r : runtime) :
  feed_of (M4 args) r = Some (times60 (movexy_speed (settings r))).
Proof. feed_tac. Qed.

Lemma M5_feed (args : list value) (r : runtime) :
  feed_of (M5 args) r = Some (times60 (movexy_speed (settings r))).
Proof. feed_tac. Qed.

(** [M6] and [MH] splice the speed itself, without the factor. *)
Lemma M6_feed (args : list value) (r : runtime) :
  feed_of (M6 args) r = Some (movexy_speed (settings r)).
Proof. feed_tac. Qed.

Lemma MH_feed (args : list value) (r : runtime) :
  feed_of (MH args) r = Some (movexy_speed (settings r)).
Proof. feed_tac. Qed.

(** C4 (the code departs from it for [M6] and [MH]): with the XY move
    speed set to 5, [MX,10] emits [G1 X10 F300], but [MH] emits
    [G1X0Y0 F5] and [M6,1,2,3,4,5,6] emits [G1X1Y2Z3A4B5C6F5]: the feed
    word is the speed, not 60 times the speed. *)
Theorem C4_M6_and_MH_feed_is_not_scaled :
  movexy_speed (settings runtime0) = VNum 5
  /\ emitted (MX [VNum 10]) runtime0
     = Some [Lit "G1 X"; Val (VNum 10); Lit " F"; Val (VNum 300)]
  /\ emitted (MH []) runtime0
     = Some [Lit "G1X0Y0"; Lit " F"; Val (VNum 5)]
  /\ emitted (M6 [VNum 1; VNum 2; VNum 3; VNum 4; VNum 5; VNum 6]) runtime0
     = Some [Lit "G1"; Lit "X"; Val (VNum 1); Lit "Y"; Val (VNum 2);
             Lit "Z"; Val (VNum 3); Lit "A"; Val (VNum 4);
             Lit "B"; Val (VNum 5); Lit "C"; Val (VNum 6);
             Lit "F"; Val (VNum 5)]
  /\ feed_of (MH []) runtime0 = Some (VNum 5)
  /\ feed_of (M6 [VNum 1; VNum 2; VNum 3; VNum 4; VNum 5; VNum 6]) runtime0
     = Some (VNum 5)
  /\ times60 (movexy_speed (settings runtime0)) = VNum 300.
Proof. repeat split; reflexivity. Qed.

(** Whatever the settings hold on entry, [CG] with option 2 computes the
    same step-over: it first overwrites the cutter diameter with 0.25 and
    the pocket overlap with 10. *)
Lemma CG_stepOver_constant (args : list value) (r : runtime) :
  loose_eq (CG_optCG args) (VNum 2) = true ->
  exists r',
    CG_stepOver args r = Ok (Some (VNum 0.225)) r'
    /\ cutterDia (settings r') = VNum 0.25
    /\ pocketOverlap (settings r') = VNum 10.
Proof.
  intros H. unfold CG_stepOver, CG_entry_settings, bind, modify, get. simpl.
  rewrite H. eexists. repeat split.
Qed.

(** [VC] does store the cutter diameter and the overlap it is given. *)
Lemma VC_sets_cutter (args : list value) (r : runtime) (d : value) :
  arg args 0 = d -> is_defined d = true ->
  exists r', VC args r = Ok tt r' /\ cutterDia (settings r') = d.
Proof.
  intros Hd Hdef. eexists. split; [reflexivity |]. simpl.
  unfold assign_if_defined. now rewrite Hd, Hdef.
Qed.

(** C3 (the code departs from it): after [VC] with cutter diameter 0.5 and
    pocket overlap 20, a [CG] with option 2 computes the step-over 0.225,
    from the 0.25 and 10 it writes into the settings on entry; the
    VC-configured values would give 0.5 * (1 - 20/100) = 0.4. *)
Theorem C3_CG_stepOver_ignores_VC :
  exists r1 r2,
    VC [VNum 0.5; VUndef; VUndef; VUndef; VUndef; VNum 20] runtime0 = Ok tt r1
    /\ cutterDia (settings r1) = VNum 0.5
    /\ pocketOverlap (settings r1) = VNum 20
    /\ CG_stepOver
         [VUndef; VNum 1; VNum 0; VNum 1; VNum 0; VUndef; VUndef; VUndef;
          VUndef; VUndef; VUndef; VNum 2] r1
       = Ok (Some (VNum 0.225)) r2
    /\ cutterDia (settings r2) = VNum 0.25
    /\ pocketOverlap (settings r2) = VNum 10
    /\ (0.5 * (1 - 20 / 100) = 0.4)%float.
Proof. eexists. eexists. repeat split; reflexivity. Qed.

End HandlerFacts.

(** * Further properties *)

(** ** What computations leave alone *)

Section FrameFacts.
Import JS Sbp Props Frame.

Lemma preserves_ret {A : Type} (P : runtime -> runtime -> Prop) (a : A) :
  (forall r, P r r) -> preserves P (ret a).
Proof. intros Hrefl r. apply Hrefl. Qed.

Lemma preserves_throw {A : Type} (P : runtime -> runtime -> Prop) (e : error) :
  (forall r, P r r) -> preserves P (@throw A e).
Proof. intros Hrefl r. apply Hrefl. Qed.

Lemma preserves_get (P : runtime -> runtime -> Prop) :
  (forall r, P r r) -> preserves P get.
Proof. intros Hrefl r. apply Hrefl. Qed.

Lemma preserves_modify (P : runtime -> runtime -> Prop) (f : runtime -> runtime) :
  (forall r, P r (f r)) -> preserves P (modify f).
Proof. intros Hf r. apply Hf. Qed.

Lemma preserves_beyond {A : Type} (P : runtime -> runtime -> Prop) (w : string) :
  preserves P (fun _ => @Beyond A w).
Proof. intros r. exact I. Qed.

Lemma preserves_bind {A B : Type} (P : runtime -> runtime -> Prop)
    (m : M A) (k : A -> M B) :
  (forall r1 r2 r3, P r1 r2 -> P r2 r3 -> P r1 r3) ->
  preserves P m -> (forall a, preserves P (k a)) -> preserves P (bind m k).
Proof.
  intros Htrans Hm Hk r. unfold bind. specialize (Hm r).
  destruct (m r) as [a r1 | e r1 | w]; [| exact Hm | exact I].
  specialize (Hk a r1). destruct (k a r1) as [b r2 | e r2 | w]; eauto.
Qed.

Lemma preserves_weaken {A : Type} (P Q : runtime -> runtime -> Prop) (m : M A) :
  (forall r r', P r r' -> Q r r') -> preserves P m -> preserves Q m.
Proof.
  intros HPQ Hm r. specialize (Hm r). destruct (m r); auto.
Qed.

Lemma only_flag_refl (r : runtime) : only_flag r r.
Proof. now left. Qed.

Lemma only_flag_trans (r1 r2 r3 : runtime) :
  only_flag r1 r2 -> only_flag r2 r3 -> only_flag r1 r3.
Proof.
  intros [-> | ->] [-> | ->]; try (now left); now right.
Qed.

Lemma eval_value_only_flag (s : string) : preserves only_flag (_eval_value s).
Proof.
  intros r. unfold _eval_value.
  destruct (evaluateSystemVariable r s) as [| | []];
    try destruct (evaluateUserVariable r s) as [| | []];
    try (now left); now right.
Qed.

Lemma eval_only_flag (e : expr) : preserves only_flag (_eval e).
Proof.
  induction e as [x | s | op lhs IHl rhs IHr]; simpl.
  - apply preserves_ret, only_flag_refl.
  - apply eval_value_only_flag.
  - destruct (binop op) as [f |]; [| apply preserves_throw, only_flag_refl].
    apply preserves_bind; [exact only_flag_trans | exact IHl |].
    intros a. apply preserves_bind; [exact only_flag_trans | exact IHr |].
    intros b. apply preserves_ret, only_flag_refl.
Qed.

Lemma eval_never_beyond (e : expr) (r : runtime) (w : string) :
  _eval e r <> Beyond w.
Proof.
  pose proof (eval_outcome e r) as H. destruct (first_bad_op e).
  - destruct H as [r' ->]. discriminate.
  - destruct H as (v & r' & ->). discriminate.
Qed.

Lemma finishes_ret {A : Type} (a : A) : finishes (ret a).
Proof. intros r. exists r. left. now exists a. Qed.

Lemma finishes_throw {A : Type} (e : error) : finishes (@throw A e).
Proof. intros r. exists r. right. now exists e. Qed.

Lemma finishes_modify (f : runtime -> runtime) : finishes (modify f).
Proof. intros r. exists (f r). left. now exists tt. Qed.

Lemma finishes_bind {A B : Type} (m : M A) (k : A -> M B) :
  finishes m -> (forall a, finishes (k a)) -> finishes (bind m k).
Proof.
  intros Hm Hk r. unfold finishes_in, bind.
  destruct (Hm r) as (r1 & [[a E] | [e E]]); rewrite E.
  - destruct (Hk a r1) as (r2 & [[b ->] | [e ->]]); exists r2; [left | right]; eauto.
  - exists r1. right. eauto.
Qed.

Lemma eval_finishes (e : expr) : finishes (_eval e).
Proof.
  intros r. pose proof (eval_outcome e r) as H. destruct (first_bad_op e).
  - destruct H as [r' H]. exists r'. right. eauto.
  - destruct H as (v & r' & H). exists r'. left. eauto.
Qed.

End FrameFacts.

Section HandlerSteps.
Import JS Sbp Props Frame Jog.

Ltac unfold_handlers :=
  unfold MX, MY, MZ, MA, MB, MC, M2, M3, M4, M5, M6, MH, MS, VC,
    JX, JY, JZ, JA, JB, JC, J2, J3, J4, J5, J6, JH,
    axis_word, emit_gcode, set_cmd_posx, set_cmd_posy, set_cmd_posz,
    set_cmd_posa, set_cmd_posb, set_cmd_posc, bind, get, modify, ret.

Ltac split_defined :=
  repeat match goal with
         | |- context [is_defined ?a] => destruct (is_defined a) eqn:?
         end.

(** Each move and jog handler returns, having appended one line and set, at
    most, the commanded position. *)
Lemma motion_one_line (name : string) (f : list value -> M unit)
    (args : list value) (r : runtime) :
  In (name, f) motion_handlers ->
  exists line pos,
    f args r
    = Ok tt (set_cmd_pos pos (set_current_chunk (current_chunk r ++ [line]) r)).
Proof.
  unfold motion_handlers. simpl. intros H.
  repeat (destruct H as [[= <- <-] | H];
          [ unfold_handlers; simpl; split_defined; simpl;
            eexists; eexists; reflexivity
          |]).
  contradiction.
Qed.

Lemma one_line_handler_step (line : gcode) (pos : cmd_position) (r : runtime) :
  handler_step r (set_cmd_pos pos (set_current_chunk (current_chunk r ++ [line]) r)).
Proof.
  unfold handler_step, base_step, keeps_tables, chunk_grows, same_stack. simpl.
  repeat split. now exists [line].
Qed.

Lemma motion_handler_step (name : string) (f : list value -> M unit)
    (args : list value) :
  In (name, f) motion_handlers -> preserves handler_step (f args).
Proof.
  intros H r. destruct (motion_one_line name f args r H) as (line & pos & ->).
  apply one_line_handler_step.
Qed.

Lemma settings_handler_step (s : sbp_settings) (r : runtime) :
  handler_step r (set_settings s r).
Proof.
  unfold handler_step, base_step, keeps_tables, chunk_grows, same_stack. simpl.
  repeat split. exists []. now rewrite app_nil_r.
Qed.

Lemma MS_handler_step (args : list value) : preserves handler_step (MS args).
Proof. intros r. apply settings_handler_step. Qed.

Lemma VC_handler_step (args : list value) : preserves handler_step (VC args).
Proof. intros r. apply settings_handler_step. Qed.

Lemma CG_handler_step (args : list value) : preserves handler_step (CG args).
Proof.
  intros r. unfold CG, CG_stepOver, CG_entry_settings, bind, modify, get, ret.
  now destruct (loose_eq (CG_optCG args) (VNum 2)).
Qed.

Ltac frame_goal :=
  unfold handler_step, base_step, keeps_tables, chunk_grows, same_stack; simpl;
  repeat split;
  first [ exists []; now rewrite app_nil_r
        | eexists; reflexivity
        | eexists; rewrite <- app_assoc; reflexivity ].

(** The plain handlers return from every runtime and respect the handler
    frame. *)
Lemma plain_handler_ends (f : list value -> M unit) (args : list value)
    (r : runtime) :
  In f plain_handlers ->
  exists r', f args r = Ok tt r' /\ handler_step r r'.
Proof.
  unfold plain_handlers. simpl. intros H.
  repeat (destruct H as [<- | H];
          [ unfold no_body, MS, VC, ZT, SA, SR, ST, EP, C6, C7,
              emit_gcode, bind, get, modify, ret;
            simpl; eexists; (split; [reflexivity | frame_goal])
          |]).
  contradiction.
Qed.

(** [JS] and [VS] finish from every runtime: they return where no jog
    speed is given, and otherwise throw at the first call of
    [this.command], having changed settings only. *)
Lemma jog_speed_ends (f : list value -> M unit) (args : list value)
    (r : runtime) :
  f = JS \/ f = VS ->
  exists st,
    f args r = Ok tt (set_settings st r)
    \/ exists e, f args r = Throw e (set_settings st r).
Proof.
  intros [-> | ->];
    unfold JS, VS, set_jogxy_speed, set_jogz_speed, set_joga_speed,
      set_jogb_speed, set_jogc_speed, command, bind, get, modify, ret, throw;
    simpl; split_defined; simpl;
    first [ exists (settings r); left; now destruct r
          | eexists; left; reflexivity
          | eexists; right; eexists; reflexivity ].
Qed.

(** The table of embedded handlers, entry by entry: each is a method of one
    parameter, is what [handler] finds, and is a move or a jog, a plain
    handler, or [JS] or [VS] under its own name. *)
Lemma embedded_cases (name : string) (f : list value -> M unit) :
  assoc name embedded_handlers = Some f ->
  method_length name = Some 1%nat
  /\ handler name = Some f
  /\ ((exists nm, In (nm, f) motion_handlers)
      \/ In f plain_handlers
      \/ (sets_jog_speed (SCmd name []) = true /\ (f = JS \/ f = VS))).
Proof.
  unfold embedded_handlers. simpl.
  repeat (destruct (String.eqb name _) eqn:E;
          [ apply String.eqb_eq in E; subst name; intros [= <-];
            split; [reflexivity |]; split; [reflexivity |];
            first [ solve [ left; eexists; unfold motion_handlers; simpl;
                            repeat (first [left; reflexivity | right]) ]
                  | solve [ right; left; unfold plain_handlers; simpl;
                            repeat (first [left; reflexivity | right]) ]
                  | solve [ right; right; split; [reflexivity |];
                            first [left; reflexivity | right; reflexivity] ] ]
          | clear E ]).
  discriminate.
Qed.

Lemma handler_cases (name : string) (f : list value -> M unit) :
  handler name = Some f ->
  assoc name embedded_handlers = Some f \/ f = CG.
Proof.
  unfold handler, embedded_handlers. simpl.
  repeat (destruct (String.eqb name _);
          [ intros [= <-]; first [left; reflexivity | right; reflexivity] |]).
  discriminate.
Qed.

(** An embedded handler finishes from every runtime and respects the
    handler frame. *)
Lemma embedded_handler_ends (name : string) (f : list value -> M unit)
    (args : list value) (r : runtime) :
  assoc name embedded_handlers = Some f ->
  exists r', finishes_in (f args) r r' /\ handler_step r r'.
Proof.
  intros H. destruct (embedded_cases name f H) as (_ & _ & [[nm Hm] | [Hp | [_ Hj]]]).
  - destruct (motion_one_line nm f args r Hm) as (line & pos & E).
    eexists. split; [left; exists tt; exact E | apply one_line_handler_step].
  - destruct (plain_handler_ends f args r Hp) as (r' & E & Hs).
    exists r'. split; [left; exists tt; exact E | exact Hs].
  - destruct (jog_speed_ends f args r Hj) as (st & [E | [e E]]);
      exists (set_settings st r);
      (split; [| apply settings_handler_step]); [left | right]; eauto.
Qed.

(** Of the handlers, only [JS] and [VS] throw, and they have changed
    settings only. *)
Lemma handler_throws (name : string) (f : list value -> M unit)
    (args : list value) (r r' : runtime) (e : error) :
  handler name = Some f ->
  f args r = Throw e r' ->
  sets_jog_speed (SCmd name []) = true /\ exists st, r' = set_settings st r.
Proof.
  intros H Ht. destruct (handler_cases name f H) as [He | ->].
  - destruct (embedded_cases name f He) as (_ & _ & [[nm Hm] | [Hp | [Hn Hj]]]).
    + destruct (motion_one_line nm f args r Hm) as (line & pos & E). congruence.
    + destruct (plain_handler_ends f args r Hp) as (r1 & E & _). congruence.
    + split; [exact Hn |].
      destruct (jog_speed_ends f args r Hj) as (st & [E | [e' E]]);
        [congruence |].
      exists st. congruence.
  - revert Ht. unfold CG, CG_stepOver, CG_entry_settings, bind, modify, get, ret.
    simpl. destruct (loose_eq _ _); discriminate.
Qed.

(** Every handler of the dispatch table respects the handler frame. *)
Lemma handler_handler_step (name : string) (f : list value -> M unit)
    (args : list value) :
  handler name = Some f -> preserves handler_step (f args).
Proof.
  intros H. destruct (handler_cases name f H) as [He | ->];
    [| apply CG_handler_step].
  intros r. destruct (embedded_handler_ends name f args r He) as (r' & Hf & Hs).
  destruct Hf as [[a ->] | [e ->]]; exact Hs.
Qed.

End HandlerSteps.

Section ExecuteFrame.
Import JS Sbp Props Frame Jog.
Variable sb3_commands : gmap string (list (option expr)).

Lemma preserves_finishes {A : Type} (P : runtime -> runtime -> Prop) (m : M A) :
  preserves P m <-> forall r r', finishes_in m r r' -> P r r'.
Proof.
  split.
  - intros Hm r r' [[a H] | [e H]]; specialize (Hm r); now rewrite H in Hm.
  - intros H r. destruct (m r) as [a r' | e r' | w] eqn:E; [| | exact I].
    + apply H. left. eauto.
    + apply H. right. eauto.
Qed.

Lemma preserves_bind_gen {A B : Type} (P Q R : runtime -> runtime -> Prop)
    (m : M A) (k : A -> M B) :
  (forall r r', P r r' -> R r r') ->
  (forall r1 r2 r3, P r1 r2 -> Q r2 r3 -> R r1 r3) ->
  preserves P m -> (forall a, preserves Q (k a)) -> preserves R (bind m k).
Proof.
  intros HPR Hcomp Hm Hk r. unfold bind. specialize (Hm r).
  destruct (m r) as [a r1 | e r1 | w]; [| now apply HPR | exact I].
  specialize (Hk a r1). destruct (k a r1) as [b r2 | e r2 | w]; eauto.
Qed.

Lemma chunk_grows_refl (r : runtime) : chunk_grows r r.
Proof. exists []. now rewrite app_nil_r. Qed.

Lemma chunk_grows_trans (r1 r2 r3 : runtime) :
  chunk_grows r1 r2 -> chunk_grows r2 r3 -> chunk_grows r1 r3.
Proof.
  intros [t1 H1] [t2 H2]. exists (t1 ++ t2). now rewrite H2, H1, app_assoc.
Qed.

Lemma keeps_tables_refl (r : runtime) : keeps_tables r r.
Proof. now repeat split. Qed.

Lemma keeps_tables_trans (r1 r2 r3 : runtime) :
  keeps_tables r1 r2 -> keeps_tables r2 r3 -> keeps_tables r1 r3.
Proof.
  intros (A1 & B1 & C1 & D1) (A2 & B2 & C2 & D2).
  repeat split; congruence.
Qed.

Lemma base_step_refl (r : runtime) : base_step r r.
Proof.
  split; [apply keeps_tables_refl | split; [apply chunk_grows_refl | reflexivity]].
Qed.

Lemma base_step_trans (r1 r2 r3 : runtime) :
  base_step r1 r2 -> base_step r2 r3 -> base_step r1 r3.
Proof.
  intros (T1 & C1 & S1) (T2 & C2 & S2). split; [| split].
  - eapply keeps_tables_trans; eauto.
  - eapply chunk_grows_trans; eauto.
  - unfold same_stack in *. congruence.
Qed.

Lemma handler_step_refl (r : runtime) : handler_step r r.
Proof. split; [apply base_step_refl | now repeat split]. Qed.

Lemma handler_step_trans (r1 r2 r3 : runtime) :
  handler_step r1 r2 -> handler_step r2 r3 -> handler_step r1 r3.
Proof.
  intros (B1 & P1 & U1 & F1) (B2 & P2 & U2 & F2). split.
  - eapply base_step_trans; eauto.
  - repeat split; congruence.
Qed.

Lemma only_flag_base (r r' : runtime) : only_flag r r' -> base_step r r'.
Proof.
  intros [-> | ->]; [apply base_step_refl |].
  split; [now repeat split | split; [| reflexivity]].
  exists []. simpl. now rewrite app_nil_r.
Qed.

Lemma incr_pc_base : preserves base_step incr_pc.
Proof.
  intros r. unfold incr_pc, modify.
  split; [now repeat split | split; [| reflexivity]].
  exists []. simpl. now rewrite app_nil_r.
Qed.

Lemma eval_base (e : expr) : preserves base_step (_eval e).
Proof. eapply preserves_weaken; [exact only_flag_base | apply eval_only_flag]. Qed.

Lemma eval_opt_only_flag (e : option expr) : preserves only_flag (_eval_opt e).
Proof.
  destruct e as [e |]; [apply eval_only_flag | apply preserves_ret, only_flag_refl].
Qed.

Lemma eval_all_only_flag (l : list (option expr)) : preserves only_flag (eval_all l).
Proof.
  induction l as [| e l IH]; simpl; [apply preserves_ret, only_flag_refl |].
  apply preserves_bind; [exact only_flag_trans | apply eval_opt_only_flag |].
  intros v. apply preserves_bind; [exact only_flag_trans | exact IH |].
  intros vs. apply preserves_ret, only_flag_refl.
Qed.

Lemma evaluateArguments_only_flag (command : string) (args : list (option expr)) :
  preserves only_flag (_evaluateArguments sb3_commands command args).
Proof. unfold _evaluateArguments. apply eval_all_only_flag. Qed.

Lemma executeCommand_base (cmd : string) (args : list (option expr)) :
  preserves base_step (_executeCommand sb3_commands cmd args).
Proof.
  unfold _executeCommand. destruct (method_length cmd) as [n |].
  - apply preserves_bind; [exact base_step_trans | |].
    + eapply preserves_weaken; [exact only_flag_base |].
      apply evaluateArguments_only_flag.
    + intros vs. destruct (1 <? n)%nat; [apply preserves_beyond |].
      destruct (handler cmd) as [f |] eqn:Hf; [| apply preserves_beyond].
      apply preserves_bind; [exact base_step_trans | |].
      * eapply preserves_weaken; [| apply (handler_handler_step cmd f vs Hf)].
        now intros r r' [H _].
      * intros _. apply preserves_bind; [exact base_step_trans | apply incr_pc_base |].
        intros _. apply preserves_ret, base_step_refl.
  - apply preserves_bind; [exact base_step_trans | apply incr_pc_base |].
    intros _. apply preserves_ret, base_step_refl.
Qed.

Lemma base_exec (r r' : runtime) : base_step r r' -> exec_step r r'.
Proof. intros (T & C & S). split; [exact T | split; [exact C | now left]]. Qed.

Lemma base_then_exec (r1 r2 r3 : runtime) :
  base_step r1 r2 -> exec_step r2 r3 -> exec_step r1 r3.
Proof.
  intros (T1 & C1 & S1) (T2 & C2 & S2). split; [| split].
  - eapply keeps_tables_trans; eauto.
  - eapply chunk_grows_trans; eauto.
  - unfold stack_step, same_stack in *. now rewrite <- S1.
Qed.

(** The straight-line cases of [_execute], which unfold to a fixed run of
    steps. *)
Ltac run_statement :=
  intros r; simpl;
  unfold incr_pc, emit_gcode, bind, get, modify, ret, throw; simpl;
  repeat match goal with
         | |- context [label_index ?r !! ?l] => destruct (label_index r !! l)
         | |- context [inherited ?l] => destruct (inherited l)
         end;
  simpl;
  unfold exec_step, base_step, keeps_tables, chunk_grows, same_stack, stack_step;
  simpl;
  repeat split;
  try first [ exists []; now rewrite app_nil_r | eexists; reflexivity | now left ].

Lemma pause_base (e : option expr) : preserves base_step (execute_stmt sb3_commands (SPause e)).
Proof.
  simpl. apply preserves_bind; [exact base_step_trans | apply incr_pc_base |].
  intros _. apply preserves_bind; [exact base_step_trans | |].
  - destruct e as [e |]; [| apply preserves_ret, base_step_refl].
    destruct (truthy_expr e); [| apply preserves_ret, base_step_refl].
    apply preserves_bind; [exact base_step_trans | apply eval_base |].
    intros v. apply preserves_modify. intros r. unfold base_step, keeps_tables, chunk_grows, same_stack.
    simpl. repeat split. eexists. reflexivity.
  - intros _. apply preserves_ret, base_step_refl.
Qed.

Lemma assign_base (var : string) (e : expr) :
  preserves base_step (execute_stmt sb3_commands (SAssign var e)).
Proof.
  simpl. apply preserves_bind; [exact base_step_trans | apply eval_base |].
  intros v. apply preserves_bind; [exact base_step_trans | |].
  - apply preserves_modify. intros r. unfold base_step, keeps_tables, chunk_grows, same_stack.
    simpl. repeat split. exists []. now rewrite app_nil_r.
  - intros _. apply preserves_bind; [exact base_step_trans | apply incr_pc_base |].
    intros _. apply preserves_ret, base_step_refl.
Qed.

(** A statement that holds no [Gosub] and no [Return] leaves the stack
    alone, besides the tables and the order of the chunk. *)
Lemma execute_stmt_base (s : stmt) :
  touches_stack s = false -> preserves base_step (execute_stmt sb3_commands s).
Proof.
  induction s as [cmd args | var e | cmp s IH | l | l | | | value | | e | t];
    intros Hs; try discriminate.
  - apply executeCommand_base.
  - apply assign_base.
  - simpl. apply preserves_bind; [exact base_step_trans | apply eval_base |].
    intros c. destruct (ToBoolean c); [now apply IH |].
    apply preserves_bind; [exact base_step_trans | apply incr_pc_base |].
    intros _. apply preserves_ret, base_step_refl.
  - run_statement.
  - run_statement.
  - run_statement.
  - run_statement.
  - apply pause_base.
  - run_statement.
Qed.

Lemma execute_stmt_exec (s : stmt) : preserves exec_step (execute_stmt sb3_commands s).
Proof.
  induction s as [cmd args | var e | cmp s IH | l | l | | | value | | e | t];
    try (eapply preserves_weaken; [exact base_exec |];
         apply execute_stmt_base; reflexivity).
  - simpl.
    apply (preserves_bind_gen base_step exec_step exec_step);
      [exact base_exec | exact base_then_exec | apply eval_base |].
    intros c. destruct (ToBoolean c); [exact IH |].
    eapply preserves_weaken; [exact base_exec |].
    apply preserves_bind; [exact base_step_trans | apply incr_pc_base |].
    intros _. apply preserves_ret, base_step_refl.
  - run_statement; right; left; eauto.
  - intros r. simpl. unfold bind, get, modify, ret.
    destruct (stack r) as [| top rest] eqn:E; simpl;
      unfold exec_step, keeps_tables, chunk_grows, stack_step; simpl;
      rewrite ?E; repeat split;
      try (exists []; now rewrite app_nil_r); [now left | right; right; eauto].
Qed.

Lemma execute_exec (command : option stmt) :
  preserves exec_step (_execute sb3_commands command).
Proof.
  destruct command as [s |]; simpl.
  - apply (preserves_bind_gen exec_step base_step exec_step);
      [auto | | apply execute_stmt_exec |].
    + intros r1 r2 r3 (T1 & C1 & S1) (T2 & C2 & S2). split; [| split].
      * eapply keeps_tables_trans; eauto.
      * eapply chunk_grows_trans; eauto.
      * unfold stack_step, same_stack in *. now rewrite S2.
    + intros b. apply preserves_ret, base_step_refl.
  - eapply preserves_weaken; [exact base_exec |].
    apply preserves_bind; [exact base_step_trans | apply incr_pc_base |].
    intros _. apply preserves_ret, base_step_refl.
Qed.

Lemma pc_stays_number_refl (r : runtime) : pc_stays_number r r.
Proof. now intros H. Qed.

Lemma pc_stays_number_trans (r1 r2 r3 : runtime) :
  pc_stays_number r1 r2 -> pc_stays_number r2 r3 -> pc_stays_number r1 r3.
Proof. unfold pc_stays_number. auto. Qed.

Lemma only_flag_pc (r r' : runtime) : only_flag r r' -> pc_stays_number r r'.
Proof. now intros [-> | ->] H. Qed.

Lemma handler_step_pc (r r' : runtime) : handler_step r r' -> pc_stays_number r r'.
Proof. intros (_ & Hpc & _) H. now rewrite Hpc. Qed.

Lemma incr_pc_number : preserves pc_stays_number incr_pc.
Proof. intros r [n Hn]. simpl. rewrite Hn. simpl. eauto. Qed.

Lemma executeCommand_pc (cmd : string) (args : list (option expr)) :
  preserves pc_stays_number (_executeCommand sb3_commands cmd args).
Proof.
  unfold _executeCommand. destruct (method_length cmd) as [n |].
  - apply preserves_bind; [exact pc_stays_number_trans | |].
    + eapply preserves_weaken; [exact only_flag_pc |].
      apply evaluateArguments_only_flag.
    + intros vs. destruct (1 <? n)%nat; [apply preserves_beyond |].
      destruct (handler cmd) as [f |] eqn:Hf; [| apply preserves_beyond].
      apply preserves_bind; [exact pc_stays_number_trans | |].
      * eapply preserves_weaken; [exact handler_step_pc |].
        apply (handler_handler_step cmd f vs Hf).
      * intros _. apply preserves_bind; [exact pc_stays_number_trans | apply incr_pc_number |].
        intros _. apply preserves_ret, pc_stays_number_refl.
  - apply preserves_bind; [exact pc_stays_number_trans | apply incr_pc_number |].
    intros _. apply preserves_ret, pc_stays_number_refl.
Qed.

Lemma eval_pc (e : expr) : preserves pc_stays_number (_eval e).
Proof. eapply preserves_weaken; [exact only_flag_pc | apply eval_only_flag]. Qed.

Ltac pc_statement :=
  intros r; simpl;
  unfold incr_pc, emit_gcode, bind, get, modify, ret, throw; simpl;
  repeat match goal with
         | H : inherited ?l = false |- context [inherited ?l] => rewrite H
         | |- context [label_index ?r !! ?l] => destruct (label_index r !! l)
         end;
  simpl; intros [n Hn]; simpl; rewrite ?Hn; simpl; eauto.

(** Without a [Return] and without a jump to an inherited name, a
    statement leaves a numeric program counter numeric. *)
Lemma execute_stmt_pc (s : stmt) :
  has_return s = false -> jumps_inherited s = false ->
  preserves pc_stays_number (execute_stmt sb3_commands s).
Proof.
  induction s as [cmd args | var e | cmp s IH | l | l | | | value | | e | t];
    intros Hs Hj; try discriminate; simpl in Hj.
  - apply executeCommand_pc.
  - simpl. apply preserves_bind; [exact pc_stays_number_trans | apply eval_pc |].
    intros v. apply preserves_bind; [exact pc_stays_number_trans | |].
    + apply preserves_modify. now intros r H.
    + intros _. apply preserves_bind; [exact pc_stays_number_trans | apply incr_pc_number |].
      intros _. apply preserves_ret, pc_stays_number_refl.
  - simpl. apply preserves_bind; [exact pc_stays_number_trans | apply eval_pc |].
    intros c. destruct (ToBoolean c); [now apply IH |].
    apply preserves_bind; [exact pc_stays_number_trans | apply incr_pc_number |].
    intros _. apply preserves_ret, pc_stays_number_refl.
  - pc_statement.
  - pc_statement.
  - pc_statement.
  - pc_statement.
  - pc_statement.
  - simpl. apply preserves_bind; [exact pc_stays_number_trans | apply incr_pc_number |].
    intros _. apply preserves_bind; [exact pc_stays_number_trans | |].
    + destruct e as [e |]; [| apply preserves_ret, pc_stays_number_refl].
      destruct (truthy_expr e); [| apply preserves_ret, pc_stays_number_refl].
      apply preserves_bind; [exact pc_stays_number_trans | apply eval_pc |].
      intros v. apply preserves_modify. now intros r H.
    + intros _. apply preserves_ret, pc_stays_number_refl.
  - pc_statement.
Qed.

Lemma execute_pc (command : option stmt) :
  (forall s, command = Some s -> has_return s = false) ->
  (forall s, command = Some s -> jumps_inherited s = false) ->
  preserves pc_stays_number (_execute sb3_commands command).
Proof.
  intros H Hj. destruct command as [s |]; simpl.
  - apply preserves_bind;
      [exact pc_stays_number_trans | apply execute_stmt_pc; [now apply H | now apply Hj] |].
    intros b. apply preserves_ret, pc_stays_number_refl.
  - apply preserves_bind; [exact pc_stays_number_trans | apply incr_pc_number |].
    intros _. apply preserves_ret, pc_stays_number_refl.
Qed.

Lemma execute_base (command : option stmt) :
  (forall s, command = Some s -> touches_stack s = false) ->
  preserves base_step (_execute sb3_commands command).
Proof.
  intros H. destruct command as [s |]; simpl.
  - apply preserves_bind; [exact base_step_trans | now apply execute_stmt_base, H |].
    intros b. apply preserves_ret, base_step_refl.
  - apply preserves_bind; [exact base_step_trans | apply incr_pc_base |].
    intros _. apply preserves_ret, base_step_refl.
Qed.

Lemma eval_opt_finishes (e : option expr) : finishes (_eval_opt e).
Proof. destruct e as [e |]; [apply eval_finishes | apply finishes_ret]. Qed.

Lemma eval_all_finishes (l : list (option expr)) : finishes (eval_all l).
Proof.
  induction l as [| e l IH]; simpl; [apply finishes_ret |].
  apply finishes_bind; [apply eval_opt_finishes |].
  intros v. apply finishes_bind; [exact IH |].
  intros vs. apply finishes_ret.
Qed.

Lemma incr_pc_finishes : finishes incr_pc.
Proof. apply finishes_modify. Qed.

(** A supported command runs to its end: the arguments evaluate, the
    handler returns or throws, and nothing is left to a callback. *)
Lemma executeCommand_finishes (cmd : string) (args : list (option expr)) :
  supported_name cmd = true -> finishes (_executeCommand sb3_commands cmd args).
Proof.
  unfold supported_name, _executeCommand.
  destruct (method_length cmd) as [n |] eqn:Hn.
  - destruct (assoc cmd embedded_handlers) as [f |] eqn:Hf; [| discriminate].
    intros _. destruct (embedded_cases cmd f Hf) as (Hl & Hh & _).
    rewrite Hn in Hl. injection Hl as ->. rewrite Hh.
    apply finishes_bind; [apply eval_all_finishes |].
    intros vs. simpl.
    apply finishes_bind.
    + intros r. destruct (embedded_handler_ends cmd f vs r Hf) as (r' & H & _).
      eauto.
    + intros _. apply finishes_bind; [apply incr_pc_finishes |].
      intros _. apply finishes_ret.
  - intros _. apply finishes_bind; [apply incr_pc_finishes |].
    intros _. apply finishes_ret.
Qed.

Ltac end_statement :=
  intros r; unfold finishes_in; simpl;
  unfold incr_pc, emit_gcode, bind, get, modify, ret, throw; simpl;
  repeat match goal with
         | |- context [label_index ?r !! ?l] => destruct (label_index r !! l)
         | |- context [inherited ?l] => destruct (inherited l)
         | |- context [stack ?r] => destruct (stack r)
         end;
  simpl; eexists;
  first [left; eexists; reflexivity | right; eexists; reflexivity].

(** A statement whose commands are supported runs to its end, by returning
    or by throwing. *)
Lemma execute_stmt_finishes (s : stmt) :
  supported_stmt s = true -> finishes (execute_stmt sb3_commands s).
Proof.
  induction s as [cmd args | var e | cmp s IH | l | l | | | value | | e | t];
    intros Hs.
  - now apply executeCommand_finishes.
  - simpl. apply finishes_bind; [apply eval_finishes |].
    intros v. apply finishes_bind; [apply finishes_modify |].
    intros _. apply finishes_bind; [apply incr_pc_finishes |].
    intros _. apply finishes_ret.
  - simpl. apply finishes_bind; [apply eval_finishes |].
    intros c. destruct (ToBoolean c); [now apply IH |].
    apply finishes_bind; [apply incr_pc_finishes |].
    intros _. apply finishes_ret.
  - end_statement.
  - end_statement.
  - end_statement.
  - end_statement.
  - end_statement.
  - end_statement.
  - simpl. apply finishes_bind; [apply incr_pc_finishes |].
    intros _. apply finishes_bind; [| intros _; apply finishes_ret].
    destruct e as [e |]; [| apply finishes_ret].
    destruct (truthy_expr e); [| apply finishes_ret].
    apply finishes_bind; [apply eval_finishes |].
    intros v. apply finishes_modify.
  - end_statement.
Qed.

Lemma execute_finishes (command : option stmt) :
  supported command = true -> finishes (_execute sb3_commands command).
Proof.
  destruct command as [s |]; simpl; intros Hs.
  - apply finishes_bind; [now apply execute_stmt_finishes |].
    intros b. apply finishes_ret.
  - apply finishes_bind; [apply incr_pc_finishes |].
    intros _. apply finishes_ret.
Qed.

(** X2: a statement whose commands are supported runs to its end, by
    returning or by throwing, and leaves the program, the label table, the
    machine status and the chunk offset as they were. *)
Theorem X2_execute_keeps_program_and_labels
    (command : option stmt) (r : runtime) :
  supported command = true ->
  exists r',
    finishes_in (_execute sb3_commands command) r r'
    /\ program r' = program r
    /\ label_index r' = label_index r
    /\ status r' = status r
    /\ start_of_the_chunk r' = start_of_the_chunk r.
Proof.
  intros Hs. destruct (execute_finishes command Hs r) as [r' H].
  exists r'. split; [exact H |].
  destruct (proj1 (preserves_finishes exec_step _) (execute_exec command) r r' H)
    as (T & _ & _).
  exact T.
Qed.

(** X3: a statement whose commands are supported runs to its end and only
    appends to the pending chunk: the lines already there stay, in their
    order, also when the statement throws. *)
Theorem X3_execute_only_appends_gcode
    (command : option stmt) (r : runtime) :
  supported command = true ->
  exists r' tail,
    finishes_in (_execute sb3_commands command) r r'
    /\ current_chunk r' = current_chunk r ++ tail.
Proof.
  intros Hs. destruct (execute_finishes command Hs r) as [r' H].
  destruct (proj1 (preserves_finishes exec_step _) (execute_exec command) r r' H)
    as (_ & [tail C] & _).
  exists r', tail. split; [exact H | exact C].
Qed.

(** X4: a statement whose commands are supported runs to its end and moves
    the return stack by one entry at most; one that is neither a [Gosub]
    nor a [Return], nor a conditional leading to one, leaves the stack as
    it is. *)
Theorem X4_execute_stack_discipline
    (command : option stmt) (r : runtime) :
  supported command = true ->
  exists r',
    finishes_in (_execute sb3_commands command) r r'
    /\ (stack r' = stack r
        \/ (exists x, stack r' = x :: stack r)
        \/ (exists x, stack r = x :: stack r'))
    /\ ((forall s, command = Some s -> touches_stack s = false) ->
        stack r' = stack r).
Proof.
  intros Hs. destruct (execute_finishes command Hs r) as [r' H].
  exists r'. split; [exact H |]. split.
  - destruct (proj1 (preserves_finishes exec_step _) (execute_exec command) r r' H)
      as (_ & _ & S).
    exact S.
  - intros Ht.
    destruct (proj1 (preserves_finishes base_step _) (execute_base command Ht) r r' H)
      as (_ & _ & S).
    exact S.
Qed.

(** X5: a statement whose commands are supported, that holds no [Return]
    and jumps to no name the label table inherits from [Object.prototype],
    runs to its end and takes a numeric [pc] to a numeric [pc], whether it
    returns or throws. *)
Theorem X5_pc_stays_a_number_without_return
    (command : option stmt) (r : runtime) (n : Z) :
  supported command = true ->
  (forall s, command = Some s -> has_return s = false) ->
  (forall s, command = Some s -> jumps_inherited s = false) ->
  pc r = PNum n ->
  exists r' n',
    finishes_in (_execute sb3_commands command) r r' /\ pc r' = PNum n'.
Proof.
  intros Hs Hr Hj Hn. destruct (execute_finishes command Hs r) as [r' H].
  destruct (proj1 (preserves_finishes pc_stays_number _)
              (execute_pc command Hr Hj) r r' H) as [n' Hn'];
    [eauto |].
  exists r', n'. split; [exact H | exact Hn'].
Qed.

End ExecuteFrame.

Lemma X2_execute_keeps_program_and_labels_witness :
  exists r',
    Frame.finishes_in
      (Sbp._execute Fixture.commands0 (Some (Sbp.SCmd "VS" [None; None; None; None; None; Some (Sbp.ENum 3)])))
      Fixture.gosub_runtime r'
    /\ Sbp.program r' = Sbp.program Fixture.gosub_runtime
    /\ Sbp.label_index r' = Sbp.label_index Fixture.gosub_runtime
    /\ Sbp.status r' = Sbp.status Fixture.gosub_runtime
    /\ Sbp.start_of_the_chunk r' = Sbp.start_of_the_chunk Fixture.gosub_runtime.
Proof.
  apply (X2_execute_keeps_program_and_labels Fixture.commands0
           (Some (Sbp.SCmd "VS" [None; None; None; None; None; Some (Sbp.ENum 3)]))
           Fixture.gosub_runtime).
  reflexivity.
Defined.

Lemma X3_execute_only_appends_gcode_witness :
  exists r' tail,
    Frame.finishes_in
      (Sbp._execute Fixture.commands0 (Some (Sbp.SCmd "C6" [])))
      Fixture.runtime0 r'
    /\ Sbp.current_chunk r' = Sbp.current_chunk Fixture.runtime0 ++ tail.
Proof.
  apply (X3_execute_only_appends_gcode Fixture.commands0
           (Some (Sbp.SCmd "C6" [])) Fixture.runtime0).
  reflexivity.
Defined.

Lemma X4_execute_stack_discipline_witness :
  exists r',
    Frame.finishes_in
      (Sbp._execute Fixture.commands0 (Some (Sbp.SGoto "sub"))) Fixture.gosub_runtime r'
    /\ Sbp.stack r' = Sbp.stack Fixture.gosub_runtime.
Proof.
  destruct (X4_execute_stack_discipline Fixture.commands0
              (Some (Sbp.SGoto "sub")) Fixture.gosub_runtime eq_refl)
    as (r' & H & _ & Hs).
  exists r'. split; [exact H |].
  apply Hs. intros s [= <-]. reflexivity.
Defined.

Lemma X5_pc_stays_a_number_without_return_witness :
  exists r' n',
    Frame.finishes_in
      (Sbp._execute Fixture.commands0 (Some (Sbp.SGosub "sub"))) Fixture.gosub_runtime r'
    /\ Sbp.pc r' = Sbp.PNum n'.
Proof.
  apply (X5_pc_stays_a_number_without_return Fixture.commands0
           (Some (Sbp.SGosub "sub")) Fixture.gosub_runtime 0).
  - reflexivity.
  - intros s [= <-]. reflexivity.
  - intros s [= <-]. reflexivity.
  - reflexivity.
Defined.

(** ** The evaluator and the variable tables *)

Section EvaluatorMore.
Import JS Sbp Props Frame.

Lemma eval_value_pure (s : string) (r : runtime) :
  match_SYSVAR_RE s = None ->
  match _eval_value s r with
  | Ok _ r' => r' = r
  | Throw _ r' => r' = r
  | Beyond _ => True
  end.
Proof.
  intros H. unfold _eval_value, evaluateSystemVariable. rewrite H.
  now destruct (evaluateUserVariable r s) as [| | []].
Qed.

Lemma eval_pure (e : expr) :
  mentions_sysvar e = false -> preserves (fun r r' => r' = r) (_eval e).
Proof.
  induction e as [x | s | op lhs IHl rhs IHr]; simpl; intros H.
  - now apply preserves_ret.
  - intros r. apply eval_value_pure. now destruct (match_SYSVAR_RE s).
  - apply orb_false_iff in H as [Hl Hr].
    destruct (binop op) as [f |]; [| now apply preserves_throw].
    apply preserves_bind; [congruence | now apply IHl |].
    intros a. apply preserves_bind; [congruence | now apply IHr |].
    intros b. now apply preserves_ret.
Qed.

(** X1: evaluating an expression has one side effect at most: it may set
    [sysvar_evaluated].  Every other part of the runtime is as before,
    whether the evaluation returns or throws, and an expression without a
    system-variable reference changes nothing at all. *)
Theorem X1_eval_only_sets_the_flag (e : expr) (r r' : runtime) :
  finishes_in (_eval e) r r' ->
  (r' = r \/ r' = set_sysvar_evaluated true r)
  /\ (mentions_sysvar e = false -> r' = r).
Proof.
  intros H. split.
  - exact (proj1 (preserves_finishes only_flag (_eval e)) (eval_only_flag e) r r' H).
  - intros Hm.
    exact (proj1 (preserves_finishes _ (_eval e)) (eval_pure e Hm) r r' H).
Qed.

End EvaluatorMore.

Lemma X1_eval_only_sets_the_flag_witness :
  (Sbp.set_sysvar_evaluated true Fixture.runtime0 = Fixture.runtime0
   \/ Sbp.set_sysvar_evaluated true Fixture.runtime0
      = Sbp.set_sysvar_evaluated true Fixture.runtime0)
  /\ (Frame.mentions_sysvar (Sbp.EBin "+" (Sbp.EStr "%(1)") (Sbp.ENum 1)) = false ->
      Sbp.set_sysvar_evaluated true Fixture.runtime0 = Fixture.runtime0).
Proof.
  apply (X1_eval_only_sets_the_flag
           (Sbp.EBin "+" (Sbp.EStr "%(1)") (Sbp.ENum 1)) Fixture.runtime0).
  left. eexists. reflexivity.
Defined.

(** ** Handlers *)

Section HandlersMore.
Import JS Sbp Props Frame Jog.

Ltac unfold_handlers :=
  unfold MX, MY, MZ, MA, MB, MC, M2, M3, M4, M5, M6, MH, MS, VC,
    JX, JY, JZ, JA, JB, JC, J2, J3, J4, J5, J6, JH,
    axis_word, emit_gcode, set_cmd_posx, set_cmd_posy, set_cmd_posz,
    set_cmd_posa, set_cmd_posb, set_cmd_posc, bind, get, modify, ret.

Ltac split_defined :=
  repeat match goal with
         | |- context [is_defined ?a] => destruct (is_defined a) eqn:?
         end.

Ltac use_defined :=
  repeat match goal with
         | H : is_defined ?a = _ |- context [is_defined ?a] => rewrite H
         end.

(** X6: the modal handlers [M2]..[M6] and [J2]..[J6] emit one line: the
    G-word, then for each supplied axis, in the order X Y Z A B C, its
    letter and value, then the feed of the handler.  An axis whose argument
    is missing emits no letter and keeps its commanded position; a
    supplied one takes the argument as its commanded position. *)
Theorem X6_modal_handlers_skip_missing_axes
    (h : list value -> M unit) (k : nat) (g : string) (feed : sbp_settings -> gcode)
    (args : list value) (r : runtime) :
  In (h, (k, g, feed)) modal_handlers ->
  exists r',
    h args r = Ok tt r'
    /\ current_chunk r'
       = current_chunk r ++ [[Lit g] ++ axis_words k 0 args ++ feed (settings r)]
    /\ forall i, (i < 6)%nat ->
         axis_pos i (cmd_pos r')
         = if (i <? k)%nat && is_defined (arg args i) then arg args i
           else axis_pos i (cmd_pos r).
Proof.
  unfold modal_handlers. simpl. intros H.
  repeat (destruct H as [[= <- <- <- <-] | H];
          [ unfold_handlers; simpl; split_defined; simpl;
            (eexists; split; [reflexivity |]); simpl;
            (split; [reflexivity |]);
            intros i Hi;
            do 6 (destruct i as [| i]; [simpl; use_defined; reflexivity |]); lia
          |]).
  contradiction.
Qed.

(** X7: each move and jog handler appends exactly one line to the pending
    chunk and may set the commanded position; it changes nothing else of
    the runtime and never fails. *)
Theorem X7_motion_handlers_emit_one_line
    (name : string) (f : list value -> M unit) (args : list value) (r : runtime) :
  In (name, f) motion_handlers ->
  exists line pos,
    f args r
    = Ok tt (set_cmd_pos pos (set_current_chunk (current_chunk r ++ [line]) r)).
Proof. apply motion_one_line. Qed.

(** X8: a jog line never carries a feed word: every jog handler emits a
    line, and no [F] value is spliced into it. *)
Theorem X8_jog_lines_carry_no_feed
    (h : list value -> M unit) (args : list value) (r : runtime) :
  In h jog_handlers ->
  exists line, emitted (h args) r = Some line /\ feed_word line = None.
Proof.
  unfold jog_handlers. simpl. intros H.
  repeat (destruct H as [<- | H];
          [ unfold emitted; unfold_handlers; simpl; split_defined; simpl;
            rewrite last_snoc; eexists; split; reflexivity
          |]).
  contradiction.
Qed.

Lemma MS_then (A : Type) (speeds : list value) (k : M A) (r : runtime) :
  (MS speeds ;;; k) r
  = k (set_settings
         {| movexy_speed := assign_if_defined (arg speeds 0) (movexy_speed (settings r));
            movez_speed := assign_if_defined (arg speeds 1) (movez_speed (settings r));
            movea_speed := assign_if_defined (arg speeds 2) (movea_speed (settings r));
            moveb_speed := assign_if_defined (arg speeds 3) (moveb_speed (settings r));
            movec_speed := assign_if_defined (arg speeds 4) (movec_speed (settings r));
            cutterDia := cutterDia (settings r);
            pocketOverlap := pocketOverlap (settings r);
            safeZpullUp := safeZpullUp (settings r);
            safeApullUp := safeApullUp (settings r);
            plungeDir := plungeDir (settings r);
            jogxy_speed := jogxy_speed (settings r);
            jogz_speed := jogz_speed (settings r);
            joga_speed := joga_speed (settings r);
            jogb_speed := jogb_speed (settings r);
            jogc_speed := jogc_speed (settings r) |} r).
Proof. reflexivity. Qed.

(** X9: after [MS] has set the speed of an axis, the next single-axis move
    on that axis ([MX], [MY] with the first argument of [MS], [MZ] with the
    second, [MA], [MB], [MC] with the third to fifth) carries 60 times that
    speed as its feed. *)
Theorem X9_MS_sets_the_feed_of_the_next_move
    (h : list value -> M unit) (i : nat) (speeds args : list value) (r : runtime) :
  In (h, i) axis_moves ->
  is_defined (arg speeds i) = true ->
  feed_of (MS speeds ;;; h args) r = Some (times60 (arg speeds i)).
Proof.
  unfold axis_moves. simpl. intros H Hdef.
  repeat (destruct H as [[= <- <-] | H];
          [ unfold feed_of, emitted; rewrite MS_then;
            unfold_handlers; simpl; rewrite last_snoc; simpl;
            unfold assign_if_defined; now rewrite Hdef
          |]).
  contradiction.
Qed.

(** X10: a speed written by [MS] reads back through its system variable:
    [%(71)] and [%(72)] give the first argument of [MS], [%(73)] to [%(76)]
    the second to fifth; the read goes through [parseFloat] and sets
    [sysvar_evaluated]. *)
Theorem X10_MS_speed_reads_back_as_system_variable
    (sel : string) (i : nat) (speeds : list value) (r : runtime) :
  In (sel, i) speed_selectors ->
  is_defined (arg speeds i) = true ->
  exists r',
    (MS speeds ;;; _eval (EStr sel)) r
    = Ok (VNum (parseFloat_val (arg speeds i))) r'
    /\ sysvar_evaluated r' = true.
Proof.
  unfold speed_selectors. simpl. intros H Hdef.
  repeat (destruct H as [[= <- <-] | H];
          [ rewrite MS_then; simpl; unfold _eval_value; simpl;
            unfold assign_if_defined; rewrite Hdef;
            destruct (arg speeds _) as [| x | b];
            [discriminate | eexists; split; reflexivity ..]
          |]).
  contradiction.
Qed.

End HandlersMore.

Lemma X6_modal_handlers_skip_missing_axes_witness :
  exists r',
    Sbp.M3 [JS.VNum 1; JS.VUndef; JS.VNum 3] Fixture.runtime0 = Sbp.Ok tt r'
    /\ Sbp.current_chunk r'
       = [[Sbp.Lit "G1"; Sbp.Lit "X"; Sbp.Val (JS.VNum 1);
           Sbp.Lit "Z"; Sbp.Val (JS.VNum 3);
           Sbp.Lit "F"; Sbp.Val (JS.VNum 300)]]
    /\ Sbp.cmd_posy (Sbp.cmd_pos r') = JS.VNum 0.
Proof.
  destruct (X6_modal_handlers_skip_missing_axes Sbp.M3 3 "G1"
              (fun s => [Sbp.Lit "F"; Sbp.Val (Sbp.times60 (Sbp.movexy_speed s))])
              [JS.VNum 1; JS.VUndef; JS.VNum 3] Fixture.runtime0)
    as (r' & Hrun & Hchunk & Hpos).
  - right. left. reflexivity.
  - exists r'. split; [exact Hrun | split; [exact Hchunk |]].
    exact (Hpos 1%nat ltac:(lia)).
Defined.

Lemma X7_motion_handlers_emit_one_line_witness :
  exists line pos,
    Sbp.JH [] Fixture.runtime0
    = Sbp.Ok tt
        (Sbp.set_cmd_pos pos
           (Sbp.set_current_chunk
              (Sbp.current_chunk Fixture.runtime0 ++ [line]) Fixture.runtime0)).
Proof.
  apply (X7_motion_handlers_emit_one_line "JH" Sbp.JH [] Fixture.runtime0).
  unfold Jog.motion_handlers. simpl. tauto.
Defined.

Lemma X8_jog_lines_carry_no_feed_witness :
  exists line,
    Props.emitted (Sbp.J2 [JS.VNum 1; JS.VNum 2]) Fixture.runtime0 = Some line
    /\ Props.feed_word line = None.
Proof.
  apply (X8_jog_lines_carry_no_feed Sbp.J2 [JS.VNum 1; JS.VNum 2] Fixture.runtime0).
  unfold Frame.jog_handlers. simpl. tauto.
Defined.

Lemma X9_MS_sets_the_feed_of_the_next_move_witness :
  Props.feed_of
    (Sbp.bind (Sbp.MS [JS.VUndef; JS.VNum 4]) (fun _ => Sbp.MZ [JS.VNum 1]))
    Fixture.runtime0
  = Some (JS.VNum 240).
Proof.
  apply (X9_MS_sets_the_feed_of_the_next_move Sbp.MZ 1
           [JS.VUndef; JS.VNum 4] [JS.VNum 1] Fixture.runtime0).
  - unfold Frame.axis_moves. simpl. tauto.
  - reflexivity.
Defined.

Lemma X10_MS_speed_reads_back_as_system_variable_witness :
  exists r',
    Sbp.bind (Sbp.MS [JS.VNum 8]) (fun _ => Sbp._eval (Sbp.EStr "%(72)"))
      Fixture.runtime0
    = Sbp.Ok (JS.VNum 8) r'
    /\ Sbp.sysvar_evaluated r' = true.
Proof.
  apply (X10_MS_speed_reads_back_as_system_variable "%(72)" 0
           [JS.VNum 8] Fixture.runtime0).
  - unfold Frame.speed_selectors. simpl. tauto.
  - reflexivity.
Defined.

(** ** User variables and command arguments *)

Section ArgumentFacts.
Import JS Sbp Props Frame.
Variable sb3_commands : gmap string (list (option expr)).

Lemma scrub_length (params : list (option expr)) :
  forall args, length (scrub params args) = length params.
Proof.
  induction params as [| p params IH]; intros args; [reflexivity |].
  simpl. now rewrite IH.
Qed.

Lemma scrub_nth (params : list (option expr)) :
  forall (args : list (option expr)) (i : nat),
    (i < length params)%nat ->
    nth i (scrub params args) None
    = if is_given (nth i args None) then nth i args None
      else default_or_undefined (nth i params None).
Proof.
  induction params as [| p params IH]; intros args i Hi; [simpl in Hi; lia |].
  destruct i as [| i].
  - simpl. now destruct args.
  - simpl. rewrite IH by (simpl in Hi; lia). now destruct args; [destruct i |].
Qed.

Lemma eval_all_length (l : list (option expr)) :
  forall (r r' : runtime) (vs : list value),
    eval_all l r = Ok vs r' -> length vs = length l.
Proof.
  induction l as [| e l IH]; intros r r' vs H.
  - now injection H as <- _.
  - simpl in H. unfold bind in H.
    destruct (_eval_opt e r) as [v r1 | |]; [| discriminate ..].
    destruct (eval_all l r1) as [vs' r2 | |] eqn:E; [| discriminate ..].
    injection H as <- _. simpl. f_equal. exact (IH _ _ _ E).
Qed.

Lemma eval_all_undefined (l : list (option expr)) :
  forall (r r' : runtime) (vs : list value) (i : nat),
    eval_all l r = Ok vs r' ->
    (i < length l)%nat -> nth i l None = None -> arg vs i = VUndef.
Proof.
  induction l as [| e l IH]; intros r r' vs i H Hi Hn; [simpl in Hi; lia |].
  simpl in H. unfold bind in H.
  destruct (_eval_opt e r) as [v r1 | |] eqn:Ee; [| discriminate ..].
  destruct (eval_all l r1) as [vs' r2 | |] eqn:E; [| discriminate ..].
  injection H as <- _. destruct i as [| i].
  - simpl in Hn. subst e. now injection Ee as <- _.
  - simpl in *. apply (IH _ _ _ _ E); [lia | exact Hn].
Qed.

(** X11: a user variable that was assigned a defined value reads back as
    that value passed through [parseFloat]: a number comes back as itself
    (with [-0] as [0]), a comparison result as [NaN].  The name has to match
    the user-variable pattern and must hold no system-variable reference. *)
Theorem X11_assigned_variable_reads_back
    (var : string) (e : expr) (v : value) (r r1 : runtime) :
  match_USERVAR_RE var = true ->
  match_SYSVAR_RE var = None ->
  _eval e r = Ok v r1 ->
  is_defined v = true ->
  exists r2,
    execute_stmt sb3_commands (SAssign var e) r = Ok false r2
    /\ _eval (EStr var) r2 = Ok (VNum (parseFloat_val v)) r2.
Proof.
  intros Hu Hs He Hv. simpl. unfold bind. rewrite He. simpl.
  eexists. split; [reflexivity |].
  unfold _eval_value, evaluateSystemVariable, evaluateUserVariable.
  rewrite Hs, Hu. simpl. rewrite lookup_insert_eq.
  now destruct v.
Qed.

(** X12: a handler receives exactly as many arguments as its command
    declares parameters, however many the statement wrote; and where the
    statement gives none (nothing, or an empty text) and the declared
    default is absent or falsy, the handler receives [undefined]. *)
Theorem X12_arguments_fit_the_declared_parameters
    (command : string) (params args : list (option expr))
    (vs : list value) (r r' : runtime) :
  sb3_commands !! command = Some params ->
  _evaluateArguments sb3_commands command args r = Ok vs r' ->
  length vs = length params
  /\ forall i : nat,
       (i < length params)%nat ->
       is_given (nth i args None) = false ->
       default_or_undefined (nth i params None) = None ->
       arg vs i = VUndef.
Proof.
  intros Hc H. unfold _evaluateArguments in H. rewrite Hc in H. split.
  - rewrite (eval_all_length _ _ _ _ H). apply scrub_length.
  - intros i Hi Hg Hd. apply (eval_all_undefined _ _ _ _ _ H).
    + now rewrite scrub_length.
    + rewrite scrub_nth by exact Hi. now rewrite Hg.
Qed.

End ArgumentFacts.

Lemma X11_assigned_variable_reads_back_witness :
  exists r2,
    Sbp.execute_stmt Fixture.commands0
      (Sbp.SAssign "&depth" (Sbp.EBin "*" (Sbp.ENum 2) (Sbp.ENum 0.25)))
      Fixture.runtime0
    = Sbp.Ok false r2
    /\ Sbp._eval (Sbp.EStr "&depth") r2 = Sbp.Ok (JS.VNum 0.5) r2.
Proof.
  apply (X11_assigned_variable_reads_back Fixture.commands0 "&depth"
           (Sbp.EBin "*" (Sbp.ENum 2) (Sbp.ENum 0.25)) (JS.VNum 0.5)
           Fixture.runtime0 Fixture.runtime0);
    reflexivity.
Defined.

Lemma X12_arguments_fit_the_declared_parameters_witness :
  exists vs r',
    Sbp._evaluateArguments Fixture.commands0 "M6"
      [Some (Sbp.ENum 1); None; Some (Sbp.EStr ""); Some (Sbp.ENum 4);
       None; None; Some (Sbp.ENum 7)] Fixture.runtime0
    = Sbp.Ok vs r'
    /\ length vs = 6%nat
    /\ Sbp.arg vs 2 = JS.VUndef.
Proof.
  eexists. eexists. split; [reflexivity |].
  destruct (X12_arguments_fit_the_declared_parameters Fixture.commands0 "M6"
              [None; None; None; None; None; None]
              [Some (Sbp.ENum 1); None; Some (Sbp.EStr ""); Some (Sbp.ENum 4);
               None; None; Some (Sbp.ENum 7)]
              _ Fixture.runtime0 _ eq_refl eq_refl) as [Hlen Hundef].
  split; [exact Hlen |].
  apply (Hundef 2%nat); [simpl; lia | reflexivity | reflexivity].
Defined.

(** ** The analyzer and the jumps it licenses *)

Section AnalyzerMore.
Import JS Sbp Props Frame.
Variable sb3_commands : gmap string (list (option expr)).

Lemma label_at_cons (line : option stmt) (rest : list (option stmt))
    (i j : Z) (name : string) :
  (i <= j /\ (line :: rest) !! Z.to_nat (j - i) = Some (Some (SLabel name)))
  <-> (j = i /\ line = Some (SLabel name))
      \/ (i + 1 <= j /\ rest !! Z.to_nat (j - (i + 1)) = Some (Some (SLabel name))).
Proof.
  destruct (Z.eq_dec j i) as [-> | Hne].
  - replace (i - i) with 0 by lia. simpl. split.
    + intros [_ [= ->]]. now left.
    + intros [[_ ->] | [H _]]; [split; [lia | reflexivity] | lia].
  - split.
    + intros [Hle H]. right. split; [lia |].
      replace (Z.to_nat (j - i)) with (S (Z.to_nat (j - (i + 1)))) in H by lia.
      exact H.
    + intros [[H _] | [Hle H]]; [contradiction |]. split; [lia |].
      replace (Z.to_nat (j - i)) with (S (Z.to_nat (j - (i + 1)))) by lia.
      exact H.
Qed.

(** What the label pass leaves behind when it succeeds: the runtime differs
    in the table only, and the table holds what it held plus each label of
    the remaining lines under the index of its line. *)
Lemma analyzeLabels_loop_table (lines : list (option stmt)) :
  forall (i : Z) (r r' : runtime),
    analyzeLabels_loop i lines r = Ok tt r' ->
    r' = set_label_index (label_index r') r
    /\ forall name j,
         label_index r' !! name = Some j
         <-> label_index r !! name = Some j
             \/ (i <= j /\ lines !! Z.to_nat (j - i) = Some (Some (SLabel name))).
Proof.
  induction lines as [| line rest IH]; intros i r r' H.
  - injection H as <-. split; [now destruct r |].
    intros name j. split; [now left | intros [H | [_ H]]; [exact H | inversion H]].
  - assert (Hskip : (forall name, line <> Some (SLabel name)) ->
                    analyzeLabels_loop (i + 1) rest r = Ok tt r' ->
                    r' = set_label_index (label_index r') r
                    /\ forall name j,
                         label_index r' !! name = Some j
                         <-> label_index r !! name = Some j
                             \/ (i <= j /\ (line :: rest) !! Z.to_nat (j - i)
                                           = Some (Some (SLabel name)))).
    { intros Hline Hrun. destruct (IH _ _ _ Hrun) as [Hr Htab].
      split; [exact Hr |]. intros name j. rewrite Htab, label_at_cons.
      split; [intros [Hl | Hl]; [now left | right; now right] |].
      intros [Hl | [[_ Hl] | Hl]]; [now left | now apply Hline in Hl | now right]. }
    destruct line as [[cmd args | var e | cmp s | l | l | | | value | | e | t] |];
      try (apply Hskip; [intros name; discriminate | exact H]).
    clear Hskip. simpl in H. unfold bind, get, modify in H.
    destruct (label_index r !! value) as [k |] eqn:Hv; [discriminate |].
    destruct (inherited value); [discriminate |].
    destruct (IH _ _ _ H) as [Hr Htab]. simpl in Hr, Htab.
    split; [exact Hr |]. intros name j. rewrite Htab, label_at_cons.
    destruct (decide (value = name)) as [-> | Hne].
    + rewrite lookup_insert_eq, Hv.
      split.
      * intros [[= <-] | Hl]; [right; left; now split | right; now right].
      * intros [[=] | [[-> _] | Hl]]; [now left | now right].
    + rewrite lookup_insert_ne by exact Hne.
      split.
      * intros [Hl | Hl]; [now left | right; now right].
      * intros [Hl | [[_ [= Hl]] | Hl]]; [now left | contradiction | now right].
Qed.

Lemma analyzeLabels_table (r r' : runtime) :
  _analyzeLabels r = Ok tt r' ->
  r' = set_label_index (label_index r') r
  /\ forall name j,
       label_index r' !! name = Some j
       <-> 0 <= j /\ program r !! Z.to_nat j = Some (Some (SLabel name)).
Proof.
  unfold _analyzeLabels, bind, get, modify. simpl. intros H.
  destruct (analyzeLabels_loop_table _ _ _ _ H) as [Hr Htab]. simpl in Hr, Htab.
  split; [exact Hr |]. intros name j. rewrite Htab, lookup_empty.
  replace (j - 0) with j by lia.
  split; [intros [[=] | Hl]; exact Hl | now right].
Qed.

(** A jump statement at line [n], bare or under a conditional, is looked up
    by the reference pass. *)
Lemma label_checks_of_line (lines : list (option stmt)) :
  forall (i : Z) (n : nat) (s : stmt) (label : string),
    lines !! n = Some (Some s) ->
    (s = SGoto label \/ s = SGosub label
     \/ exists cmp, s = SCond cmp (SGoto label) \/ s = SCond cmp (SGosub label)) ->
    (i + Z.of_nat n + 1, label) ∈ label_checks i lines.
Proof.
  induction lines as [| line rest IH]; intros i n s label Hn Hs; [inversion Hn |].
  destruct n as [| n].
  - injection Hn as ->. replace (i + Z.of_nat 0 + 1) with (i + 1) by lia.
    destruct Hs as [-> | [-> | [cmp [-> | ->]]]]; simpl; apply list_elem_of_here.
  - assert (Hrest : (i + Z.of_nat (S n) + 1, label) ∈ label_checks (i + 1) rest).
    { replace (i + Z.of_nat (S n) + 1) with (i + 1 + Z.of_nat n + 1) by lia.
      exact (IH _ _ _ _ Hn Hs). }
    destruct line as [[cmd args | var e | cmp t | l | l | | | value | | e | t] |];
      simpl; try exact Hrest; now apply list_elem_of_further.
Qed.

(** The label pass enters no name that the table inherits. *)
Lemma analyzeLabels_loop_own (lines : list (option stmt)) :
  forall (i : Z) (r r' : runtime),
    analyzeLabels_loop i lines r = Ok tt r' ->
    (forall name, is_Some (label_index r !! name) -> inherited name = false) ->
    forall name, is_Some (label_index r' !! name) -> inherited name = false.
Proof.
  induction lines as [| line rest IH]; intros i r r' H Hown.
  - injection H as <-. exact Hown.
  - destruct line as [[cmd args | var e | cmp s | l | l | | | value | | e | t] |];
      try exact (IH _ _ _ H Hown).
    simpl in H. unfold bind, get, modify in H.
    destruct (label_index r !! value) as [k |] eqn:Hv; [discriminate |].
    destruct (inherited value) eqn:Hi; [discriminate |].
    apply (IH _ _ _ H). simpl. intros name [j Hj].
    destruct (decide (value = name)) as [<- | Hne]; [exact Hi |].
    rewrite lookup_insert_ne in Hj by exact Hne. apply Hown. now exists j.
Qed.

Lemma analyzeLabels_own (r r' : runtime) (name : string) :
  _analyzeLabels r = Ok tt r' ->
  is_Some (label_index r' !! name) -> inherited name = false.
Proof.
  unfold _analyzeLabels, bind, get, modify. simpl. intros H.
  apply (analyzeLabels_loop_own _ _ _ _ H). simpl.
  intros k [j Hj]. now rewrite lookup_empty in Hj.
Qed.

Lemma analyze_ok (r r1 : runtime) :
  analyze r = Ok tt r1 ->
  _analyzeLabels r = Ok tt r1
  /\ forall ln k, (ln, k) ∈ label_checks 0 (program r) -> passes r1 k = true.
Proof.
  unfold analyze, bind. intros H.
  destruct (_analyzeLabels r) as [[] ra | |] eqn:Ea; [| discriminate ..].
  destruct (analyzeLabels_table _ _ Ea) as [Hr _].
  unfold _analyzeGOTOs, bind, get in H.
  assert (Hp : program ra = program r) by (rewrite Hr; reflexivity).
  rewrite Hp in H.
  destruct (analyzeGOTOs_loop_total (program r) 0 ra)
    as [[Hall Hrun] | (ln & k & _ & _ & Hrun)]; rewrite Hrun in H;
    [| discriminate].
  injection H as <-. now split.
Qed.

(** X13: when the label pass succeeds, the table maps a name to an index
    exactly when the statement at that index of the program is the label of
    that name; nothing else in the runtime changes. *)
Theorem X13_label_table_maps_labels_to_their_lines (r r' : runtime) :
  _analyzeLabels r = Ok tt r' ->
  r' = set_label_index (label_index r') r
  /\ forall name j,
       label_index r' !! name = Some j
       <-> 0 <= j /\ program r !! Z.to_nat j = Some (Some (SLabel name)).
Proof. apply analyzeLabels_table. Qed.

(** X14: in a program that passed the analysis, a [Goto] or [Gosub] that
    stands on a line, bare or as the statement of a conditional, does not
    raise when executed under the analysed label table.  Where its name is
    none that the table inherits from [Object.prototype], it sets [pc] to
    the index of the label statement of that name; where it is one, no
    line holds that label and [pc] becomes the inherited function or
    object. *)
Theorem X14_analysed_jump_lands_on_its_label
    (r r1 r2 : runtime) (n : nat) (s jump : stmt) (label : string) :
  analyze r = Ok tt r1 ->
  program r !! n = Some (Some s) ->
  jump = SGoto label \/ jump = SGosub label ->
  s = jump \/ (exists cmp, s = SCond cmp jump) ->
  label_index r2 = label_index r1 ->
  exists r3,
    execute_stmt sb3_commands jump r2 = Ok false r3
    /\ if inherited label then pc r3 = PInherited
       else exists i,
              pc r3 = PNum i
              /\ 0 <= i
              /\ program r !! Z.to_nat i = Some (Some (SLabel label)).
Proof.
  intros Han Hn Hjump Hs Hli.
  destruct (analyze_ok _ _ Han) as [Hlab Hall].
  destruct (analyzeLabels_table _ _ Hlab) as [_ Htab].
  assert (Hin : (0 + Z.of_nat n + 1, label) ∈ label_checks 0 (program r)).
  { apply (label_checks_of_line _ _ _ s _ Hn).
    destruct Hjump as [-> | ->], Hs as [-> | [cmp ->]]; eauto 6. }
  specialize (Hall _ _ Hin). unfold passes in Hall.
  destruct (label_index r1 !! label) as [i |] eqn:Hi.
  - assert (Hown : inherited label = false).
    { apply (analyzeLabels_own _ _ _ Hlab). rewrite Hi. now exists i. }
    apply Htab in Hi as Hline. destruct Hline as [Hpos Hline].
    destruct Hjump as [-> | ->]; simpl; unfold bind, get, modify;
      rewrite Hli, Hi, Hown; eexists; (split; [reflexivity |]);
      exists i; now split.
  - destruct Hjump as [-> | ->]; simpl; unfold bind, get, modify;
      rewrite Hli, Hi, Hall; eexists; split; reflexivity.
Qed.

End AnalyzerMore.

Lemma X13_label_table_maps_labels_to_their_lines_witness :
  exists r',
    Sbp._analyzeLabels (Sbp.set_program Fixture.gosub_program Fixture.runtime0)
    = Sbp.Ok tt r'
    /\ (Sbp.label_index r' !! "sub" = Some 2
        <-> 0 <= 2 /\ Fixture.gosub_program !! Z.to_nat 2
                      = Some (Some (Sbp.SLabel "sub"))).
Proof.
  eexists. split; [reflexivity |].
  apply (X13_label_table_maps_labels_to_their_lines
           (Sbp.set_program Fixture.gosub_program Fixture.runtime0) _ eq_refl).
Defined.

Lemma X14_analysed_jump_lands_on_its_label_witness :
  (exists r3,
     Sbp.execute_stmt Fixture.commands0 (Sbp.SGosub "sub") Fixture.gosub_runtime
     = Sbp.Ok false r3
     /\ exists i,
          Sbp.pc r3 = Sbp.PNum i
          /\ 0 <= i
          /\ Fixture.gosub_program !! Z.to_nat i = Some (Some (Sbp.SLabel "sub")))
  /\ (exists r3,
        Sbp.execute_stmt Fixture.commands0 (Sbp.SGoto "constructor")
          (Sbp.set_program
             [Some (Sbp.SGoto "constructor"); Some (Sbp.SCmd "MX" [Some (Sbp.ENum 1)])]
             Fixture.runtime0)
        = Sbp.Ok false r3
        /\ Sbp.pc r3 = Sbp.PInherited).
Proof.
  split.
  - apply (X14_analysed_jump_lands_on_its_label Fixture.commands0
             (Sbp.set_program Fixture.gosub_program Fixture.runtime0)
             Fixture.gosub_runtime Fixture.gosub_runtime 0
             (Sbp.SGosub "sub") (Sbp.SGosub "sub") "sub").
    + reflexivity.
    + reflexivity.
    + right. reflexivity.
    + left. reflexivity.
    + reflexivity.
  - eapply (X14_analysed_jump_lands_on_its_label Fixture.commands0
              (Sbp.set_program
                 [Some (Sbp.SGoto "constructor"); Some (Sbp.SCmd "MX" [Some (Sbp.ENum 1)])]
                 Fixture.runtime0)
              _ _ 0
              (Sbp.SGoto "constructor") (Sbp.SGoto "constructor") "constructor").
    + reflexivity.
    + reflexivity.
    + left. reflexivity.
    + left. reflexivity.
    + reflexivity.
Defined.

(** ** The run loop *)

Section LoopFacts.
Import JS Sbp Props Frame Jog Engine.
Variable sb3_commands : gmap string (list (option expr)).

Lemma dispatch_cases (e : engine) :
  (current_chunk (rt e) = [] /\ _dispatch e = (false, e))
  \/ (current_chunk (rt e) <> [] /\ _dispatch e = (true, dispatched e)).
Proof.
  unfold _dispatch, dispatched.
  destruct (current_chunk (rt e)); [left | right]; split; auto; discriminate.
Qed.

(** Every round has one of the listed shapes. *)
Lemma round_spec (e : engine) : round_shape sb3_commands e (round sb3_commands e).
Proof.
  assert (Hgo : forall v,
             v = view_pc (pc (rt e)) ->
             round_shape sb3_commands e
               (if program_over v (length (program (rt e))) then
                  match _dispatch e with
                  | (true, e') => inl (Dispatched e')
                  | (false, _) => inl (Ended (_end e))
                  end
                else
                  match fetch v (program (rt e)) with
                  | Missing => inl (TypeError e)
                  | FalsyEntry => inl (Outside "falsy line")
                  | Line line =>
                      if _breaksStack line then
                        match _dispatch e with
                        | (true, e') => inl (Dispatched e')
                        | (false, _) =>
                            match _execute sb3_commands (Some line) (rt e) with
                            | Ok _ r' => inl (InHandler (with_rt r' e))
                            | Throw err r' => inl (Raised err (with_rt r' e))
                            | Beyond w => inl (Outside w)
                            end
                        end
                      else
                        match _execute sb3_commands (Some line) (rt e) with
                        | Ok _ r' => inr (with_rt r' e)
                        | Throw err r' => inl (Raised err (with_rt r' e))
                        | Beyond w => inl (Outside w)
                        end
                  end)).
  { intros v ->.
    destruct (program_over _ _) eqn:Ho.
    - destruct (dispatch_cases e) as [[Hc ->] | [Hc ->]].
      + now apply RoundEnded.
      + apply RoundDispatched; [exact Hc | now left].
    - destruct (fetch _ _) as [line | |] eqn:Hf;
        [| now apply RoundTypeError
         | apply RoundOutside; right; left; now repeat split].
      destruct (_breaksStack line) eqn:Hb.
      + destruct (dispatch_cases e) as [[Hc ->] | [Hc ->]].
        * destruct (_execute sb3_commands (Some line) (rt e)) as [b r' | err r' | w] eqn:He.
          -- now apply (RoundInHandler _ _ line b).
          -- now apply (RoundRaised _ _ line).
          -- apply RoundOutside. right. right. split; [exact Ho |].
             exists line. now repeat split.
        * apply RoundDispatched; [exact Hc | right; eauto].
      + destruct (_execute sb3_commands (Some line) (rt e)) as [b r' | err r' | w] eqn:He.
        * now apply (RoundNext _ _ line b).
        * apply (RoundRaised _ _ line); [exact Ho | exact Hf | congruence | exact He].
        * apply RoundOutside. right. right. split; [exact Ho |].
          exists line. split; [exact Hf | split; [congruence | exact He]]. }
  unfold round.
  destruct (view_pc (pc (rt e))) as [n | |] eqn:Hv;
    [now apply Hgo | now apply Hgo | apply RoundOutside; left; now split].
Qed.

(** What one executed statement does to the engine. *)
Lemma executed_step (e : engine) (line : option stmt) (r' : runtime) :
  finishes_in (_execute sb3_commands line) (rt e) r' ->
  exec_step (rt e) r'.
Proof.
  exact (proj1 (preserves_finishes exec_step _) (execute_exec sb3_commands line) (rt e) r').
Qed.

(** The line the loop fetches is an entry of the program. *)
Lemma line_at_entry (e : engine) :
  match line_at e with
  | Line line => Some line ∈ program (rt e)
  | FalsyEntry => None ∈ program (rt e)
  | Missing => True
  end.
Proof.
  unfold line_at, fetch.
  destruct (view_pc (pc (rt e))) as [n | |]; try exact I.
  destruct (n <? 0); [exact I |].
  destruct (program (rt e) !! Z.to_nat n) as [[line |] |] eqn:E; try exact I;
    exact (list_elem_of_lookup_2 _ _ _ E).
Qed.













(** X18: a [Return] met with an empty stack does not stop the program at
    that statement: it leaves [pc] undefined, and the next round of the
    loop fails with a type error on the line it cannot fetch. *)
Theorem X18_return_on_empty_stack_ends_in_a_type_error
    (fuel : nat) (e : engine) (n : Z) :
  started e = true ->
  pc (rt e) = PNum n ->
  0 <= n ->
  program (rt e) !! Z.to_nat n = Some (Some SReturn) ->
  stack (rt e) = [] ->
  _continue sb3_commands (S (S fuel)) e
  = TypeError (with_rt (set_pc PUndef (rt e)) (_update e)).
Proof.
  intros Hs Hpc Hn Hline Hst. unfold _continue. simpl started. rewrite Hs.
  assert (Hlen : (Z.to_nat n < length (program (rt e)))%nat)
    by (apply lookup_lt_is_Some; eauto).
  unfold continue_loop, round. simpl rt. rewrite Hpc. simpl view_pc.
  unfold program_over.
  destruct (Z.leb_spec (Z.of_nat (length (program (rt e)))) n) as [Hle | _]; [lia |].
  unfold fetch. destruct (Z.ltb_spec n 0) as [Hlt | _]; [lia |].
  rewrite Hline. simpl. unfold bind, get, modify. rewrite Hst. simpl.
  reflexivity.
Qed.

Lemma only_flag_same_pc (r r' : runtime) :
  only_flag r r' -> pc r' = pc r /\ current_chunk r' = current_chunk r.
Proof. intros [-> | ->]; now split. Qed.

Lemma executeCommand_advances (cmd : string) (args : list (option expr))
    (r r' : runtime) (b : bool) (n : Z) :
  pc r = PNum n ->
  _executeCommand sb3_commands cmd args r = Ok b r' ->
  pc r' = PNum (n + 1).
Proof.
  intros Hpc. unfold _executeCommand.
  destruct (method_length cmd) as [k |].
  - unfold bind.
    pose proof (evaluateArguments_only_flag sb3_commands cmd args r) as Hargs.
    destruct (_evaluateArguments sb3_commands cmd args r) as [vs r1 | |];
      [| discriminate ..].
    apply only_flag_same_pc in Hargs as [Hp1 _].
    destruct (1 <? k)%nat; [discriminate |].
    destruct (handler cmd) as [f |] eqn:Hh; [| discriminate].
    pose proof (handler_handler_step _ _ vs Hh r1) as Hf.
    destruct (f vs r1) as [[] r2 | |]; [| discriminate ..].
    destruct Hf as (_ & Hp2 & _). simpl. intros [= _ <-]. simpl.
    now rewrite Hp2, Hp1, Hpc.
  - simpl. intros [= _ <-]. simpl. now rewrite Hpc.
Qed.

(** A statement without a jump in it, when it returns, leaves [pc] one
    further or, for [End], at the length of the program. *)
Lemma straight_advances (s : stmt) :
  straight s = true ->
  forall (r r' : runtime) (b : bool) (n : Z),
    pc r = PNum n ->
    execute_stmt sb3_commands s r = Ok b r' ->
    pc r' = PNum (n + 1)
    \/ exists r0, program r0 = program r
                  /\ pc r' = PNum (Z.of_nat (length (program r0))).
Proof.
  induction s as [cmd args | var e | cmp s IH | l | l | | | value | | e | t];
    intros Hs r r' b n Hpc H; try discriminate.
  - left. exact (executeCommand_advances _ _ _ _ _ _ Hpc H).
  - left. simpl in H. unfold bind in H.
    pose proof (eval_only_flag e r) as He.
    destruct (_eval e r) as [v r1 | |]; [| discriminate ..].
    apply only_flag_same_pc in He as [Hp1 _].
    injection H as _ <-. simpl. now rewrite Hp1, Hpc.
  - simpl in H. unfold bind in H.
    pose proof (eval_only_flag cmp r) as He.
    destruct (_eval cmp r) as [v r1 | |]; [| discriminate ..].
    assert (Hprog : program r1 = program r) by (destruct He as [-> | ->]; reflexivity).
    apply only_flag_same_pc in He as [Hp1 _].
    destruct (ToBoolean v).
    + destruct (IH Hs r1 r' b n) as [Hn | (r0 & Hr0 & Hn)];
        [congruence | exact H | now left | right].
      exists r0. split; [congruence | exact Hn].
    + injection H as _ <-. left. simpl. now rewrite Hp1, Hpc.
  - right. exists r. injection H as _ <-. now split.
  - left. injection H as _ <-. simpl. now rewrite Hpc.
  - left. injection H as _ <-. simpl. now rewrite Hpc.
  - left. simpl in H. unfold bind, incr_pc, modify in H.
    destruct e as [e' |]; [| injection H as _ <-; simpl; now rewrite Hpc].
    destruct (truthy_expr e'); [| injection H as _ <-; simpl; now rewrite Hpc].
    pose proof (eval_only_flag e' (set_pc (pc_add1 (pc r)) r)) as He.
    destruct (_eval e' (set_pc (pc_add1 (pc r)) r)) as [v r1 | |];
      [| discriminate ..].
    apply only_flag_same_pc in He as [Hp1 _].
    injection H as _ <-. simpl in *. now rewrite Hp1, Hpc.
  - left. injection H as _ <-. simpl. now rewrite Hpc.
Qed.

Lemma line_at_index (e : engine) (n : Z) (line : stmt) :
  pc (rt e) = PNum n -> over e = false -> line_at e = Line line ->
  0 <= n < Z.of_nat (length (program (rt e)))
  /\ program (rt e) !! Z.to_nat n = Some (Some line).
Proof.
  unfold over, line_at. intros ->. simpl.
  destruct (Z.leb_spec (Z.of_nat (length (program (rt e)))) n); [discriminate |].
  intros _. destruct (Z.ltb_spec n 0); [discriminate |].
  destruct (program (rt e) !! Z.to_nat n) as [[l |] |]; try discriminate.
  intros [= ->]. split; [lia | reflexivity].
Qed.

Lemma steady_entry (lines : list (option stmt)) (line : option stmt) :
  forallb steady_line lines = true -> line ∈ lines ->
  exists s, line = Some s /\ supported_stmt s = true /\ straight s = true.
Proof.
  intros Hall Hin. apply list_elem_of_In in Hin.
  pose proof (proj1 (forallb_forall _ _) Hall _ Hin) as H.
  destruct line as [s |]; [| discriminate].
  apply andb_true_iff in H. now exists s.
Qed.

Lemma loop_terminates (fuel : nat) :
  forall (e : engine) (n : Z),
    pc (rt e) = PNum n ->
    forallb steady_line (program (rt e)) = true ->
    (Z.to_nat (Z.of_nat (length (program (rt e))) - n) < fuel)%nat ->
    ended (continue_loop sb3_commands fuel e) = true.
Proof.
  induction fuel as [| fuel IH]; intros e n Hpc Hst Hfuel; [lia |].
  simpl. destruct (round sb3_commands e) as [res | e1] eqn:R.
  - destruct res as [| | | | | | w |] eqn:Hres; try reflexivity.
    + pose proof (round_spec e) as S. rewrite R in S.
      inversion S as [| | | | | | w' [[Hv _] | [(_ & Hl & _) | (_ & l & Hl & _ & Hx)]]];
        subst.
      * rewrite Hpc in Hv. simpl in Hv. discriminate.
      * pose proof (line_at_entry e) as Hin. rewrite Hl in Hin.
        destruct (steady_entry _ _ Hst Hin) as (s & [=] & _).
      * pose proof (line_at_entry e) as Hin. rewrite Hl in Hin.
        destruct (steady_entry _ _ Hst Hin) as (s & [= <-] & Hs & _).
        destruct (execute_finishes sb3_commands (Some l) Hs (rt e))
          as (r' & [[b Hb] | [err Herr]]); congruence.
    + pose proof (round_spec e) as S. rewrite R in S. inversion S.
  - pose proof (round_spec e) as S. rewrite R in S.
    inversion S as [line b r' Ho Hl Hb He | | | | | |]; subst.
    destruct (line_at_index _ _ _ Hpc Ho Hl) as [Hn Hline].
    destruct (executed_step e (Some line) r') as ((Hprog & _) & _ & _);
      [left; eauto |].
    destruct (steady_entry _ _ Hst (list_elem_of_lookup_2 _ _ _ Hline))
      as (s & [= <-] & _ & Hstr).
    simpl in He. unfold bind in He.
    destruct (execute_stmt sb3_commands line (rt e)) as [b' r1 | |] eqn:Hx;
      [| discriminate ..].
    injection He as _ ->.
    destruct (straight_advances line Hstr _ _ _ _ Hpc Hx)
      as [Hn' | (r0 & Hr0 & Hn')].
    + apply (IH _ (n + 1)); simpl; [exact Hn' | now rewrite Hprog |].
      rewrite Hprog. lia.
    + apply (IH _ (Z.of_nat (length (program (rt e))))); simpl;
        [now rewrite Hn', Hr0 | now rewrite Hprog |].
      rewrite Hprog. lia.
Qed.

(** X19: a program of supported statements without [Goto], [Gosub] and
    [Return] cannot keep [_continue] looping: with [pc] at [n], within
    [length - n + 1] rounds of its loop the call has come to an end, by
    ending or dispatching the program or by raising. *)
Theorem X19_jump_free_program_leaves_the_loop
    (fuel : nat) (e : engine) (n : Z) :
  pc (rt e) = PNum n ->
  forallb steady_line (program (rt e)) = true ->
  (Z.to_nat (Z.of_nat (length (program (rt e))) - n) < fuel)%nat ->
  ended (_continue sb3_commands fuel e) = true.
Proof.
  intros Hpc Hst Hfuel. unfold _continue. simpl.
  destruct (started e); [| reflexivity].
  now apply (loop_terminates fuel (_update e) n).
Qed.

Lemma only_labels_refl (r : runtime) : only_labels r r.
Proof. now destruct r. Qed.

Lemma analyzeLabels_loop_only_labels (lines : list (option stmt)) :
  forall i, preserves only_labels (analyzeLabels_loop i lines).
Proof.
  induction lines as [| line rest IH]; intros i r; [apply only_labels_refl |].
  destruct line as [[cmd args | var e | cmp s | l | l | | | value | | e | t] |];
    try exact (IH (i + 1) r).
  simpl. unfold bind, get, modify.
  destruct (label_index r !! value); [apply only_labels_refl |].
  destruct (inherited value); [apply only_labels_refl |].
  exact (IH (i + 1) (set_label_index (<[value := i]> (label_index r)) r)).
Qed.

Lemma analyze_only_labels : preserves only_labels analyze.
Proof.
  intros r. unfold analyze, _analyzeLabels, _analyzeGOTOs, bind, get, modify.
  pose proof (analyzeLabels_loop_only_labels (program (set_label_index ∅ r)) 0
                (set_label_index ∅ r)) as Hl.
  destruct (analyzeLabels_loop 0 _ (set_label_index ∅ r)) as [[] r1 | err r1 |];
    [| exact Hl | exact I].
  destruct (analyzeGOTOs_loop_total (program r1) 0 r1)
    as [[_ ->] | (ln & k & _ & _ & ->)]; exact Hl.
Qed.

(** X20: [runString] does not start a program that fails the analysis,
    because a label occurs twice, a label has a name that the label table
    inherits from [Object.prototype], or a [Goto], [Gosub] or conditional
    looks up a key that is neither a label nor such an inherited name: the
    error is raised, and of the runtime only the program and the label
    table have changed; nothing was executed, emitted, or sent. *)
Theorem X20_failed_analysis_runs_nothing
    (fuel : nat) (parsed : list (option stmt)) (e : engine) :
  (~ NoDup (label_names parsed)
   \/ (exists k, k ∈ label_names parsed /\ inherited k = true)
   \/ exists ln k, (ln, k) ∈ label_checks 0 parsed
                  /\ (k ∉ label_names parsed)
                  /\ inherited k = false) ->
  exists err r',
    runString sb3_commands fuel parsed e = Raised err (with_rt r' e)
    /\ r' = set_label_index (label_index r') (set_program parsed (rt e)).
Proof.
  intros Hbad.
  destruct (proj2 (analyze_fails_iff (set_program parsed (rt e))) Hbad)
    as (err & r' & Hrun).
  exists err, r'. unfold runString. rewrite Hrun. split; [reflexivity |].
  pose proof (analyze_only_labels (set_program parsed (rt e))) as H.
  now rewrite Hrun in H.
Qed.

Lemma no_percent_no_sysvar (s : string) :
  has_char "%" s = false -> match_SYSVAR_RE s = None.
Proof.
  induction s as [| c r IH]; [reflexivity |].
  simpl has_char. intros H. apply orb_false_iff in H as [Hc Hr].
  specialize (IH Hr).
  destruct c as [[] [] [] [] [] [] [] []]; try discriminate Hc; exact IH.
Qed.

Lemma no_ampersand_no_uservar (s : string) :
  has_char "&" s = false -> match_USERVAR_RE s = false.
Proof.
  induction s as [| c r IH]; [reflexivity |].
  simpl. intros H. apply orb_false_iff in H as [Hc Hr].
  now rewrite Hc, (IH Hr).
Qed.

Lemma plain_default (p : option expr) :
  plain p = true -> plain (default_or_undefined p) = true.
Proof.
  destruct p as [e |]; [| reflexivity]. unfold default_or_undefined.
  now destruct (truthy_expr e).
Qed.

Lemma scrub_plain (params : list (option expr)) :
  forallb plain params = true ->
  forall args, forallb plain args = true ->
               forallb plain (scrub params args) = true.
Proof.
  induction params as [| p params IH]; intros Hp args Ha; [reflexivity |].
  simpl in Hp. apply andb_true_iff in Hp as [Hp Hps].
  simpl. apply andb_true_iff. split.
  - destruct args as [| a args]; [now apply plain_default |].
    simpl in Ha. apply andb_true_iff in Ha as [Ha _].
    destruct (is_given a); [exact Ha | now apply plain_default].
  - apply IH; [exact Hps |]. destruct args as [| a args]; [reflexivity |].
    simpl in Ha. now apply andb_true_iff in Ha as [_ Ha].
Qed.

Lemma eval_plain (a : option expr) (r : runtime) :
  plain a = true -> exists v, _eval_opt a r = Ok v r.
Proof.
  destruct a as [[x | s | op lhs rhs] |]; simpl; intros H;
    [eauto | | discriminate | eauto].
  apply andb_true_iff in H as [Hs Hu].
  apply negb_true_iff in Hs, Hu.
  unfold _eval_value, evaluateSystemVariable, evaluateUserVariable.
  rewrite (no_percent_no_sysvar _ Hs), (no_ampersand_no_uservar _ Hu). eauto.
Qed.

Lemma eval_all_plain (l : list (option expr)) (r : runtime) :
  forallb plain l = true -> exists vs, eval_all l r = Ok vs r.
Proof.
  induction l as [| a l IH]; intros H; [now exists [] |].
  simpl in H. apply andb_true_iff in H as [Ha Hl].
  destruct (IH Hl) as [vs Hvs]. destruct (eval_plain a r Ha) as [v Hv].
  simpl. unfold bind. rewrite Hv, Hvs. eauto.
Qed.

Lemma move_name_handler (name : string) :
  existsb (String.eqb name) move_names = true ->
  method_length name = Some 1%nat
  /\ exists f, handler name = Some f /\ In (name, f) motion_handlers.
Proof.
  unfold move_names. simpl. intros H.
  repeat (apply orb_true_iff in H as [H | H];
          [ apply String.eqb_eq in H as ->; split; [reflexivity |];
            eexists; split; [reflexivity |];
            unfold motion_handlers; simpl; tauto
          |]).
  discriminate.
Qed.

(** A move with plain arguments returns, one line and one index
    further. *)
Lemma move_executes (line : option stmt) (r : runtime) (n : Z) :
  (forall name params,
      sb3_commands !! name = Some params -> forallb plain params = true) ->
  is_move line = true ->
  pc r = PNum n ->
  exists s, line = Some s /\ _breaksStack s = false
    /\ exists b g pos,
         _execute sb3_commands line r
         = Ok b (set_pc (PNum (n + 1))
                   (set_cmd_pos pos
                      (set_current_chunk (current_chunk r ++ [g]) r))).
Proof.
  intros Htab Hm Hpc.
  destruct line as [[name args | | | | | | | | | |] |]; try discriminate.
  simpl in Hm. apply andb_true_iff in Hm as [Hname Hargs].
  destruct (move_name_handler name Hname) as (Hlen & f & Hf & Hin).
  exists (SCmd name args). split; [reflexivity |]. split.
  - simpl. now rewrite Hlen.
  - simpl. unfold bind, _executeCommand, bind. rewrite Hlen.
    assert (Hs : forallb plain
                   match sb3_commands !! name with
                   | Some params => scrub params args
                   | None => []
                   end = true).
    { destruct (sb3_commands !! name) as [params |] eqn:Hp; [| reflexivity].
      apply scrub_plain; [exact (Htab _ _ Hp) | exact Hargs]. }
    unfold _evaluateArguments.
    destruct (eval_all_plain _ r Hs) as [vs ->]. simpl. rewrite Hf.
    destruct (motion_one_line name f vs r Hin) as (g & pos & ->).
    simpl. rewrite Hpc. simpl. eauto.
Qed.

Lemma with_rt_same (e : engine) : with_rt (rt e) e = e.
Proof. now destruct e. Qed.

Lemma loop_moves (k : nat) :
  forall (e : engine) (n m : nat),
    (forall name params,
        sb3_commands !! name = Some params -> forallb plain params = true) ->
    forallb is_move (program (rt e)) = true ->
    pc (rt e) = PNum (Z.of_nat n) ->
    (n + k = length (program (rt e)))%nat ->
    exists r' new,
      continue_loop sb3_commands (k + m) e
      = continue_loop sb3_commands m (with_rt r' e)
      /\ program r' = program (rt e)
      /\ pc r' = PNum (Z.of_nat (length (program (rt e))))
      /\ current_chunk r' = current_chunk (rt e) ++ new
      /\ length new = k.
Proof.
  induction k as [| k IH]; intros e n m Htab Hall Hpc Hlen.
  - exists (rt e), []. rewrite with_rt_same, app_nil_r.
    repeat split. rewrite Hpc. f_equal. lia.
  - assert (Hn : (n < length (program (rt e)))%nat) by lia.
    destruct (lookup_lt_is_Some_2 _ _ Hn) as [line Hline].
    assert (Hm : is_move line = true).
    { rewrite forallb_forall in Hall. apply Hall.
      apply list_elem_of_In. eapply list_elem_of_lookup_2. exact Hline. }
    destruct (move_executes line (rt e) _ Htab Hm Hpc)
      as (s & -> & Hb & b & g & pos & Hx).
    assert (Hround : round sb3_commands e
                     = inr (with_rt
                              (set_pc (PNum (Z.of_nat n + 1))
                                 (set_cmd_pos pos
                                    (set_current_chunk
                                       (current_chunk (rt e) ++ [g]) (rt e)))) e)).
    { unfold round. rewrite Hpc. simpl view_pc. unfold program_over.
      destruct (Z.leb_spec (Z.of_nat (length (program (rt e)))) (Z.of_nat n));
        [lia |].
      unfold fetch. destruct (Z.ltb_spec (Z.of_nat n) 0); [lia |].
      rewrite Nat2Z.id, Hline, Hb, Hx. reflexivity. }
    simpl. rewrite Hround.
    destruct (IH (with_rt
                    (set_pc (PNum (Z.of_nat n + 1))
                       (set_cmd_pos pos
                          (set_current_chunk (current_chunk (rt e) ++ [g]) (rt e))))
                    e) (S n) m Htab)
      as (r' & new & Hrun & Hp & Hpc' & Hc & Hl).
    + exact Hall.
    + simpl. f_equal. lia.
    + simpl. lia.
    + simpl in *. exists r', (g :: new). rewrite Hrun.
      split; [reflexivity |]. split; [exact Hp |]. split; [exact Hpc' |].
      split; [now rewrite Hc, <- app_assoc | simpl; now rewrite Hl].
Qed.

Lemma move_program_runs (e : engine) :
  (forall name params,
      sb3_commands !! name = Some params -> forallb plain params = true) ->
  started e = true ->
  pc (rt e) = PNum 0 ->
  current_chunk (rt e) = [] ->
  program (rt e) <> [] ->
  forallb is_move (program (rt e)) = true ->
  exists e' new,
    _continue sb3_commands (S (length (program (rt e)))) e = Dispatched e'
    /\ segments e' = segments e ++ [new]
    /\ length new = length (program (rt e))
    /\ current_chunk (rt e') = []
    /\ forall fuel, exists e'',
         _continue sb3_commands (S fuel) e' = Ended e''
         /\ segments e'' = segments e'.
Proof.
  intros Htab Hs Hpc Hc Hne Hall. unfold _continue at 1. simpl started. rewrite Hs.
  destruct (loop_moves (length (program (rt e))) (_update e) 0 1 Htab Hall Hpc eq_refl)
    as (r' & new & Hrun & Hp & Hpc' & Hch & Hl).
  simpl rt in *. rewrite Hc in Hch. simpl in Hch.
  replace (S (length (program (rt e)))) with (length (program (rt e)) + 1)%nat by lia.
  rewrite Hrun. simpl. unfold round. simpl. rewrite Hpc'. simpl.
  rewrite Hp, Z.leb_refl. unfold _dispatch. simpl. rewrite Hch.
  destruct new as [| g new]; [destruct (program (rt e)); [contradiction | discriminate] |].
  eexists. exists (g :: new). split; [reflexivity |]. simpl.
  split; [reflexivity |]. split; [exact Hl |]. split; [reflexivity |].
  intros fuel. unfold _continue. simpl. rewrite Hs. unfold round. simpl.
  rewrite Hpc'. simpl. rewrite Hp, Z.leb_refl. simpl.
  eexists. split; reflexivity.
Qed.

(** X21: a program made of move commands with plain arguments (numbers,
    texts without a variable reference, or nothing), started at its first
    line with nothing pending, is run to its end by one call of
    [_continue], which emits one line per statement and hands them all to
    the driver as a single segment; the call the driver makes when the
    segment has run ends the program. *)
Theorem X21_move_program_runs_as_one_segment (e : engine) :
  (forall name params,
      sb3_commands !! name = Some params -> forallb plain params = true) ->
  started e = true ->
  pc (rt e) = PNum 0 ->
  current_chunk (rt e) = [] ->
  program (rt e) <> [] ->
  forallb is_move (program (rt e)) = true ->
  exists e' new,
    _continue sb3_commands (S (length (program (rt e)))) e = Dispatched e'
    /\ segments e' = segments e ++ [new]
    /\ length new = length (program (rt e))
    /\ current_chunk (rt e') = []
    /\ forall fuel, exists e'',
         _continue sb3_commands (S fuel) e' = Ended e''
         /\ segments e'' = segments e'.
Proof. exact (move_program_runs e). Qed.

End LoopFacts.

(** ** The fast path of the parser *)

Section ParserFacts.
Import JS Sbp Props Frame Jog Engine Parser.
Variable sb3_commands : gmap string (list (option expr)).

Lemma step_allowed (st st' : scan) (c : ascii) :
  scan_step st c = Some st' -> allowed c = true.
Proof.
  unfold scan_step, allowed.
  destruct st, (classify c); intros H; first [discriminate | reflexivity].
Qed.

Lemma scan_allowed (s : string) :
  forall st, scan_from st s = true -> all_chars allowed s = true.
Proof.
  induction s as [| c r IH]; intros st H; [reflexivity |].
  simpl in *. destruct (scan_step st c) as [st' |] eqn:E; [| discriminate].
  rewrite (step_allowed _ _ _ E). simpl. eauto.
Qed.

Lemma classify_comma (c : ascii) :
  classify c = KComma -> Ascii.eqb c "," = true.
Proof.
  unfold classify. destruct (is_ws c); [discriminate |].
  destruct (Ascii.eqb c ","); [reflexivity |].
  destruct (Ascii.eqb c "+" || Ascii.eqb c "-"); [discriminate |].
  destruct (is_digit c); [discriminate |].
  destruct (Ascii.eqb c "."); discriminate.
Qed.

Lemma scan_needs_comma (s : string) :
  scan_from NoComma s = true -> (1 <= count_char "," s)%nat.
Proof.
  induction s as [| c r IH]; simpl; intros H; [discriminate |].
  unfold scan_step in H. destruct (classify c) eqn:K; try discriminate.
  - specialize (IH H). lia.
  - rewrite (classify_comma _ K). lia.
Qed.

Lemma split_length (sep : ascii) (s : string) :
  length (split_on sep s) = S (count_char sep s).
Proof.
  induction s as [| c r IH]; [reflexivity |].
  simpl. destruct (Ascii.eqb c sep); simpl; [now rewrite IH |].
  destruct (split_on sep r); simpl in *; [discriminate | exact IH].
Qed.

Lemma split_pieces (p : ascii -> bool) (sep : ascii) (s : string) :
  all_chars p s = true ->
  Forall (fun piece => all_chars p piece = true) (split_on sep s).
Proof.
  induction s as [| c r IH]; simpl; intros H; [now repeat constructor |].
  apply andb_true_iff in H as [Hc Hr]. specialize (IH Hr).
  destruct (Ascii.eqb c sep); [now constructor |].
  destruct (split_on sep r) as [| q qs].
  - repeat constructor. simpl. now rewrite Hc.
  - inversion IH as [| ? ? Hq Hqs]; subst. constructor; [| exact Hqs].
    simpl. now rewrite Hc, Hq.
Qed.

Lemma allowed_no_reference (piece : string) :
  all_chars allowed piece = true ->
  has_char "%" piece = false /\ has_char "&" piece = false.
Proof.
  induction piece as [| c r IH]; simpl; intros H; [now split |].
  apply andb_true_iff in H as [Hc Hr]. destruct (IH Hr) as [H1 H2].
  rewrite H1, H2.
  split; destruct (Ascii.eqb_spec c "%"), (Ascii.eqb_spec c "&"); subst;
    first [reflexivity | discriminate].
Qed.

Lemma parse_arg_plain (piece : string) :
  all_chars allowed piece = true -> plain (parse_arg piece) = true.
Proof.
  intros H. destruct (allowed_no_reference _ H) as [H1 H2]. unfold parse_arg.
  destruct (String.eqb (skip_ws piece) ""); [reflexivity |].
  destruct (PrimFloat.is_nan (parseFloat piece)); [| reflexivity].
  simpl. now rewrite H1, H2.
Qed.

Lemma args_plain (rest : string) :
  all_chars allowed rest = true ->
  forallb plain (map parse_arg (tl (split_on "," rest))) = true.
Proof.
  intros H. pose proof (split_pieces allowed "," rest H) as Hall.
  destruct (split_on "," rest) as [| p ps]; [reflexivity |].
  inversion Hall as [| ? ? _ Hps]; subst. simpl.
  apply forallb_forall. intros a Ha. apply in_map_iff in Ha as (piece & <- & Hp).
  apply parse_arg_plain. rewrite List.Forall_forall in Hps. now apply Hps.
Qed.

(** A character that is no comma, put in front, changes neither the
    number of commas nor the pieces behind the first one. *)
Lemma no_comma_in_front (c : ascii) (s : string) :
  Ascii.eqb c "," = false ->
  count_char "," (String c s) = count_char "," s
  /\ tl (split_on "," (String c s)) = tl (split_on "," s).
Proof.
  intros H. simpl. rewrite H. split; [reflexivity |].
  now destruct (split_on "," s).
Qed.

Lemma ws_no_comma (c : ascii) : is_ws c = true -> Ascii.eqb c "," = false.
Proof.
  intros H. destruct (Ascii.eqb_spec c ","); [subst; discriminate | reflexivity].
Qed.

Lemma word_no_comma (c : ascii) : is_word c = true -> Ascii.eqb c "," = false.
Proof.
  intros H. destruct (Ascii.eqb_spec c ","); [subst; discriminate | reflexivity].
Qed.

Lemma skip_ws_commas (s : string) :
  count_char "," s = count_char "," (skip_ws s)
  /\ tl (split_on "," s) = tl (split_on "," (skip_ws s)).
Proof.
  induction s as [| c r IH]; [now split |].
  simpl skip_ws. destruct (is_ws c) eqn:Hw; [| now split].
  destruct (no_comma_in_front c r (ws_no_comma _ Hw)) as [-> ->]. exact IH.
Qed.

(** What a match of [CMD_RE] says about the statement. *)
Lemma match_CMD_RE_spec (statement cmd rest : string) :
  match_CMD_RE statement = Some (cmd, rest) ->
  String.length cmd = 2%nat
  /\ all_chars is_word cmd = true
  /\ scan_from NoComma rest = true
  /\ count_char "," statement = count_char "," rest
  /\ tl (split_on "," statement) = tl (split_on "," rest).
Proof.
  unfold match_CMD_RE. destruct (skip_ws_commas statement) as [Hn Ht].
  destruct (skip_ws statement) as [| c1 [| c2 tail]]; try discriminate.
  destruct (is_word c1) eqn:H1; [| discriminate].
  destruct (is_word c2) eqn:H2; [| discriminate].
  destruct (scan_from NoComma tail) eqn:Hs; [| discriminate].
  simpl. intros [= <- <-].
  destruct (no_comma_in_front c1 (String c2 tail) (word_no_comma _ H1)) as [Ha Hb].
  destruct (no_comma_in_front c2 tail (word_no_comma _ H2)) as [Hc Hd].
  simpl. rewrite H1, H2. repeat split; congruence.
Qed.

Lemma fastParse_spec (statement : string) (s : stmt) :
  fastParse statement = Some s ->
  exists cmd args,
    s = SCmd cmd args
    /\ String.length cmd = 2%nat
    /\ all_chars is_word cmd = true
    /\ cmd <> "IF"
    /\ args = map parse_arg (tl (split_on "," statement))
    /\ length args = count_char "," statement
    /\ (1 <= length args)%nat
    /\ forallb plain args = true.
Proof.
  unfold fastParse.
  destruct (match_CMD_RE statement) as [[cmd rest] |] eqn:Hm; [| discriminate].
  destruct (match_CMD_RE_spec _ _ _ Hm) as (Hlen & Hword & Hscan & Hn & Ht).
  destruct (String.eqb_spec cmd "IF") as [| Hif]; [discriminate |].
  intros [= <-]. exists cmd, (map parse_arg (tl (split_on "," rest))).
  assert (Hargs : length (map parse_arg (tl (split_on "," rest)))
                  = count_char "," rest).
  { rewrite length_map. pose proof (split_length "," rest) as Hl.
    destruct (split_on "," rest); simpl in *; lia. }
  repeat split; try assumption.
  - now rewrite Ht.
  - now rewrite Hn.
  - rewrite Hargs. now apply scan_needs_comma.
  - apply args_plain. now apply (scan_allowed _ NoComma).
Qed.

(** X22: what the fast path accepts is a command with one argument for
    each comma of the statement, at least one: the mnemonic is two word
    characters and not [IF] as written, argument [i] is read from the text
    between comma [i] and the next one ([undefined] if blank), and every
    argument is plain, so that no variable reference and no operator ever
    takes the fast path. *)
Theorem X22_fast_path_reads_one_argument_per_comma
    (statement : string) (s : stmt) :
  fastParse statement = Some s ->
  exists cmd args,
    s = SCmd cmd args
    /\ String.length cmd = 2%nat
    /\ all_chars is_word cmd = true
    /\ cmd <> "IF"
    /\ args = map parse_arg (tl (split_on "," statement))
    /\ length args = count_char "," statement
    /\ (1 <= length args)%nat
    /\ forallb plain args = true.
Proof. apply fastParse_spec. Qed.

(** The no-break space U+00A0 is white space here as it is for [\s],
    [trim] and [Number]. *)
Example fastParse_no_break_space :
  fastParse ("MX," ++ String "160" "1") = Some (SCmd "MX" [Some (ENum 1)]).
Proof. vm_compute. reflexivity. Qed.

Lemma parseLine_spec (line : string) (s : stmt) :
  parseLine line = Some s ->
  exists cmd args, s = SCmd cmd args /\ forallb plain args = true.
Proof.
  unfold parseLine.
  destruct (fastParse (statement_of line)) as [obj |] eqn:Hf; [| discriminate].
  destruct (fastParse_spec _ _ Hf) as (cmd & args & -> & _ & _ & _ & _ & _ & _ & Hp).
  intros [= <-]. eauto.
Qed.

Lemma parse_lines_spec (lines : list string) :
  forall prog,
    parse_lines lines = Some prog ->
    length prog = length lines
    /\ forall line, In line prog ->
         exists cmd args, line = Some (SCmd cmd args) /\ forallb plain args = true.
Proof.
  induction lines as [| l lines IH]; intros prog H.
  - injection H as <-. split; [reflexivity | intros line []].
  - simpl in H. destruct (parseLine l) as [obj |] eqn:Hl; [| discriminate].
    destruct (parse_lines lines) as [output |]; [| discriminate].
    injection H as <-. destruct (IH _ eq_refl) as [Hlen Hall].
    split; [simpl; now rewrite Hlen |].
    intros line [<- | Hin]; [| now apply Hall].
    destruct (parseLine_spec _ _ Hl) as (cmd & args & -> & Hp). eauto.
Qed.

Lemma analyzeLabels_loop_commands (lines : list (option stmt)) :
  (forall line, In line lines -> exists cmd args, line = Some (SCmd cmd args)) ->
  forall i r, analyzeLabels_loop i lines r = Ok tt r.
Proof.
  induction lines as [| l lines IH]; intros H i r; [reflexivity |].
  destruct (H l (or_introl eq_refl)) as (cmd & args & ->). simpl.
  apply IH. intros line Hin. apply H. now right.
Qed.

Lemma analyzeGOTOs_loop_commands (lines : list (option stmt)) :
  (forall line, In line lines -> exists cmd args, line = Some (SCmd cmd args)) ->
  forall i r, analyzeGOTOs_loop i lines r = Ok tt r.
Proof.
  induction lines as [| l lines IH]; intros H i r; [reflexivity |].
  destruct (H l (or_introl eq_refl)) as (cmd & args & ->). simpl. unfold bind. simpl.
  apply IH. intros line Hin. apply H. now right.
Qed.

Lemma analyze_commands (prog : list (option stmt)) (r : runtime) :
  (forall line, In line prog -> exists cmd args, line = Some (SCmd cmd args)) ->
  analyze (set_program prog r) = Ok tt (set_label_index ∅ (set_program prog r)).
Proof.
  intros H. unfold analyze, _analyzeLabels, _analyzeGOTOs, bind, get, modify.
  simpl. rewrite (analyzeLabels_loop_commands prog H). simpl.
  now rewrite (analyzeGOTOs_loop_commands prog H).
Qed.

(** X23: from text to the driver.  If every line of a text takes the fast
    path of the parser and names a move, then [runString], on a runtime
    at line 0 with nothing pending, parses, analyses and runs the whole
    program in one go: one line of G-code per line of text, handed to the
    driver as a single segment; the call the driver makes when the
    segment has run ends the program. *)
Theorem X23_fast_parsed_moves_reach_the_driver_as_one_segment
    (data : string) (prog : list (option stmt)) (e : engine) :
  (forall name params,
      sb3_commands !! name = Some params -> forallb plain params = true) ->
  parse data = Some prog ->
  forallb names_a_move prog = true ->
  pc (rt e) = PNum 0 ->
  current_chunk (rt e) = [] ->
  exists e' new,
    Parser.runString sb3_commands (S (length prog)) data e = Dispatched e'
    /\ segments e' = segments e ++ [new]
    /\ length new = length prog
    /\ length prog = S (count_char "010" data)
    /\ current_chunk (rt e') = []
    /\ forall fuel, exists e'',
         _continue sb3_commands (S fuel) e' = Ended e''
         /\ segments e'' = segments e'.
Proof.
  intros Htab Hparse Hnames Hpc Hc.
  destruct (parse_lines_spec _ _ Hparse) as [Hlen Hall].
  rewrite split_length in Hlen.
  assert (Hcmds : forall line, In line prog ->
                               exists cmd args, line = Some (SCmd cmd args)).
  { intros line Hin. destruct (Hall line Hin) as (cmd & args & -> & _). eauto. }
  assert (Hmoves : forallb is_move prog = true).
  { apply forallb_forall. intros line Hin.
    rewrite forallb_forall in Hnames. specialize (Hnames line Hin).
    destruct (Hall line Hin) as (cmd & args & -> & Hp).
    simpl in *. now rewrite Hnames, Hp. }
  unfold Parser.runString. rewrite Hparse. unfold Engine.runString.
  rewrite (analyze_commands prog (rt e) Hcmds). unfold _run.
  destruct (move_program_runs sb3_commands
              {| rt := rt (with_rt (set_label_index ∅ (set_program prog (rt e))) e);
                 started := true; state := Running;
                 tool_pos := tool_pos (with_rt (set_label_index ∅ (set_program prog (rt e))) e);
                 segments := segments (with_rt (set_label_index ∅ (set_program prog (rt e))) e) |})
    as (e' & new & Hrun & Hseg & Hnew & Hch & Hend); simpl; try assumption.
  - reflexivity.
  - destruct prog; [discriminate | discriminate].
  - simpl in *. exists e', new. now repeat split.
Qed.

End ParserFacts.

Lemma commands0_plain (name : string) (params : list (option Sbp.expr)) :
  Fixture.commands0 !! name = Some params ->
  forallb Engine.plain params = true.
Proof.
  unfold Fixture.commands0. simpl. intros H.
  repeat (apply lookup_insert_Some in H as [[_ <-] | [_ H]]; [reflexivity |]).
  rewrite lookup_empty in H. discriminate.
Qed.




Lemma X18_return_on_empty_stack_ends_in_a_type_error_witness :
  exists e',
    Engine._continue Fixture.commands0 2
      (Engine.engine0 [Some Sbp.SReturn; Some (Sbp.SCmd "MX" [Some (Sbp.ENum 1)])])
    = Engine.TypeError e'
    /\ Sbp.pc (Engine.rt e') = Sbp.PUndef.
Proof.
  eexists. split.
  - apply (X18_return_on_empty_stack_ends_in_a_type_error Fixture.commands0 0
             (Engine.engine0 [Some Sbp.SReturn; Some (Sbp.SCmd "MX" [Some (Sbp.ENum 1)])])
             0);
      [reflexivity | reflexivity | lia | reflexivity | reflexivity].
  - reflexivity.
Defined.

Lemma X19_jump_free_program_leaves_the_loop_witness :
  Engine.ended
    (Engine._continue Fixture.commands0 5
       (Engine.engine0 [Some (Sbp.SLabel "a");
                        Some (Sbp.SCmd "JX" [Some (Sbp.ENum 1)]);
                        Some (Sbp.SCmd "VD" []);
                        Some (Sbp.SCmd "JS" [Some (Sbp.ENum 3)])]))
  = true.
Proof.
  apply (X19_jump_free_program_leaves_the_loop Fixture.commands0 5
           (Engine.engine0 [Some (Sbp.SLabel "a");
                            Some (Sbp.SCmd "JX" [Some (Sbp.ENum 1)]);
                            Some (Sbp.SCmd "VD" []);
                            Some (Sbp.SCmd "JS" [Some (Sbp.ENum 3)])]) 0).
  - reflexivity.
  - reflexivity.
  - simpl. lia.
Defined.

Lemma X20_failed_analysis_runs_nothing_witness :
  exists err r',
    Engine.runString Fixture.commands0 5
      [Some (Sbp.SCmd "MX" [Some (Sbp.ENum 1)]); Some (Sbp.SGoto "nowhere")]
      (Engine.engine0 [])
    = Engine.Raised err (Engine.with_rt r' (Engine.engine0 []))
    /\ r' = Sbp.set_label_index (Sbp.label_index r')
              (Sbp.set_program
                 [Some (Sbp.SCmd "MX" [Some (Sbp.ENum 1)]); Some (Sbp.SGoto "nowhere")]
                 (Engine.rt (Engine.engine0 []))).
Proof.
  apply (X20_failed_analysis_runs_nothing Fixture.commands0 5
           [Some (Sbp.SCmd "MX" [Some (Sbp.ENum 1)]); Some (Sbp.SGoto "nowhere")]
           (Engine.engine0 [])).
  right. right. exists 2, "nowhere". split; [| split].
  - simpl. apply list_elem_of_here.
  - simpl. intros H. inversion H.
  - reflexivity.
Defined.

Lemma X21_move_program_runs_as_one_segment_witness :
  exists e' new,
    Engine._continue Fixture.commands0 3
      (Engine.engine0 [Some (Sbp.SCmd "MX" [Some (Sbp.ENum 1)]); Some (Sbp.SCmd "MH" [])])
    = Engine.Dispatched e'
    /\ Engine.segments e' = [] ++ [new]
    /\ length new = 2%nat
    /\ Sbp.current_chunk (Engine.rt e') = []
    /\ forall fuel, exists e'',
         Engine._continue Fixture.commands0 (S fuel) e' = Engine.Ended e''
         /\ Engine.segments e'' = Engine.segments e'.
Proof.
  apply (X21_move_program_runs_as_one_segment Fixture.commands0
           (Engine.engine0 [Some (Sbp.SCmd "MX" [Some (Sbp.ENum 1)]);
                            Some (Sbp.SCmd "MH" [])])).
  - exact commands0_plain.
  - reflexivity.
  - reflexivity.
  - reflexivity.
  - discriminate.
  - reflexivity.
Defined.

Lemma X22_fast_path_reads_one_argument_per_comma_witness :
  exists cmd args,
    Parser.fastParse " mx , 1 ,, -2.50 " = Some (Sbp.SCmd cmd args)
    /\ length args = 3%nat
    /\ forallb Engine.plain args = true.
Proof.
  destruct (X22_fast_path_reads_one_argument_per_comma " mx , 1 ,, -2.50 "
              (Sbp.SCmd "mx" [Some (Sbp.ENum 1); None; Some (Sbp.ENum (-2.5))])
              eq_refl)
    as (cmd & args & Hs & _ & _ & _ & _ & Hlen & _ & Hplain).
  exists cmd, args. split; [now rewrite <- Hs | split; [exact Hlen | exact Hplain]].
Defined.

Lemma X23_fast_parsed_moves_reach_the_driver_as_one_segment_witness :
  exists e' new,
    Parser.runString Fixture.commands0 3 Parser.two_moves (Engine.engine0 [])
    = Engine.Dispatched e'
    /\ Engine.segments e' = Engine.segments (Engine.engine0 []) ++ [new]
    /\ length new = 2%nat.
Proof.
  destruct (X23_fast_parsed_moves_reach_the_driver_as_one_segment
              Fixture.commands0 Parser.two_moves
              [Some (Sbp.SCmd "MX" [Some (Sbp.ENum 1)]); Some (Sbp.SCmd "MH" [None])]
              (Engine.engine0 []) commands0_plain eq_refl eq_refl eq_refl eq_refl)
    as (e' & new & Hrun & Hseg & Hlen & _).
  exists e', new. split; [exact Hrun | split; [exact Hseg | exact Hlen]].
Defined.

(** ** Statements that raise *)

Section RaisingFacts.
Import JS Sbp Props Frame Jog.
Variable sb3_commands : gmap string (list (option expr)).

(** What a raising command has changed: the flag at most, or, for [JS]
    and [VS], besides that the settings. *)
Lemma executeCommand_raises (cmd : string) (args : list (option expr))
    (r r' : runtime) (err : error) :
  _executeCommand sb3_commands cmd args r = Throw err r' ->
  exists r1,
    only_flag r r1
    /\ (r' = r1
        \/ (sets_jog_speed (SCmd cmd args) = true
            /\ exists st, r' = set_settings st r1)).
Proof.
  unfold _executeCommand. destruct (method_length cmd) as [k |]; [| discriminate].
  unfold bind.
  pose proof (evaluateArguments_only_flag sb3_commands cmd args r) as Hargs.
  destruct (_evaluateArguments sb3_commands cmd args r) as [vs r1 | e r1 |];
    [| intros [= _ <-]; exists r1; split; [exact Hargs | now left] | discriminate].
  destruct (1 <? k)%nat; [discriminate |].
  destruct (handler cmd) as [f |] eqn:Hh; [| discriminate].
  destruct (f vs r1) as [[] r2 | e r2 |] eqn:Hf; [discriminate | | discriminate].
  intros [= _ <-]. exists r1. split; [exact Hargs |]. right.
  exact (handler_throws _ _ _ _ _ _ Hh Hf).
Qed.

Lemma only_flag_then_advanced (r r1 r' : runtime) :
  only_flag r r1 ->
  only_flag (set_pc (pc_add1 (pc r1)) r1) r' ->
  only_flag (set_pc (pc_add1 (pc r)) r) r'.
Proof.
  intros [-> | ->] H; [exact H |].
  right. destruct H as [-> | ->]; reflexivity.
Qed.

(** A statement that raises has set the flag at most, advanced [pc] if it
    is a pause, and changed settings if it is a [JS] or a [VS]. *)
Lemma execute_stmt_raises (s : stmt) :
  forall (r r' : runtime) (err : error),
    execute_stmt sb3_commands s r = Throw err r' ->
    exists r1,
      (only_flag r r1
       \/ (has_pause s = true /\ only_flag (set_pc (pc_add1 (pc r)) r) r1))
      /\ (r' = r1
          \/ (sets_jog_speed s = true /\ exists st, r' = set_settings st r1)).
Proof.
  induction s as [cmd args | var e | cmp s IH | l | l | | | value | | e | t];
    intros r r' err H; simpl in *; try discriminate.
  - destruct (executeCommand_raises _ _ _ _ _ H) as (r1 & Hf & Hr).
    exists r1. split; [now left | exact Hr].
  - unfold bind in H. pose proof (eval_only_flag e r) as He.
    destruct (_eval e r) as [v r1 | e1 r1 |]; [discriminate | | discriminate].
    injection H as _ <-. exists r1. split; now left.
  - unfold bind in H. pose proof (eval_only_flag cmp r) as He.
    destruct (_eval cmp r) as [v r0 | e1 r0 |]; [| | discriminate].
    + destruct (ToBoolean v); [| discriminate].
      destruct (IH _ _ _ H) as (r1 & [Hf | [Hp Hf]] & Hr); exists r1.
      * split; [left; eapply only_flag_trans; eauto | exact Hr].
      * split; [right; split; [exact Hp |]; eapply only_flag_then_advanced; eauto
               | exact Hr].
    + injection H as _ <-. exists r0. split; now left.
  - unfold bind, get in H. destruct (label_index r !! l); [discriminate |].
    destruct (inherited l); [discriminate |].
    injection H as _ <-. exists r. split; left; [apply only_flag_refl | reflexivity].
  - unfold bind, get in H. destruct (label_index r !! l); [discriminate |].
    destruct (inherited l); [discriminate |].
    injection H as _ <-. exists r. split; left; [apply only_flag_refl | reflexivity].
  - unfold bind, get in H. destruct (stack r); discriminate.
  - unfold bind, incr_pc, modify in H.
    destruct e as [e' |]; [| discriminate].
    destruct (truthy_expr e'); [| discriminate].
    pose proof (eval_only_flag e' (set_pc (pc_add1 (pc r)) r)) as He.
    destruct (_eval e' (set_pc (pc_add1 (pc r)) r)) as [v r1 | e1 r1 |];
      [discriminate | | discriminate].
    injection H as _ <-. exists r1. split; [right; now split | now left].
Qed.

Lemma set_own_settings (r : runtime) : set_settings (settings r) r = r.
Proof. now destruct r. Qed.

(** X24: a statement whose commands are supported and that raises leaves
    little behind: no line was emitted, and no variable, position or stack
    entry changed.  At most [sysvar_evaluated] was set; where the statement
    is a pause (bare or under conditionals), [pc] was advanced before the
    expression was evaluated; and where it is a [JS] or a [VS] command,
    which store a jog speed and then call [this.command], a settings
    record was stored. *)
Theorem X24_raising_statement_leaves_no_trace
    (command : option stmt) (r r' : runtime) (err : error) :
  supported command = true ->
  _execute sb3_commands command r = Throw err r' ->
  exists st,
    (r' = set_settings st r
     \/ r' = set_settings st (set_sysvar_evaluated true r)
     \/ r' = set_settings st (set_pc (pc_add1 (pc r)) r)
     \/ r' = set_settings st (set_sysvar_evaluated true (set_pc (pc_add1 (pc r)) r)))
    /\ ((forall s, command = Some s -> sets_jog_speed s = false) ->
        st = settings r)
    /\ ((forall s, command = Some s -> has_pause s = false) -> pc r' = pc r).
Proof.
  intros _. destruct command as [s |]; simpl; [| discriminate].
  unfold bind. intros H.
  destruct (execute_stmt sb3_commands s r) as [b r0 | e1 r0 |] eqn:Hx;
    [discriminate | | discriminate].
  injection H as _ <-.
  destruct (execute_stmt_raises s _ _ _ Hx) as (r1 & Hf & Hr).
  assert (Hst : exists st,
             r0 = set_settings st r1
             /\ ((forall s0, Some s = Some s0 -> sets_jog_speed s0 = false) ->
                 st = settings r1)).
  { destruct Hr as [-> | [Hj [st ->]]].
    - exists (settings r1). split; [now rewrite set_own_settings | reflexivity].
    - exists st. split; [reflexivity |].
      intros Hn. rewrite (Hn s eq_refl) in Hj. discriminate. }
  destruct Hst as (st & -> & Hst). exists st.
  destruct Hf as [[-> | ->] | [Hp [-> | ->]]]; (split; [tauto |]);
    (split; [exact Hst |]); intros Hn;
    first [ reflexivity | rewrite (Hn s eq_refl) in Hp; discriminate ].
Qed.

End RaisingFacts.

Lemma X24_raising_statement_leaves_no_trace_witness :
  exists err r' st,
    Sbp._execute (<["JS" := [None]]> Fixture.commands0)
      (Some (Sbp.SCmd "JS" [Some (Sbp.ENum 3)])) Fixture.runtime0
    = Sbp.Throw err r'
    /\ r' = Sbp.set_settings st Fixture.runtime0
    /\ Sbp.pc r' = Sbp.pc Fixture.runtime0.
Proof.
  eexists. eexists. eexists. split; [vm_compute; reflexivity |].
  split; [reflexivity |].
  pose proof (X24_raising_statement_leaves_no_trace
                (<["JS" := [None]]> Fixture.commands0)
                (Some (Sbp.SCmd "JS" [Some (Sbp.ENum 3)]))
                Fixture.runtime0) as H.
  edestruct H as (st & _ & _ & Hpc);
    [reflexivity | vm_compute; reflexivity |].
  apply Hpc. intros s [= <-]. reflexivity.
Defined.
